(** * CameraPunchTracker: the per-frame punch engine

    A shallow embedding of the motion-analysis core of
    [components/CameraPunchTracker.tsx]: the helpers [distance] and
    [getKeypoint], the rolling history ([pushHistory], [saveHistory], the
    hydration effect), the scoring functions [percentile] and
    [computePercent], and the per-frame step [computePunches].

    JavaScript numbers are idealised as real numbers: [Math.hypot] is the
    exact Euclidean norm, and rounding error, NaN and the infinities are
    outside the model.  Integer-valued results ([Math.floor], [Math.round],
    array indices, the strike counter, the percent score) are in [Z].

    The mutable [prevRef.current] record, the two history refs, the
    [localStorage] item and the React state written by the step are the
    fields of one [Engine] record that the step threads explicitly.  A step
    either returns or throws; as the object is mutated in place, a throw
    keeps the writes made before it. *)

From Stdlib Require Import Reals Lra Lia ZArith QArith Qreals List String Bool.
From Stdlib Require Import Sorted Permutation DecimalString.
Import ListNotations.

Open Scope R_scope.

(** ** Numbers *)

Definition Rltb (a b : R) : bool := if Rlt_dec a b then true else false.
Definition Rleb (a b : R) : bool := if Rle_dec a b then true else false.
Definition Rgtb (a b : R) : bool := Rltb b a.
Definition Rgeb (a b : R) : bool := Rleb b a.
Definition Reqb (a b : R) : bool := if Req_dec_T a b then true else false.

(** [Math.hypot(dx, dy)] *)
Definition Math_hypot (dx dy : R) : R := sqrt (dx * dx + dy * dy).

(** [Math.floor] and [Math.round] (halves round up). *)
Definition Math_floor (v : R) : Z := Int_part v.
Definition Math_round (v : R) : Z := Math_floor (v + / 2).

(** [a || b] on numbers: [0] is the falsy number. *)
Definition orElse (a b : R) : R := if Reqb a 0 then b else a.

(** Truthiness of an optional number ([undefined] and [0] are falsy), the
    [??] operator, and [v || false] on an optional flag. *)
Definition truthy (o : option R) : bool :=
  match o with Some v => negb (Reqb v 0) | None => false end.

Definition nullish {A : Type} (o : option A) (d : A) : A :=
  match o with Some v => v | None => d end.

Definition flag (o : option bool) : bool := nullish o false.

(** ** Data *)

Inductive WristSide : Type := Left | Right.

Module Pt.
Record t : Type := mk { x : R; y : R }.
End Pt.

(** A pose keypoint; [score] and [name] are optional in the library's type,
    and [part] is the legacy name field that [getKeypoint] also accepts. *)
Module Kp.
Record t : Type := mk {
    x : R;
    y : R;
    score : option R;
    name : option string;
    part : option string }.
End Kp.

Record Pose : Type := { keypoints : option (list Kp.t) }.

Record PunchStats : Type := {
  total : Z;
  lastSpeed : R;
  lastPower : R;
  lastPercent : Z }.

(** An entry of [HandDebug.reasons].  The two template strings carry the
    numbers they format ([toFixed] is not modelled). *)
Inductive Reason : Type :=
| Text (s : string)
| RangeBelow (pct : R)
| SpeedBelow (speedFwd speedThreshold : R).

Module Dbg.
Record t : Type := mk {
    completion : R;
    speed : R;
    speedThreshold : R;
    movingForward : bool;
    movingBackward : bool;
    rangeNorm : R;
    extensionNorm : R;
    triggerNorm : R;
    restNorm : R;
    reasons : list Reason;
    active : bool }.
End Dbg.

Inductive CalibrationStatus : Type := Waiting | Collecting | Complete.

Definition HISTORY_SIZE : nat := 50.
Definition PERCENTILE : R := 9 / 10.

Definition distance (a b : Pt.t) : R :=
  let dx := Pt.x a - Pt.x b in
  let dy := Pt.y a - Pt.y b in
  Math_hypot dx dy.

Definition nameIs (o : option string) (n : string) : bool :=
  match o with Some s => String.eqb s n | None => false end.

(** [keypoints.find((k) => k.name === name || k.part === name)] *)
Definition getKeypoint (kps : option (list Kp.t)) (n : string) : option Kp.t :=
  match kps with
  | None => None
  | Some l => find (fun k => nameIs (Kp.name k) n || nameIs (Kp.part k) n) l
  end.

(** ** Scoring *)

Fixpoint insert (v : R) (l : list R) : list R :=
  match l with
  | [] => [v]
  | h :: tl => if Rleb v h then v :: l else h :: insert v tl
  end.

(** [[...arr].sort((x, y) => x - y)]: ascending order. *)
Definition sort (l : list R) : list R := fold_right insert [] l.

Definition percentile (arr : list R) (p : R) : R :=
  match arr with
  | [] => 0
  | _ =>
    let a := sort arr in
    let len := Z.of_nat (List.length a) in
    let i := Z.min (len - 1) (Z.max 0 (Math_floor (p * IZR (len - 1)))) in
    nth (Z.to_nat i) a 0
  end.

(** [Math.max(...hist, power)] *)
Definition maxOf (hist : list R) (power : R) : R := fold_right Rmax power hist.

(** The baseline of [computePercent] before the [0.001] floor:
    [percentile(hist, PERCENTILE) || Math.max(...hist, power)]. *)
Definition baseline (power : R) (hist : list R) : R :=
  orElse (percentile hist PERCENTILE) (maxOf hist power).

Definition computePercent (power : R) (hist : list R) : Z :=
  let base := Rmax (1 / 1000) (baseline power hist) in
  let pct := Math_round ((power / base) * 100) in
  Z.max 0 (Z.min 150 pct).

(** ** History and its persistence *)

(** The JSON record kept under the key [punchHistoryV1]. *)
Module Stored.
Record rec : Type := mk {
    t : R;
    left : option (list R);
    right : option (list R) }.
End Stored.

(** [arr.slice(-n)] *)
Definition sliceLast {A : Type} (n : nat) (l : list A) : list A :=
  skipn (List.length l - n) l.

(** [arr.push(v); if (arr.length > HISTORY_SIZE) arr.shift()] *)
Definition pushBounded (cap : nat) (l : list R) (v : R) : list R :=
  let l' := l ++ [v] in
  if Nat.ltb cap (List.length l') then tl l' else l'.

(** [saveHistory]: the item written under [punchHistoryV1]. *)
Definition saveHistory (dateNow : R) (leftHist rightHist : list R) : Stored.rec :=
  Stored.mk dateNow (Some leftHist) (Some rightHist).

(** The hydration effect run on mount: a record younger than 30 minutes
    seeds the two history refs with its last [HISTORY_SIZE] entries; an
    absent, unreadable or older record leaves them as they are. *)
Definition hydrate (dateNow : R) (raw : option Stored.rec)
    (refs : list R * list R) : list R * list R :=
  match raw with
  | Some parsed =>
    if Rltb (dateNow - Stored.t parsed) (30 * 60 * 1000) then
      (sliceLast HISTORY_SIZE (nullish (Stored.left parsed) []),
       sliceLast HISTORY_SIZE (nullish (Stored.right parsed) []))
    else refs
  | None => refs
  end.

(** ** Engine state *)

(** The per-side keys of [prevRef.current].  The source picks a key by side
    ([side === "left" ? "leftRestExtension" : "rightRestExtension"], and so
    on); here each side has one record with the key's name without its
    prefix.  [wristPos] is [prev.left] / [prev.right]. *)
Record LimbPrev : Type := {
  wristPos : option Pt.t;
  DistToShoulder : option R;
  PunchDetected : option bool;
  MaxExtension : option R;
  SpeedHistory : option (list R);
  RestExtension : option R;
  RangeNorm : option R;
  Filtered : option Pt.t;
  NoiseSpeed : option R;
  CooldownUntil : option R }.

Record Prev : Type := {
  t : R;
  leftLimb : LimbPrev;
  rightLimb : LimbPrev;
  calibrated : option bool;
  prevLeftShoulder : option Pt.t;
  prevRightShoulder : option Pt.t }.

Record Engine : Type := {
  prev : Prev;
  leftHistory : list R;
  rightHistory : list R;
  storage : option Stored.rec;
  leftStats : PunchStats;
  rightStats : PunchStats;
  leftDebug : Dbg.t;
  rightDebug : Dbg.t;
  calibrationStatus : CalibrationStatus }.

Definition noLimb : LimbPrev :=
  {| wristPos := None; DistToShoulder := None; PunchDetected := None;
     MaxExtension := None; SpeedHistory := None; RestExtension := None;
     RangeNorm := None; Filtered := None; NoiseSpeed := None;
     CooldownUntil := None |}.

Definition emptyDebug : Dbg.t :=
  Dbg.mk 0 0 0 false false 0 0 0 0 [Text "waiting"] false.

Definition zeroStats : PunchStats :=
  {| total := 0; lastSpeed := 0; lastPower := 0; lastPercent := 0 |}.

(** The state on mount: [useRef({ t: 0 })], empty histories, zero stats. *)
Definition initialEngine (stored : option Stored.rec) : Engine :=
  {| prev := {| t := 0; leftLimb := noLimb; rightLimb := noLimb;
                calibrated := None; prevLeftShoulder := None;
                prevRightShoulder := None |};
     leftHistory := []; rightHistory := [];
     storage := stored;
     leftStats := zeroStats; rightStats := zeroStats;
     leftDebug := emptyDebug; rightDebug := emptyDebug;
     calibrationStatus := Waiting |}.

Definition limbOf (side : WristSide) (p : Prev) : LimbPrev :=
  match side with Left => leftLimb p | Right => rightLimb p end.

Definition setLimb (side : WristSide) (lp : LimbPrev) (p : Prev) : Prev :=
  match side with
  | Left => {| t := t p; leftLimb := lp; rightLimb := rightLimb p;
               calibrated := calibrated p;
               prevLeftShoulder := prevLeftShoulder p;
               prevRightShoulder := prevRightShoulder p |}
  | Right => {| t := t p; leftLimb := leftLimb p; rightLimb := lp;
                calibrated := calibrated p;
                prevLeftShoulder := prevLeftShoulder p;
                prevRightShoulder := prevRightShoulder p |}
  end.

Definition setT (v : R) (p : Prev) : Prev :=
  {| t := v; leftLimb := leftLimb p; rightLimb := rightLimb p;
     calibrated := calibrated p;
     prevLeftShoulder := prevLeftShoulder p;
     prevRightShoulder := prevRightShoulder p |}.

Definition setShoulders (l r : Pt.t) (p : Prev) : Prev :=
  {| t := t p; leftLimb := leftLimb p; rightLimb := rightLimb p;
     calibrated := calibrated p;
     prevLeftShoulder := Some l; prevRightShoulder := Some r |}.

Definition setCalibrated (p : Prev) : Prev :=
  {| t := t p; leftLimb := leftLimb p; rightLimb := rightLimb p;
     calibrated := Some true;
     prevLeftShoulder := prevLeftShoulder p;
     prevRightShoulder := prevRightShoulder p |}.

Definition setMaxExtension (v : R) (lp : LimbPrev) : LimbPrev :=
  {| wristPos := wristPos lp; DistToShoulder := DistToShoulder lp;
     PunchDetected := PunchDetected lp; MaxExtension := Some v;
     SpeedHistory := SpeedHistory lp; RestExtension := RestExtension lp;
     RangeNorm := RangeNorm lp; Filtered := Filtered lp;
     NoiseSpeed := NoiseSpeed lp; CooldownUntil := CooldownUntil lp |}.

Definition withPrev (p : Prev) (e : Engine) : Engine :=
  {| prev := p; leftHistory := leftHistory e; rightHistory := rightHistory e;
     storage := storage e; leftStats := leftStats e;
     rightStats := rightStats e; leftDebug := leftDebug e;
     rightDebug := rightDebug e; calibrationStatus := calibrationStatus e |}.

Definition statsOf (side : WristSide) (e : Engine) : PunchStats :=
  match side with Left => leftStats e | Right => rightStats e end.

Definition debugOf (side : WristSide) (e : Engine) : Dbg.t :=
  match side with Left => leftDebug e | Right => rightDebug e end.

Definition historyOf (side : WristSide) (e : Engine) : list R :=
  match side with Left => leftHistory e | Right => rightHistory e end.

(** [setLeftStats(f)] / [setRightStats(f)] with a functional update. *)
Definition setStats (side : WristSide) (f : PunchStats -> PunchStats)
    (e : Engine) : Engine :=
  match side with
  | Left =>
    {| prev := prev e; leftHistory := leftHistory e;
       rightHistory := rightHistory e; storage := storage e;
       leftStats := f (leftStats e); rightStats := rightStats e;
       leftDebug := leftDebug e; rightDebug := rightDebug e;
       calibrationStatus := calibrationStatus e |}
  | Right =>
    {| prev := prev e; leftHistory := leftHistory e;
       rightHistory := rightHistory e; storage := storage e;
       leftStats := leftStats e; rightStats := f (rightStats e);
       leftDebug := leftDebug e; rightDebug := rightDebug e;
       calibrationStatus := calibrationStatus e |}
  end.

(** [setLeftDebug(dbg)] / [setRightDebug(dbg)] *)
Definition setDebug (side : WristSide) (d : Dbg.t) (e : Engine) : Engine :=
  match side with
  | Left =>
    {| prev := prev e; leftHistory := leftHistory e;
       rightHistory := rightHistory e; storage := storage e;
       leftStats := leftStats e; rightStats := rightStats e;
       leftDebug := d; rightDebug := rightDebug e;
       calibrationStatus := calibrationStatus e |}
  | Right =>
    {| prev := prev e; leftHistory := leftHistory e;
       rightHistory := rightHistory e; storage := storage e;
       leftStats := leftStats e; rightStats := rightStats e;
       leftDebug := leftDebug e; rightDebug := d;
       calibrationStatus := calibrationStatus e |}
  end.

Definition CalibrationStatus_eqb (a b : CalibrationStatus) : bool :=
  match a, b with
  | Waiting, Waiting | Collecting, Collecting | Complete, Complete => true
  | _, _ => false
  end.

(** [setCalibrationStatusSafe]: writes the ref (and the mirrored React
    state) unless it already holds [next]. *)
Definition setCalibrationStatusSafe (next : CalibrationStatus) (e : Engine)
    : Engine :=
  if CalibrationStatus_eqb (calibrationStatus e) next then e
  else
    {| prev := prev e; leftHistory := leftHistory e;
       rightHistory := rightHistory e; storage := storage e;
       leftStats := leftStats e; rightStats := rightStats e;
       leftDebug := leftDebug e; rightDebug := rightDebug e;
       calibrationStatus := next |}.

(** [pushHistory(side, power)]: bounded push, then [saveHistory()]. *)
Definition pushHistory (dateNow : R) (side : WristSide) (power : R)
    (e : Engine) : Engine :=
  let l := match side with
           | Left => pushBounded HISTORY_SIZE (leftHistory e) power
           | Right => leftHistory e
           end in
  let r := match side with
           | Left => rightHistory e
           | Right => pushBounded HISTORY_SIZE (rightHistory e) power
           end in
  {| prev := prev e; leftHistory := l; rightHistory := r;
     storage := Some (saveHistory dateNow l r);
     leftStats := leftStats e; rightStats := rightStats e;
     leftDebug := leftDebug e; rightDebug := rightDebug e;
     calibrationStatus := calibrationStatus e |}.

(** ** The per-frame step *)

Inductive JsError : Type :=
| ReferenceError (binding : string)
| TypeError (msg : string).

(** The result of one call of [computePunches]: the state it leaves behind,
    whether it returned or threw. *)
Inductive Outcome : Type :=
| Returned (e : Engine)
| Threw (err : JsError) (e : Engine).

Definition engineOf (o : Outcome) : Engine :=
  match o with Returned e => e | Threw _ e => e end.

Record Punch : Type := { side : WristSide; speed : R; power : R }.

(** One animation frame: [performance.now()], the [Date.now()] that
    [saveHistory] would read, and the pose of the detector. *)
Record Frame : Type := { now : R; dateNow : R; pose : Pose }.

Definition minShoulderScore : R := 0.15.
Definition minWristScore : R := 0.05.

Definition pointOf (k : Kp.t) : Pt.t := Pt.mk (Kp.x k) (Kp.y k).

Definition staticDebug (reason : string) : Dbg.t :=
  Dbg.mk 0 0 0 false false 0 0 0 0 [Text reason] false.

(** The hand tracked for a side: the wrist when its score reaches
    [minWristScore], else the elbow, else the previous hand position with
    score 0. *)
Definition resolveHand (wrist elbow : option Kp.t) (prevWrist : option Pt.t)
    : option Kp.t :=
  let hand :=
    match wrist with
    | Some w => if Rgeb (nullish (Kp.score w) 0) minWristScore then Some w
                else elbow
    | None => elbow
    end in
  match hand with
  | Some h => Some h
  | None =>
    match prevWrist with
    | Some prevHand =>
      Some (Kp.mk (Pt.x prevHand) (Pt.y prevHand) (Some 0) None None)
    | None => None
    end
  end.

(** What one loop iteration does to a side once a hand is known. *)
Record LimbResult : Type := {
  limbAfter : LimbPrev;
  proposal : option Punch;
  debugAfter : Dbg.t;
  lastAfter : option (R * R) }.

Definition peakOf (speedHistory : list R) : R :=
  fold_left (fun maxValue value => if Rgtb value maxValue then value
                                   else maxValue) speedHistory 0.

(** The loop body from [curRaw] on is cut at the points where the source
    itself changes subject: the motion estimate (filtered position, speeds,
    direction flags), the extension learning, the strike detector and the
    diagnostics.  Each record holds the local variables of its part under
    their names in the source. *)

Module Motion.
Record t : Type := mk {
    cur : Pt.t;
    distToShoulder : R;
    rest : R;
    maxExt : R;
    speedHistory : list R;
    speed : R;
    speedFwd : R;
    movingForward : bool;
    movingBackward : bool }.
End Motion.

(** From [const curRaw] to [const movingBackward]. *)
Definition motionOf (norm dt : R) (shoulder hand : Kp.t) (lp : LimbPrev)
    : Motion.t :=
  let prevWrist := wristPos lp in
  let prevDist := DistToShoulder lp in
  let curRaw := pointOf hand in
  let prevFiltered :=
    nullish (Filtered lp)
      (match prevWrist with
       | Some w => Pt.mk (Pt.x w) (Pt.y w)
       | None => curRaw
       end) in
  let smAlpha := 0.6 in
  let cur :=
    Pt.mk (Pt.x prevFiltered * smAlpha + Pt.x curRaw * (1 - smAlpha))
          (Pt.y prevFiltered * smAlpha + Pt.y curRaw * (1 - smAlpha)) in
  let distToShoulder := distance cur (pointOf shoulder) in
  let rest := nullish (RestExtension lp) distToShoulder in
  let maxExt := nullish (MaxExtension lp) distToShoulder in
  let speedHistory0 := nullish (SpeedHistory lp) [] in
  let prevPoint := prevFiltered in
  let travel := distance cur prevPoint in
  let outwardX := Pt.x cur - Kp.x shoulder in
  let outwardY := Pt.y cur - Kp.y shoulder in
  let outwardLen := orElse (Math_hypot outwardX outwardY) 1 in
  let dirX := outwardX / outwardLen in
  let dirY := outwardY / outwardLen in
  let stepX := Pt.x cur - Pt.x prevPoint in
  let stepY := Pt.y cur - Pt.y prevPoint in
  let proj := stepX * dirX + stepY * dirY in
  let speed := (travel / norm) / dt in
  let speedFwd := (Rmax 0 proj / norm) / dt in
  let speedHistory := pushBounded 5 speedHistory0 speed in
  let deltaDist :=
    match prevDist with Some d => distToShoulder - d | None => 0 end in
  let forwardGate := Rmax (norm * 0.003) ((maxExt - rest) * 0.03) in
  let movingForward :=
    Rgtb speedFwd (if truthy (RangeNorm lp) then 0.3 else 0.15)
    && Rgtb deltaDist forwardGate in
  let movingBackward :=
    Rltb deltaDist (- forwardGate) && Rltb speedFwd 0.2 in
  Motion.mk cur distToShoulder rest maxExt speedHistory speed speedFwd
    movingForward movingBackward.

Module Ext.
Record t : Type := mk {
    noise : R;
    rest : R;
    maxExt : R;
    extensionRange : R }.
End Ext.

(** From [const noiseKey] to [const extensionRange]: the rest and maximum
    extensions learnt on a stable frame. *)
Definition extensionOf (norm : R) (m : Motion.t) (lp : LimbPrev) : Ext.t :=
  let distToShoulder := Motion.distToShoulder m in
  let movingForward := Motion.movingForward m in
  let noisePrev := nullish (NoiseSpeed lp) 0.05 in
  let noise := noisePrev * 0.9 + Motion.speed m * 0.1 in
  let rest0 := Motion.rest m in
  let rest :=
    if negb movingForward
       || Rltb (Motion.speedFwd m) (Rmax 0.15 (noise * 1.2))
       || Rltb distToShoulder rest0
    then
      let alpha := if Rltb distToShoulder rest0 then 0.6 else 0.03 in
      rest0 + (distToShoulder - rest0) * alpha
    else rest0 in
  let maxExt0 := Motion.maxExt m in
  let maxExt1 :=
    if movingForward && Rgtb distToShoulder maxExt0
    then maxExt0 + (distToShoulder - maxExt0) * 0.3 else maxExt0 in
  let maxExt2 :=
    if negb movingForward
    then maxExt1 - (maxExt1 - distToShoulder) * 0.02 else maxExt1 in
  let maxExt := Rmax maxExt2 (rest + norm * 0.04) in
  let extensionRangeRaw := Rmax 0 (maxExt - rest) in
  let extensionRange := Rmax extensionRangeRaw (norm * 0.02) in
  Ext.mk noise rest maxExt extensionRange.

Module Det.
Record t : Type := mk {
    punchActive : bool;
    rangeEnough : bool;
    speedThreshold : R;
    triggerDist : R;
    resetDist : R;
    currentPower : R;
    inCooldown : bool;
    fires : bool }.
End Det.

(** From [const punchActive] to the condition of the entry [if]. *)
Definition detectorOf (tnow norm : R) (m : Motion.t) (x : Ext.t)
    (lp : LimbPrev) : Det.t :=
  let distToShoulder := Motion.distToShoulder m in
  let speedFwd := Motion.speedFwd m in
  let rest := Ext.rest x in
  let extensionRange := Ext.extensionRange x in
  let punchActive := flag (PunchDetected lp) in
  let rangeEnough := Rgeb extensionRange (norm * 0.06) in
  let speedThreshold := Rmax 0.6 (0.5 + (extensionRange / norm) * 1.2) in
  let rangeNorm := extensionRange / norm in
  let triggerGain :=
    if Rltb rangeNorm 0.06 then 0.5
    else if Rltb rangeNorm 0.1 then 0.6 else 0.65 in
  let triggerDist := rest + extensionRange * triggerGain in
  let resetDist := rest + extensionRange * 0.25 in
  let currentPower :=
    speedFwd * Rmax 0.4 (Rmin 1.6 (distToShoulder / norm)) in
  let inCooldown := Rgtb (nullish (CooldownUntil lp) 0) tnow in
  let fires :=
    negb punchActive && negb inCooldown && rangeEnough
    && Motion.movingForward m
    && Rgeb speedFwd speedThreshold && Rgeb distToShoulder triggerDist in
  Det.mk punchActive rangeEnough speedThreshold triggerDist resetDist
    currentPower inCooldown fires.

(** From [const triggerDelta] to [const debug]. *)
Definition stableDebug (norm : R) (m : Motion.t) (x : Ext.t) (d : Det.t)
    : Dbg.t :=
  let distToShoulder := Motion.distToShoulder m in
  let speedFwd := Motion.speedFwd m in
  let movingForward := Motion.movingForward m in
  let rest := Ext.rest x in
  let extensionRange := Ext.extensionRange x in
  let speedThreshold := Det.speedThreshold d in
  let triggerDist := Det.triggerDist d in
  let triggerDelta := triggerDist - rest in
  let completion0 :=
    if Rgtb triggerDelta 0.0001
    then Rmax 0 (Rmin 1 ((distToShoulder - rest) / triggerDelta)) else 0 in
  let completion :=
    if negb movingForward && Rltb speedFwd 0.1 then 0 else completion0 in
  let reasons0 :=
    if Det.punchActive d then [Text "Punch active – retract to reset"]
    else
      (if negb (Det.rangeEnough d)
       then [RangeBelow (extensionRange / norm * 100)] else [])
      ++ (if negb movingForward then [Text "Not moving forward"] else [])
      ++ (if Rltb speedFwd speedThreshold
          then [SpeedBelow speedFwd speedThreshold] else [])
      ++ (if Rltb distToShoulder triggerDist
          then [Text "Need more reach"] else []) in
  let reasons :=
    match reasons0 with [] => [Text "Ready to strike"] | _ => reasons0 end in
  Dbg.mk completion speedFwd speedThreshold movingForward
    (Motion.movingBackward m) (extensionRange / norm) (distToShoulder / norm)
    (triggerDist / norm) (rest / norm) reasons (Det.punchActive d).

(** The flag [prev[punchFlagKey]] after the entry [if] and the exit [if]. *)
Definition flagAfter (m : Motion.t) (d : Det.t) (lp : LimbPrev)
    : option bool :=
  let entered := if Det.fires d then Some true else PunchDetected lp in
  if Det.punchActive d
     && (Motion.movingBackward m
         || Rleb (Motion.distToShoulder m) (Det.resetDist d))
  then Some false else entered.

(** The body of the [for (const side of sides)] loop from [curRaw] on. *)
Definition trackLimb (s : WristSide) (tnow norm dt : R) (torsoStable : bool)
    (shoulder hand : Kp.t) (lp : LimbPrev) : LimbResult :=
  let m := motionOf norm dt shoulder hand lp in
  if negb torsoStable then
    {| limbAfter :=
         {| wristPos := Some (Motion.cur m);
            DistToShoulder := Some (Motion.distToShoulder m);
            PunchDetected := PunchDetected lp;
            MaxExtension := MaxExtension lp;
            SpeedHistory := Some (Motion.speedHistory m);
            RestExtension := RestExtension lp; RangeNorm := RangeNorm lp;
            Filtered := Some (Motion.cur m); NoiseSpeed := NoiseSpeed lp;
            CooldownUntil := CooldownUntil lp |};
       proposal := None;
       debugAfter :=
         Dbg.mk 0 (Motion.speedFwd m) 0.6 false false
           (nullish (RangeNorm lp) 0) (Motion.distToShoulder m / norm) 0
           (Motion.rest m / norm)
           [Text "torso moving — hold steady"] (flag (PunchDetected lp));
       lastAfter := None |}
  else
    let x := extensionOf norm m lp in
    let d := detectorOf tnow norm m x lp in
    {| limbAfter :=
         {| wristPos := Some (Motion.cur m);
            DistToShoulder := Some (Motion.distToShoulder m);
            PunchDetected := flagAfter m d lp;
            MaxExtension := Some (Ext.maxExt x);
            SpeedHistory := Some (Motion.speedHistory m);
            RestExtension := Some (Ext.rest x);
            RangeNorm := Some (Ext.extensionRange x / norm);
            Filtered := Some (Motion.cur m);
            NoiseSpeed := Some (Ext.noise x);
            CooldownUntil :=
              if Det.fires d then Some (tnow + 250) else CooldownUntil lp |};
       proposal :=
         if Det.fires d
         then Some {| side := s; speed := Motion.speedFwd m;
                      power := Det.currentPower d |}
         else None;
       debugAfter := stableDebug norm m x d;
       lastAfter := Some (Motion.speedFwd m, Det.currentPower d) |}.

(** What the pose and the previous frame fix before the loop over sides. *)
Record Ctx : Type := {
  ls : Kp.t; rs : Kp.t;
  lw : option Kp.t; rw : option Kp.t;
  le : option Kp.t; re : option Kp.t;
  norm : R; dt : R; torsoStable : bool }.

Record LoopState : Type := {
  eng : Engine;
  potentialPunches : list Punch }.

(** One iteration of [for (const side of sides)].

    When no hand can be resolved, the branch [if (!hand)] builds its
    [HandDebug] from [prev[rangeNormKey]] and [prev[punchFlagKey]]; both
    names are [const] bindings declared further down the same loop body, so
    reading them there is a [ReferenceError] (temporal dead zone), raised
    before the branch writes anything. *)
Definition loopBody (c : Ctx) (tnow : R) (s : WristSide) (st : LoopState)
    : LoopState + JsError :=
  let e := eng st in
  let wrist := match s with Left => lw c | Right => rw c end in
  let elbow := match s with Left => le c | Right => re c end in
  let shoulder := match s with Left => ls c | Right => rs c end in
  let lp := limbOf s (prev e) in
  match resolveHand wrist elbow (wristPos lp) with
  | None => inr (ReferenceError "rangeNormKey")
  | Some hand =>
    let r := trackLimb s tnow (norm c) (dt c) (torsoStable c) shoulder hand lp in
    let e1 := setDebug s (debugAfter r) (withPrev (setLimb s (limbAfter r) (prev e)) e) in
    let e2 :=
      match lastAfter r with
      | Some (speedFwd, currentPower) =>
        setStats s (fun st0 =>
          {| total := total st0; lastSpeed := speedFwd;
             lastPower := currentPower; lastPercent := lastPercent st0 |}) e1
      | None => e1
      end in
    inl {| eng := e2;
           potentialPunches :=
             match proposal r with
             | Some p => potentialPunches st ++ [p]
             | None => potentialPunches st
             end |}
  end.

Definition sides : list WristSide := [Left; Right].

Fixpoint forSides (c : Ctx) (tnow : R) (l : list WristSide) (st : LoopState)
    : LoopState + (JsError * LoopState) :=
  match l with
  | [] => inl st
  | s :: tl =>
    match loopBody c tnow s st with
    | inl st' => forSides c tnow tl st'
    | inr err => inr (err, st)
    end
  end.

(** The [if (!prev.calibrated)] block. *)
Definition updateCalibration (e : Engine) : Engine :=
  if flag (calibrated (prev e)) then e
  else
    let leftRange := nullish (RangeNorm (leftLimb (prev e))) 0 in
    let rightRange := nullish (RangeNorm (rightLimb (prev e))) 0 in
    let collecting := Rgtb leftRange 0.08 || Rgtb rightRange 0.08 in
    if Rgtb leftRange 0.18 || Rgtb rightRange 0.18 then
      setCalibrationStatusSafe Complete (withPrev (setCalibrated (prev e)) e)
    else
      setCalibrationStatusSafe (if collecting then Collecting else Waiting) e.

Definition better (best current : Punch) : Punch :=
  if Rgtb (power current) (power best) then current else best.

(** The [punches] list: the proposals themselves when there is one, else
    the single proposal that [reduce] keeps. *)
Definition arbitrate (pp : list Punch) : list Punch :=
  match pp with
  | [] => []
  | [p] => [p]
  | p :: tl => [fold_left better tl p]
  end.

(** [prev.leftMaxExtension || 0] *)
Definition orZero (o : option R) : R :=
  match o with Some v => orElse v 0 | None => 0 end.

(** The body of [for (const punch of punches)].  The distance is taken from
    the raw wrist keypoint of the punch's side; [lw.x] on an absent keypoint
    is a [TypeError]. *)
Definition acceptPunch (c : Ctx) (f : Frame) (punch : Punch) (e : Engine)
    : Outcome :=
  let wrist := match side punch with Left => lw c | Right => rw c end in
  let shoulder := match side punch with Left => ls c | Right => rs c end in
  match wrist with
  | None =>
    Threw (TypeError "Cannot read properties of undefined (reading 'x')") e
  | Some w =>
    let distToShoulder := distance (pointOf w) (pointOf shoulder) in
    let e1 := pushHistory (dateNow f) (side punch) (power punch) e in
    let pct := computePercent (power punch) (historyOf (side punch) e1) in
    let e2 :=
      setStats (side punch) (fun s0 =>
        {| total := total s0 + 1; lastSpeed := speed punch;
           lastPower := power punch; lastPercent := pct |}) e1 in
    let lp := limbOf (side punch) (prev e2) in
    Returned
      (withPrev
         (setLimb (side punch)
            (setMaxExtension (Rmax (orZero (MaxExtension lp)) distToShoulder) lp)
            (prev e2)) e2)
  end.

Fixpoint forPunches (c : Ctx) (f : Frame) (l : list Punch) (e : Engine)
    : Outcome :=
  match l with
  | [] => Returned e
  | p :: tl =>
    match acceptPunch c f p e with
    | Returned e' => forPunches c f tl e'
    | Threw err e' => Threw err e'
    end
  end.

Definition bothDebug (d : Dbg.t) (e : Engine) : Engine :=
  setDebug Right d (setDebug Left d e).

(** The head of [computePunches]: the two shoulder checks, which return
    early, and what is computed before the loop over sides. *)
Inductive Entry : Type :=
| EarlyReturn (e : Engine)
| Enter (c : Ctx) (e0 : Engine).

Definition enterFrame (f : Frame) (e : Engine) : Entry :=
  let tnow := now f in
  let kps := Some (nullish (keypoints (pose f)) []) in
  let ols := getKeypoint kps "left_shoulder" in
  let ors := getKeypoint kps "right_shoulder" in
  let olw := getKeypoint kps "left_wrist" in
  let orw := getKeypoint kps "right_wrist" in
  let ole := getKeypoint kps "left_elbow" in
  let ore := getKeypoint kps "right_elbow" in
  match ols, ors with
  | Some kls, Some krs =>
    if Rltb (nullish (Kp.score kls) 0) minShoulderScore
       || Rltb (nullish (Kp.score krs) 0) minShoulderScore
    then
      EarlyReturn (withPrev (setT tnow (prev e))
                     (bothDebug (staticDebug "low shoulder confidence") e))
    else
      let leftShoulderPt := pointOf kls in
      let rightShoulderPt := pointOf krs in
      let shoulderSpan := distance leftShoulderPt rightShoulderPt in
      let vnorm := Rmax shoulderSpan 1 in
      let prevLeftSh := nullish (prevLeftShoulder (prev e)) leftShoulderPt in
      let prevRightSh := nullish (prevRightShoulder (prev e)) rightShoulderPt in
      let shMove :=
        (distance leftShoulderPt prevLeftSh
         + distance rightShoulderPt prevRightSh) / (2 * vnorm) in
      let stable := Rltb shMove 0.08 in
      let e0 := withPrev (setShoulders leftShoulderPt rightShoulderPt (prev e)) e in
      let vdt := Rmax ((tnow - orElse (t (prev e0)) tnow) / 1000) (1 / 120) in
      Enter {| ls := kls; rs := krs; lw := olw; rw := orw;
               le := ole; re := ore;
               norm := vnorm; dt := vdt; torsoStable := stable |} e0
  | _, _ =>
    EarlyReturn (withPrev (setT tnow (prev e))
                   (bothDebug (staticDebug "shoulders missing") e))
  end.

Definition startLoop (e0 : Engine) : LoopState :=
  {| eng := e0; potentialPunches := [] |}.

(** After the loop: calibration, arbitration, the accepted strike, and the
    final [prev.t = now]. *)
Definition finishFrame (c : Ctx) (f : Frame) (st : LoopState) : Outcome :=
  let e1 := updateCalibration (eng st) in
  match forPunches c f (arbitrate (potentialPunches st)) e1 with
  | Returned e2 => Returned (withPrev (setT (now f) (prev e2)) e2)
  | Threw err e2 => Threw err e2
  end.

Definition computePunches (f : Frame) (e : Engine) : Outcome :=
  match enterFrame f e with
  | EarlyReturn e' => Returned e'
  | Enter c e0 =>
    match forSides c (now f) sides (startLoop e0) with
    | inr (err, st) => Threw err (eng st)
    | inl st => finishFrame c f st
    end
  end.

(** The animation loop calls the step once per frame; a throw rejects that
    call only, and the next frame runs on the state left behind. *)
Definition run (frames : list Frame) (e : Engine) : Engine :=
  fold_left (fun e0 f => engineOf (computePunches f e0)) frames e.

(** The proposals pushed onto [potentialPunches] during one frame (none when
    a shoulder check returns early). *)
Definition proposals (f : Frame) (e : Engine) : list Punch :=
  match enterFrame f e with
  | EarlyReturn _ => []
  | Enter c e0 =>
    match forSides c (now f) sides (startLoop e0) with
    | inr (_, st) => potentialPunches st
    | inl st => potentialPunches st
    end
  end.

(** The strikes that reach the acceptance loop of one frame. *)
Definition accepted (f : Frame) (e : Engine) : list Punch :=
  match enterFrame f e with
  | EarlyReturn _ => []
  | Enter c e0 =>
    match forSides c (now f) sides (startLoop e0) with
    | inr _ => []
    | inl st => arbitrate (potentialPunches st)
    end
  end.

(** The proposals of each frame of a run, in order. *)
Fixpoint proposalsAlong (frames : list Frame) (e : Engine) : list Punch :=
  match frames with
  | [] => []
  | f :: tl => proposals f e ++ proposalsAlong tl (engineOf (computePunches f e))
  end.

(** ** Properties stated below *)

(** The percentile as the specification words it: nearest rank, with the
    index rounded instead of floored.  Used only for comparison with
    [percentile]. *)
Definition percentileNearestRank (arr : list R) (p : R) : R :=
  match arr with
  | [] => 0
  | _ =>
    let a := sort arr in
    let len := Z.of_nat (List.length a) in
    let i := Z.min (len - 1) (Z.max 0 (Math_round (p * IZR (len - 1)))) in
    nth (Z.to_nat i) a 0
  end.

(** Once a limb has a rest and a maximum extension, they are 0.04 apart at
    least; the two keys are always written together. *)
Definition extensionFloor (lp : LimbPrev) : Prop :=
  match RestExtension lp, MaxExtension lp with
  | Some rest, Some maxExt => rest + 0.04 <= maxExt
  | None, None => True
  | _, _ => False
  end.

(** The status is [Complete] exactly when [prev.calibrated] is set. *)
Definition calibrationLatched (e : Engine) : Prop :=
  calibrationStatus e = Complete <-> flag (calibrated (prev e)) = true.

Definition otherSide (s : WristSide) : WristSide :=
  match s with Left => Right | Right => Left end.

Definition optList {A : Type} (o : option A) : list A :=
  match o with Some a => [a] | None => [] end.

(** ** Closed arithmetic

    Expressions over rational literals, evaluated in [Q]; used to run the
    step on concrete frames. *)

Inductive RExp : Type :=
| RInt (z : Z)
| RLit (q : Q)
| RAdd (a b : RExp)
| RSub (a b : RExp)
| RMul (a b : RExp)
| RDiv (a b : RExp)
| ROpp (a : RExp)
| RInv (a : RExp).

Fixpoint denote (e : RExp) : R :=
  match e with
  | RInt z => IZR z
  | RLit q => Q2R q
  | RAdd a b => denote a + denote b
  | RSub a b => denote a - denote b
  | RMul a b => denote a * denote b
  | RDiv a b => denote a / denote b
  | ROpp a => - denote a
  | RInv a => / denote a
  end.

Definition Qnz (q : Q) : bool := negb (Z.eqb (Qnum q) 0).

Definition liftQ2 (f : Q -> Q -> Q) (x y : option Q) : option Q :=
  match x, y with
  | Some a, Some b => Some (Qred (f a b))
  | _, _ => None
  end.

Fixpoint evalQ (e : RExp) : option Q :=
  match e with
  | RInt z => Some (inject_Z z)
  | RLit q => Some q
  | RAdd a b => liftQ2 Qplus (evalQ a) (evalQ b)
  | RSub a b => liftQ2 Qminus (evalQ a) (evalQ b)
  | RMul a b => liftQ2 Qmult (evalQ a) (evalQ b)
  | RDiv a b =>
    match evalQ b with
    | Some y => if Qnz y then liftQ2 Qdiv (evalQ a) (Some y) else None
    | None => None
    end
  | ROpp a => liftQ2 Qminus (Some 0%Q) (evalQ a)
  | RInv a =>
    match evalQ a with
    | Some y => if Qnz y then Some (Qred (Qinv y)) else None
    | None => None
    end
  end.

(** ** Frames used in the examples

    Shoulders on the x axis, one unit apart; hands on the same axis, so
    every distance is a difference of abscissas. *)

Definition keypoint (n : string) (vx vy : R) : Kp.t :=
  Kp.mk vx vy (Some 1) (Some n) None.

Definition mkFrame (tm : R) (kps : list Kp.t) : Frame :=
  {| now := tm; dateNow := 1700000000000 + tm;
     pose := {| keypoints := Some kps |} |}.

Definition shoulders : list Kp.t :=
  [keypoint "left_shoulder" 0 0; keypoint "right_shoulder" 1 0].

Definition wristsAt (tm lwx rwx : R) : Frame :=
  mkFrame tm (shoulders ++ [keypoint "left_wrist" lwx 0;
                            keypoint "right_wrist" rwx 0]).

Definition engine0 : Engine := initialEngine None.

(** Both hands at rest, then both thrown forward within 100 ms. *)
Definition frameA1 : Frame := wristsAt 1000 (-0.3) 1.3.
Definition frameA2 : Frame := wristsAt 1100 (-1.3) 2.6.
Definition frameA3 : Frame := wristsAt 1200 (-1.3) 2.6.

(** The left hand drifting out slowly, then holding. *)
Definition frameB2 : Frame := wristsAt 1500 (-0.75) 1.3.
Definition frameB3 : Frame := wristsAt 2000 (-0.75) 1.3.

(** No left wrist keypoint: the left limb is tracked by its elbow, which is
    thrown forward. *)
Definition elbowAt (tm lex : R) : Frame :=
  mkFrame tm (shoulders ++ [keypoint "left_elbow" lex 0;
                            keypoint "right_wrist" 1.3 0]).

Definition frameC1 : Frame := elbowAt 1000 (-0.3).
Definition frameC2 : Frame := elbowAt 1100 (-1.3).

(** The right shoulder jumps by 0.2: an unstable frame with a wider span. *)
Definition frameD2 : Frame :=
  mkFrame 1100 [keypoint "left_shoulder" 0 0; keypoint "right_shoulder" 1.2 0;
                keypoint "left_wrist" (-0.3) 0; keypoint "right_wrist" 1.3 0].

(** Neither a left wrist nor a left elbow. *)
Definition frameE1 : Frame :=
  mkFrame 1000 (shoulders ++ [keypoint "right_wrist" 1.3 0]).

(** The states these frames lead to. *)

Definition limbAtRest (handX : R) : LimbPrev :=
  {| wristPos := Some (Pt.mk handX 0); DistToShoulder := Some 0.3;
     PunchDetected := None; MaxExtension := Some 0.34;
     SpeedHistory := Some [0]; RestExtension := Some 0.3;
     RangeNorm := Some 0.04; Filtered := Some (Pt.mk handX 0);
     NoiseSpeed := Some 0.045; CooldownUntil := None |}.

Definition debugAtRest : Dbg.t :=
  Dbg.mk 0 0 0.6 false false 0.04 0.3 0.32 0.3
    [RangeBelow 4; Text "Not moving forward"; SpeedBelow 0 0.6;
     Text "Need more reach"] false.

(** After [frameA1] (and after [frameC1]) on the initial state. *)
Definition stateA1 : Engine :=
  {| prev := {| t := 1000;
                leftLimb := limbAtRest (-0.3); rightLimb := limbAtRest 1.3;
                calibrated := None;
                prevLeftShoulder := Some (Pt.mk 0 0);
                prevRightShoulder := Some (Pt.mk 1 0) |};
     leftHistory := []; rightHistory := []; storage := None;
     leftStats := zeroStats; rightStats := zeroStats;
     leftDebug := debugAtRest; rightDebug := debugAtRest;
     calibrationStatus := Waiting |}.

(** After [frameB2] on [stateA1]. *)
Definition stateB2 : Engine :=
  {| prev :=
       {| t := 1500;
          leftLimb :=
            {| wristPos := Some (Pt.mk (-0.48) 0);
               DistToShoulder := Some 0.48; PunchDetected := None;
               MaxExtension := Some 0.382; SpeedHistory := Some [0; 0.36];
               RestExtension := Some 0.3; RangeNorm := Some 0.082;
               Filtered := Some (Pt.mk (-0.48) 0);
               NoiseSpeed := Some 0.0765; CooldownUntil := None |};
          rightLimb :=
            {| wristPos := Some (Pt.mk 1.3 0); DistToShoulder := Some 0.3;
               PunchDetected := None; MaxExtension := Some 0.34;
               SpeedHistory := Some [0; 0]; RestExtension := Some 0.3;
               RangeNorm := Some 0.04; Filtered := Some (Pt.mk 1.3 0);
               NoiseSpeed := Some 0.0405; CooldownUntil := None |};
          calibrated := None;
          prevLeftShoulder := Some (Pt.mk 0 0);
          prevRightShoulder := Some (Pt.mk 1 0) |};
     leftHistory := []; rightHistory := []; storage := None;
     leftStats := {| total := 0; lastSpeed := 0.36; lastPower := 0.1728;
                     lastPercent := 0 |};
     rightStats := zeroStats;
     leftDebug := Dbg.mk 1 0.36 0.6 true false 0.082 0.48 0.3492 0.3
                    [SpeedBelow 0.36 0.6] false;
     rightDebug := debugAtRest;
     calibrationStatus := Collecting |}.

(** The two proposals of [frameA2] on [stateA1]. *)
Definition punchA2Left : Punch := {| side := Left; speed := 4; power := 2.8 |}.
Definition punchA2Right : Punch :=
  {| side := Right; speed := 5.2; power := 4.264 |}.

(** ** Summaries of a frame *)

Definition shoulderOf (c : Ctx) (s : WristSide) : Kp.t :=
  match s with Left => ls c | Right => rs c end.

(** What one frame can do to the record of a limb, with the proposal it
    pushes: nothing; the update of [trackLimb]; or that update followed by
    the raise of the maximum extension after the limb's accepted strike. *)
Inductive LimbStep (s : WristSide) (tnow : R) (lp : LimbPrev)
    : LimbPrev -> option Punch -> Prop :=
| LimbSkipped : LimbStep s tnow lp lp None
| LimbTracked (n d : R) (stable : bool) (sh hand : Kp.t) :
    1 <= n ->
    LimbStep s tnow lp
      (limbAfter (trackLimb s tnow n d stable sh hand lp))
      (proposal (trackLimb s tnow n d stable sh hand lp))
| LimbRaised (n d : R) (stable : bool) (sh hand : Kp.t) (reach : R) :
    1 <= n ->
    proposal (trackLimb s tnow n d stable sh hand lp) <> None ->
    LimbStep s tnow lp
      (setMaxExtension
         (Rmax (orZero (MaxExtension
                  (limbAfter (trackLimb s tnow n d stable sh hand lp)))) reach)
         (limbAfter (trackLimb s tnow n d stable sh hand lp)))
      (proposal (trackLimb s tnow n d stable sh hand lp)).

Definition sameLimbs (e e' : Engine) : Prop :=
  forall s, limbOf s (prev e') = limbOf s (prev e).

Definition sameScores (e e' : Engine) : Prop :=
  (forall s, historyOf s e' = historyOf s e)
  /\ (forall s, total (statsOf s e') = total (statsOf s e)).

Definition sameLedger (e e' : Engine) : Prop :=
  calibrated (prev e') = calibrated (prev e)
  /\ calibrationStatus e' = calibrationStatus e
  /\ (forall s, historyOf s e' = historyOf s e)
  /\ (forall s, total (statsOf s e') = total (statsOf s e)).

(** ** The averages shown beside the counters *)

Definition AVG_WINDOW : nat := 10.

(** [leftAvg] / [rightAvg]: the mean of the last [AVG_WINDOW] powers. *)
Definition averageOf (hist : list R) : R :=
  let h := sliceLast AVG_WINDOW hist in
  match h with
  | [] => 0
  | _ => fold_left Rplus h 0 / INR (List.length h)
  end.

(** [leftAvgPct] / [rightAvgPct], with [leftBaseline] the percentile of the
    history. *)
Definition averagePercent (hist : list R) : Z :=
  let base := percentile hist PERCENTILE in
  if Reqb base 0 then 0%Z
  else Z.max 0 (Z.min 150
         (Math_round (averageOf hist / Rmax (1 / 1000) base * 100))).

(** ** Further properties stated below *)

(** The learnt range of a limb, once set, is positive, and its speed
    history holds five values at most. *)
Definition limbBounded (lp : LimbPrev) : Prop :=
  match RangeNorm lp with Some v => 0 < v | None => True end
  /\ match SpeedHistory lp with
     | Some h => (List.length h <= 5)%nat
     | None => True
     end.

(** The stored record and the percent of each side are the same in both
    states. *)
Definition sameRecord (e e' : Engine) : Prop :=
  storage e' = storage e
  /\ forall s, lastPercent (statsOf s e') = lastPercent (statsOf s e).

Definition historiesBounded (e : Engine) : Prop :=
  forall s, (List.length (historyOf s e) <= HISTORY_SIZE)%nat.

(** The history of a side holds one value per strike counted, up to 50. *)
Definition historyCounts (e : Engine) : Prop :=
  forall s, Z.of_nat (List.length (historyOf s e)) =
            Z.min (Z.of_nat HISTORY_SIZE) (total (statsOf s e)).

(** A shoulder passes the checks at the head of [computePunches]: it is in
    the pose, with a score of [minShoulderScore] at least. *)
Definition shoulderSeen (f : Frame) (n : string) : bool :=
  match getKeypoint (Some (nullish (keypoints (pose f)) [])) n with
  | Some k => Rgeb (nullish (Kp.score k) 0) minShoulderScore
  | None => false
  end.

(** The raw wrist and elbow keypoints of a side in a frame's pose. *)
Definition wristOf (f : Frame) (s : WristSide) : option Kp.t :=
  getKeypoint (Some (nullish (keypoints (pose f)) []))
    (match s with Left => "left_wrist" | Right => "right_wrist" end).

Definition elbowOf (f : Frame) (s : WristSide) : option Kp.t :=
  getKeypoint (Some (nullish (keypoints (pose f)) []))
    (match s with Left => "left_elbow" | Right => "right_elbow" end).

(** * The workout timer

    [WorkoutTimer.tsx]: the segments built from the workout data, the
    clock text, and the timer's handlers.  Durations are numbers, so reals;
    [sets_per_round] counts loop iterations and is taken as an integer. *)

Module WorkoutTimer.

Record Round : Type := {
  round : Z;
  work : string;
  moderate : string;
  notes : option string }.

Record Structure : Type := {
  sets_per_round : Z;
  work_interval_sec : R;
  moderate_interval_sec : R;
  rounds : list Round }.

Record Workout : Type := {
  title : string;
  duration_minutes : R;
  equipment : list string;
  workout_structure : Structure;
  rest_between_rounds_sec : R;
  style_notes : list string;
  trainer : string;
  channel : string }.

Inductive Phase : Type := Prepare | Work | Moderate | Rest | Done.

(** The three shapes of a segment's label: an instruction of a round taken
    as it is ([r.work], [r.moderate]), and the two template literals with
    their holes,
    [`Get Ready — Next: Round 1 · Set 1 · GO: ${first.work}`] and
    [`Rest ${rest}s — Next: Round ${rIdx + 2}`]. *)
Inductive Label : Type :=
| Instruction (text : string)
| GetReady (firstWork : string)
| RestThen (restSec : R) (nextRound : Z).

Record Segment : Type := {
  roundIndex : Z;
  setIndex : Z;
  phase : Phase;
  duration : R;
  label : Label }.

(** The body of [for (let s = 0; s < sets; s++)]. *)
Definition setSegments (data : Workout) (r : Round) (rIdx s : Z)
    : list Segment :=
  [ {| roundIndex := rIdx; setIndex := s; phase := Work;
       duration := work_interval_sec (workout_structure data);
       label := Instruction (work r) |};
    {| roundIndex := rIdx; setIndex := s; phase := Moderate;
       duration := moderate_interval_sec (workout_structure data);
       label := Instruction (moderate r) |} ].

(** The callback of [rounds.forEach((r, rIdx) => ...)]. *)
Definition roundSegments (data : Workout) (r : Round) (rIdx : Z)
    : list Segment :=
  let sets := sets_per_round (workout_structure data) in
  let rest := rest_between_rounds_sec data in
  flat_map (setSegments data r rIdx)
    (map Z.of_nat (seq 0 (Z.to_nat sets)))
  ++ (if (rIdx <? Z.of_nat (List.length (rounds (workout_structure data))) - 1)%Z
      then [ {| roundIndex := rIdx; setIndex := (sets - 1)%Z; phase := Rest;
                duration := rest; label := RestThen rest (rIdx + 2)%Z |} ]
      else []).

Fixpoint forEachRound (data : Workout) (rs : list Round) (rIdx : Z)
    : list Segment :=
  match rs with
  | [] => []
  | r :: tl => roundSegments data r rIdx ++ forEachRound data tl (rIdx + 1)%Z
  end.

(** [buildSegments]; reading [first.work] of an empty [rounds] throws. *)
Definition buildSegments (data : Workout) : list Segment + JsError :=
  match rounds (workout_structure data) with
  | [] => inr (TypeError "Cannot read properties of undefined (reading 'work')")
  | first :: _ =>
    inl ({| roundIndex := 0; setIndex := 0; phase := Prepare; duration := 20;
            label := GetReady (work first) |}
         :: forEachRound data (rounds (workout_structure data)) 0)
  end.

Definition WORKOUT_DATA : Workout :=
  {| title := "Most EFFECTIVE 30 Minute Boxing Heavy Bag HIIT Workout";
     duration_minutes := 30;
     equipment :=
       ["Hand wraps"; "Boxing gloves"; "Heavy bag (or shadowboxing)"]%string;
     workout_structure :=
       {| sets_per_round := 3;
          work_interval_sec := 60;
          moderate_interval_sec := 30;
          rounds :=
            [ {| round := 1;
                 work := "1-1-2 (Jab-Jab-Cross, repeat for 60s max effort)";
                 moderate := "Cover 1, Cover 2 (defensive movement, 30s)";
                 notes := Some "Focus on eyes on target and intensity; three sets"%string |};
              {| round := 2;
                 work := "2-5-2 (Cross-Uppercut-Cross, repeat for 60s)";
                 moderate := "Duck right, duck left (30s)";
                 notes := Some "Aggressive, maintain wrist safety; three sets"%string |};
              {| round := 3;
                 work := "3B-2-2B-3 (Lead hook to body-cross-cross to body-lead hook to head)";
                 moderate := "Double jab while moving (30s)";
                 notes := Some "Vary levels and remain aggressive; three sets"%string |};
              {| round := 4;
                 work := "Freestyle inside (High-intensity work on the inside for 60s)";
                 moderate := "Work the outside (longer punches/movement, 30s)";
                 notes := Some "Dig to body/head, stay creative; three sets"%string |};
              {| round := 5;
                 work := "4-6-3 (Rear hook-rear uppercut-lead hook, 60s)";
                 moderate := "1-2-1-2 (Jab-cross-jab-cross, 30s)";
                 notes := Some "Fast, low, keep hands moving; three sets"%string |};
              {| round := 6;
                 work := "Split lunge bag push (with bag at arm’s length, 60s each leg, no gloves)";
                 moderate := "Hold lunge (no bag movement, 30s each leg)";
                 notes := Some "Gloves off, back knee 1cm from floor, strong exhale"%string |} ] |};
     rest_between_rounds_sec := 15;
     style_notes :=
       [ "1 minute intense, 30s moderate, repeat sequence 3 times per round";
         "Short rest, high intensity, focus on form and breathing";
         "If no bag, shadowbox with same combinations" ]%string;
     trainer := "Nate Bower";
     channel := "NateBowerFitness" |}.

(** ** [formatTime] *)

(** [a % b] on numbers: the remainder has the sign of [a]. *)
Definition jsRem (a b : R) : R :=
  let q := a / b in
  let trunc := if Rleb 0 q then Math_floor q else (- Math_floor (- q))%Z in
  a - b * IZR trunc.

(** [n.toString()] of an integer. *)
Definition toString (z : Z) : string := NilZero.string_of_int (Z.to_int z).

(** [s.padStart(2, "0")] *)
Definition padStart2 (s : string) : string :=
  String.append (String.concat "" (repeat "0"%string (2 - String.length s))) s.

Definition formatTime (s : R) : string :=
  let mm := padStart2 (toString (Math_floor (s / 60))) in
  let ss := padStart2 (toString (Math_floor (jsRem s 60))) in
  String.append mm (String.append ":" ss).

(** ** The timer

    A handler sees the state of the render it was created in, and React
    renders again before the next event; so each handler is a function of
    the state, followed by the effect that copies [idx] into [idxRef]. *)

(** The state of the component: the three state variables and the two refs
    that [tick] reads. *)
Record State : Type := {
  idx : Z;
  remaining : R;
  running : bool;
  lastTickRef : R;
  idxRef : Z }.

Definition initial : State :=
  {| idx := -1; remaining := 0; running := false; lastTickRef := 0;
     idxRef := -1 |}.

(** [segments[i]] *)
Definition segmentAt (segments : list Segment) (i : Z) : option Segment :=
  if (i <? 0)%Z then None else nth_error segments (Z.to_nat i).

Definition len (segments : list Segment) : Z := Z.of_nat (List.length segments).

Definition start (segments : list Segment) (st : State) : State :=
  match segments with
  | [] => st
  | first :: _ =>
    let st1 :=
      if (idx st =? -1)%Z
      then {| idx := 0; remaining := duration first; running := running st;
              lastTickRef := lastTickRef st; idxRef := idxRef st |}
      else st in
    {| idx := idx st1; remaining := remaining st1; running := true;
       lastTickRef := lastTickRef st1; idxRef := idxRef st1 |}
  end.

Definition pause (st : State) : State :=
  {| idx := idx st; remaining := remaining st; running := false;
     lastTickRef := lastTickRef st; idxRef := idxRef st |}.

Definition reset (st : State) : State :=
  {| idx := -1; remaining := 0; running := false;
     lastTickRef := lastTickRef st; idxRef := idxRef st |}.

Definition noDuration : JsError :=
  TypeError "Cannot read properties of undefined (reading 'duration')".

Definition skip (segments : list Segment) (st : State) : State + JsError :=
  if (idx st <? len segments - 1)%Z then
    let next := (idx st + 1)%Z in
    match segmentAt segments next with
    | Some sg =>
      inl {| idx := next; remaining := duration sg; running := running st;
             lastTickRef := lastTickRef st; idxRef := idxRef st |}
    | None => inr noDuration
    end
  else
    inl {| idx := len segments; remaining := remaining st; running := false;
           lastTickRef := lastTickRef st; idxRef := idxRef st |}.

(** One call of [tick(now)]: the refs are written, and the updater given to
    [setRemaining] is applied to the current [remaining]. *)
Definition tick (segments : list Segment) (now : R) (st : State)
    : State + JsError :=
  if negb (running st) then inl st
  else
    let last := if Reqb (lastTickRef st) 0 then now else lastTickRef st in
    let dt := Rmin 1 ((now - last) / 1000) in
    let nr := remaining st - dt in
    if Rgtb nr 0 then
      inl {| idx := idx st; remaining := nr; running := running st;
             lastTickRef := now; idxRef := idxRef st |}
    else
      let next := (idxRef st + 1)%Z in
      if (next <? len segments)%Z then
        match segmentAt segments next with
        | Some sg =>
          inl {| idx := next; remaining := duration sg; running := running st;
                 lastTickRef := now; idxRef := idxRef st |}
        | None => inr noDuration
        end
      else
        inl {| idx := next; remaining := 0; running := false;
               lastTickRef := now; idxRef := idxRef st |}.

(** The effect [idxRef.current = idx], run after a render in which [idx]
    changed. *)
Definition syncIdxRef (st : State) : State :=
  {| idx := idx st; remaining := remaining st; running := running st;
     lastTickRef := lastTickRef st; idxRef := idx st |}.

Inductive Event : Type :=
| PressStart | PressPause | PressReset | PressSkip
| AnimationFrame (now : R).

(** What the rendered buttons allow: Start is shown while not running and
    disabled once [idx >= segments.length]; Pause is shown while running;
    Skip is disabled when there is no current segment; the animation frame
    callback is registered while running, and its timestamps do not go
    back. *)
Definition enabled (segments : list Segment) (st : State) (ev : Event) : Prop :=
  match ev with
  | PressStart => running st = false /\ (idx st < len segments)%Z
  | PressPause => running st = true
  | PressReset => True
  | PressSkip => segmentAt segments (idx st) <> None
  | AnimationFrame now => running st = true /\ lastTickRef st <= now
  end.

(** An event, followed by the render and its effects. *)
Definition handle (segments : list Segment) (ev : Event) (st : State)
    : State + JsError :=
  match
    match ev with
    | PressStart => inl (start segments st)
    | PressPause => inl (pause st)
    | PressReset => inl (reset st)
    | PressSkip => skip segments st
    | AnimationFrame now => tick segments now st
    end
  with
  | inl st' => inl (syncIdxRef st')
  | inr err => inr err
  end.

Inductive Reachable (segments : list Segment) : State -> Prop :=
| ReachInitial : Reachable segments initial
| ReachStep (st st' : State) (ev : Event) :
    Reachable segments st ->
    enabled segments st ev ->
    handle segments ev st = inl st' ->
    Reachable segments st'.

(** What holds of every reachable state. *)
Definition wellFormed (segments : list Segment) (st : State) : Prop :=
  (-1 <= idx st <= len segments)%Z
  /\ idxRef st = idx st
  /\ (running st = true -> (0 <= idx st < len segments)%Z)
  /\ (idx st = (-1)%Z -> remaining st = 0)
  /\ forall sg, segmentAt segments (idx st) = Some sg ->
                0 <= remaining st <= duration sg.

End WorkoutTimer.

(** The seconds of a list of segments together. *)
Definition totalSeconds (segments : list WorkoutTimer.Segment) : R :=
  fold_right (fun sg acc => WorkoutTimer.duration sg + acc) 0 segments.

(** A prepare and a work segment, and two states of a timer over them: just
    started, and five seconds in with the last frame at 6000 ms. *)
Definition demoSegments : list WorkoutTimer.Segment :=
  [ {| WorkoutTimer.roundIndex := 0; WorkoutTimer.setIndex := 0;
       WorkoutTimer.phase := WorkoutTimer.Prepare;
       WorkoutTimer.duration := 20;
       WorkoutTimer.label := WorkoutTimer.GetReady "jab" |};
    {| WorkoutTimer.roundIndex := 0; WorkoutTimer.setIndex := 0;
       WorkoutTimer.phase := WorkoutTimer.Work;
       WorkoutTimer.duration := 60;
       WorkoutTimer.label := WorkoutTimer.Instruction "jab" |} ].

Definition demoStarted : WorkoutTimer.State :=
  {| WorkoutTimer.idx := 0; WorkoutTimer.remaining := 20;
     WorkoutTimer.running := true; WorkoutTimer.lastTickRef := 0;
     WorkoutTimer.idxRef := 0 |}.

Definition demoTicking : WorkoutTimer.State :=
  {| WorkoutTimer.idx := 0; WorkoutTimer.remaining := 15;
     WorkoutTimer.running := true; WorkoutTimer.lastTickRef := 6000;
     WorkoutTimer.idxRef := 0 |}.

(** * Proofs *)

(** ** Comparisons, floor and rounding *)

Lemma Rltb_true (a b : R) : a < b -> Rltb a b = true.
Proof. unfold Rltb; destruct (Rlt_dec a b); intros; [reflexivity | lra]. Qed.

Lemma Rltb_false (a b : R) : b <= a -> Rltb a b = false.
Proof. unfold Rltb; destruct (Rlt_dec a b); intros; [lra | reflexivity]. Qed.

Lemma Rleb_true (a b : R) : a <= b -> Rleb a b = true.
Proof. unfold Rleb; destruct (Rle_dec a b); intros; [reflexivity | lra]. Qed.

Lemma Rleb_false (a b : R) : b < a -> Rleb a b = false.
Proof. unfold Rleb; destruct (Rle_dec a b); intros; [lra | reflexivity]. Qed.

Lemma Reqb_true (a b : R) : a = b -> Reqb a b = true.
Proof. unfold Reqb; destruct (Req_dec_T a b); intros; [reflexivity | lra]. Qed.

Lemma Reqb_false (a b : R) : a <> b -> Reqb a b = false.
Proof. unfold Reqb; destruct (Req_dec_T a b); intros; [lra | reflexivity]. Qed.

Lemma Rltb_lt (a b : R) : Rltb a b = true -> a < b.
Proof. unfold Rltb; destruct (Rlt_dec a b); [trivial | discriminate]. Qed.

Lemma Rltb_ge (a b : R) : Rltb a b = false -> b <= a.
Proof. unfold Rltb; destruct (Rlt_dec a b); [discriminate | lra]. Qed.

Lemma Rleb_le (a b : R) : Rleb a b = true -> a <= b.
Proof. unfold Rleb; destruct (Rle_dec a b); [trivial | discriminate]. Qed.

Lemma Rleb_gt (a b : R) : Rleb a b = false -> b < a.
Proof. unfold Rleb; destruct (Rle_dec a b); [discriminate | lra]. Qed.

Lemma Math_hypot_axis (a b : R) : b = 0 -> Math_hypot a b = Rabs a.
Proof.
  intros ->. unfold Math_hypot.
  replace (a * a + 0 * 0) with (Rsqr a) by (unfold Rsqr; lra).
  apply sqrt_Rsqr_abs.
Qed.

Lemma Math_hypot_nonneg (a b : R) : 0 <= Math_hypot a b.
Proof. apply sqrt_pos. Qed.

Lemma Math_floor_spec (v : R) :
  IZR (Math_floor v) <= v < IZR (Math_floor v) + 1.
Proof. unfold Math_floor. destruct (base_Int_part v). lra. Qed.

Lemma Math_floor_unique (v : R) (z : Z) :
  IZR z <= v < IZR z + 1 -> Math_floor v = z.
Proof.
  intros H. unfold Math_floor. symmetry. apply Int_part_spec. lra.
Qed.

(** [Math.round] returns the nearest integer, halves going up. *)
Lemma Math_round_spec (v : R) :
  IZR (Math_round v) - / 2 <= v < IZR (Math_round v) + / 2.
Proof. unfold Math_round. pose proof (Math_floor_spec (v + / 2)). lra. Qed.

Lemma Math_round_unique (v : R) (z : Z) :
  IZR z - / 2 <= v < IZR z + / 2 -> Math_round v = z.
Proof. intros H. unfold Math_round. apply Math_floor_unique. lra. Qed.

(** [Math.floor(0.9 * k)] is the integer quotient of [9 * k] by [10]. *)
Lemma Math_floor_percentile (k : Z) :
  Math_floor (PERCENTILE * IZR k) = (9 * k / 10)%Z.
Proof.
  apply Math_floor_unique. unfold PERCENTILE.
  pose proof (Z.div_mod (9 * k) 10 ltac:(lia)) as Hd.
  pose proof (Z.mod_pos_bound (9 * k) 10 ltac:(lia)) as Hm.
  set (q := (9 * k / 10)%Z) in *. set (m := ((9 * k) mod 10)%Z) in *.
  assert (Hk : 9 * IZR k = 10 * IZR q + IZR m).
  { rewrite <- !mult_IZR, <- plus_IZR. f_equal. exact Hd. }
  assert (0 <= IZR m <= 9).
  { split; [apply IZR_le; lia | apply IZR_le; lia]. }
  lra.
Qed.

(** ** The sort *)

Lemma insert_perm (v : R) (l : list R) : Permutation (v :: l) (insert v l).
Proof.
  induction l as [|h tl IH]; cbn [insert]; [reflexivity|].
  destruct (Rleb v h); [reflexivity|].
  rewrite perm_swap. apply perm_skip, IH.
Qed.

Lemma insert_head (v : R) (l : list R) (b : R) :
  HdRel Rle b l -> b <= v -> HdRel Rle b (insert v l).
Proof.
  intros Hl Hv. destruct l as [|h tl]; cbn [insert].
  - constructor. exact Hv.
  - destruct (Rleb v h); constructor; [exact Hv|].
    inversion Hl; assumption.
Qed.

Lemma insert_sorted (v : R) (l : list R) :
  Sorted Rle l -> Sorted Rle (insert v l).
Proof.
  induction 1 as [|h tl Hs IH Hh]; cbn [insert].
  - repeat constructor.
  - destruct (Rleb v h) eqn:E.
    + apply Rleb_le in E. constructor.
      * constructor; assumption.
      * constructor. exact E.
    + apply Rleb_gt in E. constructor; [exact IH|].
      apply insert_head; [exact Hh | lra].
Qed.

Lemma sort_perm (l : list R) : Permutation l (sort l).
Proof.
  induction l as [|h tl IH]; cbn [sort fold_right]; [reflexivity|].
  rewrite <- insert_perm. apply perm_skip, IH.
Qed.

Lemma sort_sorted (l : list R) : Sorted Rle (sort l).
Proof.
  induction l as [|h tl IH]; cbn [sort fold_right]; [constructor|].
  apply insert_sorted, IH.
Qed.

Lemma sort_length (l : list R) : List.length (sort l) = List.length l.
Proof. symmetry. apply Permutation_length, sort_perm. Qed.

(** ** Scoring *)

Lemma percentile_index (n : Z) :
  (1 <= n)%Z ->
  (0 <= Math_floor (PERCENTILE * IZR (n - 1)) <= n - 1)%Z.
Proof.
  intros Hn. rewrite Math_floor_percentile. split.
  - apply Z.div_pos; lia.
  - apply Z.div_le_upper_bound; lia.
Qed.

(** C4, as amended: the rank is the floor of [0.9 * (n - 1)], which is a
    valid index of the sorted copy, so that the clamp never acts; an empty
    history has percentile 0, and the baseline is then the new power. *)
Theorem percentile_floor_rank (v : R) (arr : list R) (pw : R) :
  let hist := v :: arr in
  let n := Z.of_nat (List.length hist) in
  let i := Math_floor (PERCENTILE * IZR (n - 1)) in
  (0 <= i <= n - 1)%Z
  /\ percentile hist PERCENTILE = nth (Z.to_nat i) (sort hist) 0
  /\ Sorted Rle (sort hist)
  /\ Permutation hist (sort hist)
  /\ percentile [] PERCENTILE = 0
  /\ baseline pw [] = pw.
Proof.
  intros hist n i.
  assert (Hn : (1 <= n)%Z) by (unfold n, hist; cbn [List.length]; lia).
  pose proof (percentile_index n Hn) as Hi. fold i in Hi.
  split; [exact Hi|]. split.
  - unfold percentile, hist. rewrite sort_length. fold hist. fold n. fold i.
    f_equal. f_equal. lia.
  - split; [apply sort_sorted|]. split; [apply sort_perm|].
    split; [reflexivity|].
    unfold baseline, orElse. cbn [percentile maxOf fold_right].
    rewrite Reqb_true by reflexivity. reflexivity.
Qed.

(** C4, counterexample: on the history [1; 2] the code takes index
    [floor 0.9 = 0], the smaller value, where nearest rank takes index
    [round 0.9 = 1]. *)
Lemma percentile_not_nearest_rank :
  percentile [1; 2] PERCENTILE = 1
  /\ percentileNearestRank [1; 2] PERCENTILE = 2
  /\ percentile [1; 2] PERCENTILE <> percentileNearestRank [1; 2] PERCENTILE.
Proof.
  assert (Hs : sort [1; 2] = [1; 2]).
  { cbn [sort fold_right insert]. rewrite Rleb_true by lra. reflexivity. }
  assert (H1 : percentile [1; 2] PERCENTILE = 1).
  { unfold percentile. rewrite Hs.
    cbn [List.length Z.of_nat Pos.of_succ_nat Pos.succ].
    rewrite (Math_floor_unique _ 0) by (unfold PERCENTILE; simpl; lra).
    reflexivity. }
  assert (H2 : percentileNearestRank [1; 2] PERCENTILE = 2).
  { unfold percentileNearestRank. rewrite Hs.
    cbn [List.length Z.of_nat Pos.of_succ_nat Pos.succ].
    rewrite (Math_round_unique _ 1) by (unfold PERCENTILE; simpl; lra).
    reflexivity. }
  split; [exact H1|]. split; [exact H2|]. rewrite H1, H2. lra.
Qed.

Lemma baseline_floor_pos (pw : R) (hist : list R) :
  0 < Rmax (baseline pw hist) (1 / 1000).
Proof.
  pose proof (Rmax_r (baseline pw hist) (1 / 1000)). lra.
Qed.

(** C8: the percent score is [round(power / max(baseline, 0.001) * 100)]
    clamped to [0, 150], for every power and every history; the divisor is
    positive. *)
Theorem computePercent_range (pw : R) (hist : list R) :
  (0 <= computePercent pw hist <= 150)%Z
  /\ 0 < Rmax (baseline pw hist) (1 / 1000)
  /\ computePercent pw hist =
     Z.max 0 (Z.min 150
       (Math_round (pw / Rmax (baseline pw hist) (1 / 1000) * 100))).
Proof.
  split; [unfold computePercent; cbv zeta; lia|].
  split; [apply baseline_floor_pos|].
  unfold computePercent. cbv zeta. rewrite (Rmax_comm (1 / 1000)). reflexivity.
Qed.

(** ** Persistence *)

Lemma sliceLast_short {A : Type} (n : nat) (l : list A) :
  (List.length l <= n)%nat -> sliceLast n l = l.
Proof.
  intros H. unfold sliceLast.
  replace (List.length l - n)%nat with 0%nat by lia. reflexivity.
Qed.

Lemma sliceLast_length {A : Type} (n : nat) (l : list A) :
  (List.length (sliceLast n l) <= n)%nat.
Proof. unfold sliceLast. rewrite length_skipn. lia. Qed.

Lemma sliceLast_suffix {A : Type} (n : nat) (l : list A) :
  exists dropped, l = dropped ++ sliceLast n l.
Proof.
  exists (firstn (List.length l - n) l). unfold sliceLast.
  symmetry. apply firstn_skipn.
Qed.

Lemma sliceLast_length_eq {A : Type} (n : nat) (l : list A) :
  List.length (sliceLast n l) = Nat.min n (List.length l).
Proof. unfold sliceLast. rewrite length_skipn. lia. Qed.

(** C9: a record saved at [T] and loaded [age] later seeds each history
    with the last 50 saved values, in order, when [age] is below 30
    minutes; from 30 minutes on the record is ignored and the histories stay
    as they were (empty on mount).  The last 50 values of a history [h] are
    the end of [h], [min 50 (length h)] values long: a side of at most 50
    values comes back unchanged, a longer one loses its oldest values. *)
Theorem history_round_trip (T age : R) (l r : list R) (refs : list R * list R) :
  (age < 30 * 60 * 1000 ->
     hydrate (T + age) (Some (saveHistory T l r)) refs =
     (sliceLast HISTORY_SIZE l, sliceLast HISTORY_SIZE r))
  /\ (30 * 60 * 1000 <= age ->
        hydrate (T + age) (Some (saveHistory T l r)) refs = refs)
  /\ ((List.length l <= HISTORY_SIZE)%nat -> sliceLast HISTORY_SIZE l = l)
  /\ (forall h : list R,
        List.length (sliceLast HISTORY_SIZE h) = Nat.min 50 (List.length h)
        /\ exists older, h = older ++ sliceLast HISTORY_SIZE h).
Proof.
  unfold hydrate, saveHistory. cbn [Stored.t Stored.left Stored.right nullish].
  split; [|split; [|split]].
  - intros H. rewrite Rltb_true by lra. reflexivity.
  - intros H. rewrite Rltb_false by lra. reflexivity.
  - apply sliceLast_short.
  - intros h. split; [apply sliceLast_length_eq | apply sliceLast_suffix].
Qed.

(** The history [0.4, 0.6, 0.9], saved at [T = 1700000000000]: restored
    after 10 minutes, gone after 31.  Of 51 saved values the oldest is
    dropped. *)
Lemma history_round_trip_witness :
  hydrate (1700000000000 + 600000)
    (Some (saveHistory 1700000000000 [0.4; 0.6; 0.9] [])) ([], [])
  = ([0.4; 0.6; 0.9], [])
  /\ hydrate (1700000000000 + 1860000)
       (Some (saveHistory 1700000000000 [0.4; 0.6; 0.9] [])) ([], [])
     = ([], [])
  /\ hydrate (1700000000000 + 600000)
       (Some (saveHistory 1700000000000 (0.4 :: repeat 0.6 49 ++ [0.9]) []))
       ([], [])
     = (repeat 0.6 49 ++ [0.9], []).
Proof.
  split; [|split].
  - rewrite (proj1 (history_round_trip 1700000000000 600000
                      [0.4; 0.6; 0.9] [] ([], []))) by lra.
    reflexivity.
  - apply (proj1 (proj2 (history_round_trip 1700000000000 1860000
                           [0.4; 0.6; 0.9] [] ([], [])))).
    lra.
  - rewrite (proj1 (history_round_trip 1700000000000 600000
                      (0.4 :: repeat 0.6 49 ++ [0.9]) [] ([], []))) by lra.
    reflexivity.
Defined.

(** ** The step, stage by stage *)

Section Track.
Variables (s : WristSide) (tnow vnorm vdt : R) (stable : bool).
Variables (shoulder hand : Kp.t) (lp : LimbPrev).

Let r := trackLimb s tnow vnorm vdt stable shoulder hand lp.

Lemma trackLimb_unstable :
  stable = false ->
  proposal r = None
  /\ lastAfter r = None
  /\ PunchDetected (limbAfter r) = PunchDetected lp
  /\ MaxExtension (limbAfter r) = MaxExtension lp
  /\ RestExtension (limbAfter r) = RestExtension lp
  /\ RangeNorm (limbAfter r) = RangeNorm lp
  /\ CooldownUntil (limbAfter r) = CooldownUntil lp.
Proof. intros ->. unfold r, trackLimb. cbn. repeat split. Qed.

Lemma trackLimb_stable_extension :
  stable = true ->
  exists rest maxExt,
    RestExtension (limbAfter r) = Some rest
    /\ MaxExtension (limbAfter r) = Some maxExt
    /\ rest + vnorm * 0.04 <= maxExt.
Proof.
  intros ->. unfold r, trackLimb. cbn [negb].
  cbv zeta. cbn [limbAfter RestExtension MaxExtension].
  eexists. eexists. split; [reflexivity|]. split; [reflexivity|].
  unfold extensionOf. cbv zeta. cbn [Ext.rest Ext.maxExt]. apply Rmax_r.
Qed.

Lemma trackLimb_proposal :
  match proposal r with
  | Some p =>
    side p = s /\ stable = true
    /\ flag (PunchDetected lp) = false
    /\ Rgtb (nullish (CooldownUntil lp) 0) tnow = false
    /\ CooldownUntil (limbAfter r) = Some (tnow + 250)
    /\ PunchDetected (limbAfter r) = Some true
  | None => CooldownUntil (limbAfter r) = CooldownUntil lp
  end.
Proof.
  unfold r, trackLimb. destruct stable; cbn [negb]; [|reflexivity].
  cbv zeta. cbn [proposal limbAfter CooldownUntil PunchDetected].
  set (m := motionOf vnorm vdt shoulder hand lp).
  set (x := extensionOf vnorm m lp).
  destruct (Det.fires (detectorOf tnow vnorm m x lp)) eqn:F; [|reflexivity].
  cbn [side]. unfold flagAfter. rewrite F.
  unfold detectorOf in *. cbv zeta in *. cbn [Det.fires Det.punchActive] in *.
  repeat (apply andb_prop in F; destruct F as [F ?]).
  apply negb_true_iff in F. rewrite F. cbn [andb].
  repeat split; try reflexivity. now apply negb_true_iff.
Qed.
End Track.

(** The entry condition of the detector, spelled out. *)
Lemma detector_fires (tnow n : R) (m : Motion.t) (x : Ext.t) (lp : LimbPrev) :
  let d := detectorOf tnow n m x lp in
  Det.fires d = true <->
  flag (PunchDetected lp) = false
  /\ nullish (CooldownUntil lp) 0 <= tnow
  /\ n * 0.06 <= Ext.extensionRange x
  /\ Motion.movingForward m = true
  /\ Det.speedThreshold d <= Motion.speedFwd m
  /\ Det.triggerDist d <= Motion.distToShoulder m.
Proof.
  unfold detectorOf. cbv zeta. cbn [Det.fires Det.speedThreshold Det.triggerDist].
  rewrite !andb_true_iff, !negb_true_iff. unfold Rgeb, Rgtb. split.
  - intros (((((A & B) & C) & D) & E) & F).
    repeat split; auto using Rltb_ge, Rleb_le.
  - intros (A & B & C & D & E & F).
    repeat split; auto using Rltb_false, Rleb_true.
Qed.

(** A limb proposes exactly when the frame is stable and its detector
    fires. *)
Lemma trackLimb_proposes (s : WristSide) (tnow n d : R) (stable : bool)
    (sh hand : Kp.t) (lp : LimbPrev) :
  let m := motionOf n d sh hand lp in
  proposal (trackLimb s tnow n d stable sh hand lp) <> None <->
  stable = true
  /\ Det.fires (detectorOf tnow n m (extensionOf n m lp) lp) = true.
Proof.
  unfold trackLimb. cbv zeta. destruct stable; cbn [negb proposal].
  - destruct (Det.fires _); split; try tauto; try discriminate.
    intros (_ & H). discriminate.
  - split; [tauto | intros (H & _); discriminate].
Qed.

(** With no usable wrist and no elbow, the previous hand position is the
    hand, with score 0. *)
Lemma resolveHand_previous (wrist : option Kp.t) (prevHand : Pt.t) :
  match wrist with
  | Some w => nullish (Kp.score w) 0 < minWristScore
  | None => True
  end ->
  resolveHand wrist None (Some prevHand) =
  Some (Kp.mk (Pt.x prevHand) (Pt.y prevHand) (Some 0) None None).
Proof.
  unfold resolveHand, Rgeb. cbv zeta. destruct wrist as [w|]; intros H.
  - rewrite Rleb_false by exact H. reflexivity.
  - reflexivity.
Qed.

Ltac proj_simpl :=
  cbn [prev leftHistory rightHistory storage leftStats rightStats leftDebug
       rightDebug calibrationStatus t leftLimb rightLimb calibrated
       prevLeftShoulder prevRightShoulder
       limbOf setLimb setT setShoulders setCalibrated setMaxExtension withPrev
       statsOf debugOf historyOf setStats setDebug bothDebug pushHistory
       otherSide shoulderOf engineOf eng potentialPunches optList
       total lastSpeed lastPower lastPercent side speed power
       wristPos DistToShoulder PunchDetected MaxExtension SpeedHistory
       RestExtension RangeNorm Filtered NoiseSpeed CooldownUntil
       ls rs lw rw le re norm dt torsoStable] in *.

Ltac by_sides := repeat split; try (intros [|]); proj_simpl; try reflexivity.

Lemma sameLimbs_refl e : sameLimbs e e.
Proof. intros s; reflexivity. Qed.

Lemma sameLedger_refl e : sameLedger e e.
Proof. by_sides. Qed.

Lemma sameLimbs_trans a b c : sameLimbs a b -> sameLimbs b c -> sameLimbs a c.
Proof. intros H1 H2 s. rewrite H2. apply H1. Qed.

Lemma sameLedger_trans a b c :
  sameLedger a b -> sameLedger b c -> sameLedger a c.
Proof.
  intros (A1 & A2 & A3 & A4) (B1 & B2 & B3 & B4). repeat split.
  - congruence.
  - congruence.
  - intros s. rewrite B3. apply A3.
  - intros s. rewrite B4. apply A4.
Qed.

Lemma enterFrame_spec (f : Frame) (e : Engine) :
  match enterFrame f e with
  | EarlyReturn e1 => sameLimbs e e1 /\ sameLedger e e1
  | Enter c e0 => 1 <= norm c /\ sameLimbs e e0 /\ sameLedger e e0
  end.
Proof.
  unfold enterFrame. cbv zeta.
  destruct (getKeypoint _ "left_shoulder") as [kls|];
    [destruct (getKeypoint _ "right_shoulder") as [krs|]|].
  - destruct (_ || _).
    + split; by_sides.
    + split; [proj_simpl; apply Rmax_r|]. split; by_sides.
  - split; by_sides.
  - split; by_sides.
Qed.

Lemma loopBody_spec (c : Ctx) (tnow : R) (s : WristSide) (st : LoopState) :
  match loopBody c tnow s st with
  | inl st' =>
    exists hand,
      limbOf s (prev (eng st')) =
        limbAfter (trackLimb s tnow (norm c) (dt c) (torsoStable c)
                     (shoulderOf c s) hand (limbOf s (prev (eng st))))
      /\ limbOf (otherSide s) (prev (eng st')) =
         limbOf (otherSide s) (prev (eng st))
      /\ potentialPunches st' =
         potentialPunches st
         ++ optList (proposal (trackLimb s tnow (norm c) (dt c) (torsoStable c)
                                 (shoulderOf c s) hand (limbOf s (prev (eng st)))))
      /\ sameLedger (eng st) (eng st')
  | inr err => err = ReferenceError "rangeNormKey"
  end.
Proof.
  unfold loopBody, shoulderOf. cbv zeta.
  destruct (resolveHand _ _ _) as [hand|]; [|reflexivity].
  exists hand.
  set (r := trackLimb s tnow (norm c) (dt c) (torsoStable c) _ hand _).
  clearbody r.
  destruct (lastAfter r) as [[a b]|], (proposal r) as [p|], s;
    proj_simpl; repeat split; try reflexivity;
    try (rewrite app_nil_r; reflexivity);
    try (intros [|]; reflexivity).
Qed.

Lemma forSides_spec (c : Ctx) (tnow : R) (st0 : LoopState) :
  match forSides c tnow sides st0 with
  | inl st2 =>
    exists st1, loopBody c tnow Left st0 = inl st1
                /\ loopBody c tnow Right st1 = inl st2
  | inr (err, st) =>
    err = ReferenceError "rangeNormKey"
    /\ ((st = st0 /\ loopBody c tnow Left st0 = inr err)
        \/ (loopBody c tnow Left st0 = inl st
            /\ loopBody c tnow Right st = inr err))
  end.
Proof.
  unfold sides. cbn [forSides].
  pose proof (loopBody_spec c tnow Left st0) as HL.
  destruct (loopBody c tnow Left st0) as [st1|err] eqn:EL.
  - pose proof (loopBody_spec c tnow Right st1) as HR.
    destruct (loopBody c tnow Right st1) as [st2|err] eqn:ER.
    + exists st1. split; [reflexivity | exact ER].
    + split; [exact HR|]. right. split; [reflexivity | exact ER].
  - split; [exact HL|]. left. split; reflexivity.
Qed.

Lemma arbitrate_length (pp : list Punch) : (List.length (arbitrate pp) <= 1)%nat.
Proof. destruct pp as [|p [|q tl]]; cbn [arbitrate List.length]; lia. Qed.

Lemma acceptPunch_spec (c : Ctx) (f : Frame) (p : Punch) (e : Engine) :
  match acceptPunch c f p e with
  | Returned e' =>
    (exists reach,
       limbOf (side p) (prev e') =
       setMaxExtension
         (Rmax (orZero (MaxExtension (limbOf (side p) (prev e)))) reach)
         (limbOf (side p) (prev e)))
    /\ limbOf (otherSide (side p)) (prev e') = limbOf (otherSide (side p)) (prev e)
    /\ total (statsOf (side p) e') = (total (statsOf (side p) e) + 1)%Z
    /\ total (statsOf (otherSide (side p)) e') = total (statsOf (otherSide (side p)) e)
    /\ historyOf (side p) e' = pushBounded HISTORY_SIZE (historyOf (side p) e) (power p)
    /\ historyOf (otherSide (side p)) e' = historyOf (otherSide (side p)) e
    /\ calibrated (prev e') = calibrated (prev e)
    /\ calibrationStatus e' = calibrationStatus e
  | Threw err e' => e' = e
  end.
Proof.
  unfold acceptPunch. cbv zeta.
  destruct (side p); [destruct (lw c)|destruct (rw c)]; try reflexivity;
    proj_simpl; (split; [eexists; reflexivity|]); repeat split.
Qed.

Lemma sameLedger_scores e e' : sameLedger e e' -> sameScores e e'.
Proof. intros (_ & _ & H3 & H4). split; assumption. Qed.

Lemma sameScores_refl e : sameScores e e.
Proof. split; reflexivity. Qed.

Lemma sameScores_trans a b c : sameScores a b -> sameScores b c -> sameScores a c.
Proof.
  intros (A3 & A4) (B3 & B4). split; intros s.
  - rewrite B3. apply A3.
  - rewrite B4. apply A4.
Qed.

Lemma setCalibrationStatusSafe_spec (next : CalibrationStatus) (e : Engine) :
  calibrationStatus (setCalibrationStatusSafe next e) = next
  /\ prev (setCalibrationStatusSafe next e) = prev e
  /\ sameScores e (setCalibrationStatusSafe next e).
Proof.
  unfold setCalibrationStatusSafe.
  destruct (CalibrationStatus_eqb (calibrationStatus e) next) eqn:E.
  - repeat split. destruct (calibrationStatus e), next; try discriminate; reflexivity.
  - repeat split; intros [|]; reflexivity.
Qed.

Lemma updateCalibration_spec (e : Engine) :
  let e' := updateCalibration e in
  sameLimbs e e' /\ sameScores e e'
  /\ (calibrationLatched e -> calibrationLatched e')
  /\ (calibrationLatched e ->
      calibrationStatus e = Complete -> calibrationStatus e' = Complete).
Proof.
  unfold updateCalibration. cbv zeta.
  destruct (flag (calibrated (prev e))) eqn:Hc.
  - split; [apply sameLimbs_refl|]. split; [apply sameScores_refl|]. tauto.
  - destruct (_ || _).
    + destruct (setCalibrationStatusSafe_spec Complete
                  (withPrev (setCalibrated (prev e)) e)) as (Hs & Hp & Hh).
      split; [intros s; rewrite Hp; destruct s; reflexivity|].
      split.
      { split; intros s; [rewrite (proj1 Hh) | rewrite (proj2 Hh)];
          destruct s; reflexivity. }
      split.
      * intros _. unfold calibrationLatched. rewrite Hs, Hp.
        split; reflexivity.
      * intros _ _. exact Hs.
    + match goal with
      | |- context [setCalibrationStatusSafe ?n e] => set (next := n)
      end.
      assert (Hn : next <> Complete) by (unfold next; destruct (_ || _); discriminate).
      destruct (setCalibrationStatusSafe_spec next e) as (Hs & Hp & Hh).
      split; [intros s; rewrite Hp; reflexivity|].
      split; [exact Hh|]. split.
      * intros _. unfold calibrationLatched. rewrite Hs, Hp, Hc.
        split; [intros; contradiction | discriminate].
      * intros L C. apply L in C. congruence.
Qed.

Lemma finishFrame_spec (c : Ctx) (f : Frame) (st : LoopState) :
  let e1 := updateCalibration (eng st) in
  let o := finishFrame c f st in
  let e' := engineOf o in
  calibrated (prev e') = calibrated (prev e1)
  /\ calibrationStatus e' = calibrationStatus e1
  /\ ((sameLimbs (eng st) e' /\ sameScores (eng st) e'
       /\ (arbitrate (potentialPunches st) = []
           \/ exists err, o = Threw err e'))
      \/ exists p reach,
           arbitrate (potentialPunches st) = [p]
           /\ o = Returned e'
           /\ limbOf (side p) (prev e') =
              setMaxExtension
                (Rmax (orZero (MaxExtension (limbOf (side p) (prev (eng st)))))
                      reach)
                (limbOf (side p) (prev (eng st)))
           /\ limbOf (otherSide (side p)) (prev e') =
              limbOf (otherSide (side p)) (prev (eng st))
           /\ total (statsOf (side p) e') =
              (total (statsOf (side p) (eng st)) + 1)%Z
           /\ total (statsOf (otherSide (side p)) e') =
              total (statsOf (otherSide (side p)) (eng st))
           /\ historyOf (side p) e' =
              pushBounded HISTORY_SIZE (historyOf (side p) (eng st)) (power p)
           /\ historyOf (otherSide (side p)) e' =
              historyOf (otherSide (side p)) (eng st)).
Proof.
  intros e1 o e'. unfold e', o, finishFrame. fold e1.
  destruct (updateCalibration_spec (eng st)) as (UL & (UH & UT) & _).
  fold e1 in UL, UH, UT.
  pose proof (arbitrate_length (potentialPunches st)) as Hlen.
  destruct (arbitrate (potentialPunches st)) as [|p [|q tl]];
    [| |cbn [List.length] in Hlen; lia].
  - cbn [forPunches engineOf]. proj_simpl. split; [reflexivity|]. split; [reflexivity|].
    left. split; [|split; [|left; reflexivity]].
    + intros s. rewrite <- UL. destruct s; reflexivity.
    + split; intros s; [rewrite <- UH | rewrite <- UT]; destruct s; reflexivity.
  - cbn [forPunches].
    pose proof (acceptPunch_spec c f p e1) as HA.
    destruct (acceptPunch c f p e1) as [e2|err e2].
    + destruct HA as ((reach & A1) & A2 & A3 & A4 & A5 & A6 & A7 & A8).
      cbn [engineOf]. split; [proj_simpl; exact A7|]. split; [proj_simpl; exact A8|].
      right. exists p, reach. split; [reflexivity|]. split; [reflexivity|].
      rewrite <- !UL, <- !UH, <- !UT.
      repeat split; destruct (side p); proj_simpl; assumption.
    + subst e2. cbn [engineOf]. split; [reflexivity|]. split; [reflexivity|].
      left. split; [exact UL|]. split; [split; assumption|].
      right. exists err. reflexivity.
Qed.

Lemma better_In (l : list Punch) : forall a, In (fold_left better l a) (a :: l).
Proof.
  induction l as [|q tl IH]; intros a; cbn [fold_left]; [left; reflexivity|].
  assert (Hb : better a q = a \/ better a q = q).
  { unfold better. destruct (Rgtb (power q) (power a)); auto. }
  destruct (IH (better a q)) as [H|H].
  - destruct Hb as [Hb|Hb]; rewrite Hb in H.
    + left. rewrite Hb. exact H.
    + right; left. rewrite Hb. exact H.
  - right; right; exact H.
Qed.

Lemma arbitrate_In (pp : list Punch) (p : Punch) :
  arbitrate pp = [p] -> In p pp.
Proof.
  destruct pp as [|a [|q tl]]; cbn [arbitrate]; intros H; try discriminate.
  - left. congruence.
  - assert (p = fold_left better (q :: tl) a) by congruence. subst p.
    apply better_In.
Qed.

Lemma optList_In {A : Type} (o : option A) (a : A) : In a (optList o) -> o = Some a.
Proof.
  destruct o; cbn [optList In]; intros H;
    [destruct H as [H|[]]; congruence | contradiction].
Qed.

(** What a frame does to the two limb records, and what it proposes. *)
Lemma frame_steps (f : Frame) (e : Engine) :
  let e' := engineOf (computePunches f e) in
  exists oL oR,
    proposals f e = optList oL ++ optList oR
    /\ LimbStep Left (now f) (limbOf Left (prev e)) (limbOf Left (prev e')) oL
    /\ LimbStep Right (now f) (limbOf Right (prev e)) (limbOf Right (prev e')) oR.
Proof.
  unfold computePunches, proposals.
  pose proof (enterFrame_spec f e) as HE.
  destruct (enterFrame f e) as [e1|c e0].
  - destruct HE as (HL & _). exists None, None. cbn [engineOf optList app].
    split; [reflexivity|]. rewrite !HL. split; constructor.
  - destruct HE as (Hn & HL & _).
    pose proof (forSides_spec c (now f) (startLoop e0)) as HF.
    destruct (forSides c (now f) sides (startLoop e0)) as [st2|[err st]].
    + destruct HF as (st1 & E1 & E2).
      pose proof (loopBody_spec c (now f) Left (startLoop e0)) as S1.
      rewrite E1 in S1. destruct S1 as (h1 & L1 & O1 & P1 & _).
      pose proof (loopBody_spec c (now f) Right st1) as S2.
      rewrite E2 in S2. destruct S2 as (h2 & L2 & O2 & P2 & _).
      cbn [startLoop eng potentialPunches otherSide app] in *.
      rewrite (HL Left) in L1, P1. rewrite (HL Right) in O1.
      rewrite O1 in L2, P2.
      set (rL := trackLimb Left _ _ _ _ _ h1 _) in *.
      set (rR := trackLimb Right _ _ _ _ _ h2 _) in *.
      exists (proposal rL), (proposal rR).
      split; [rewrite P2, P1; reflexivity|].
      destruct (finishFrame_spec c f st2) as (_ & _ & [(SL & _)|HR]).
      * rewrite (SL Left), (SL Right), O2, L1, L2.
        split; apply LimbTracked; exact Hn.
      * destruct HR as (p & reach & HA & _ & R1 & R2 & _).
        apply arbitrate_In in HA. rewrite P2, P1 in HA.
        pose proof (trackLimb_proposal Left (now f) (norm c) (dt c)
                      (torsoStable c) (shoulderOf c Left) h1
                      (limbOf Left (prev e))) as TL.
        pose proof (trackLimb_proposal Right (now f) (norm c) (dt c)
                      (torsoStable c) (shoulderOf c Right) h2
                      (limbOf Right (prev e))) as TR.
        fold rL in TL. fold rR in TR.
        apply in_app_or in HA. destruct HA as [HA|HA]; apply optList_In in HA;
          subst rL rR.
        -- rewrite HA in TL. destruct TL as (Hs & _). rewrite Hs in R1, R2.
           cbn [otherSide] in R2. rewrite R1, R2, O2, L1, L2.
           split; [apply LimbRaised; [exact Hn | rewrite HA; discriminate]
                  | apply LimbTracked; exact Hn].
        -- rewrite HA in TR. destruct TR as (Hs & _). rewrite Hs in R1, R2.
           cbn [otherSide] in R2. rewrite R1, R2, O2, L1, L2.
           split; [apply LimbTracked; exact Hn
                  | apply LimbRaised; [exact Hn | rewrite HA; discriminate]].
    + destruct HF as (_ & [(-> & E1)|(E1 & E2)]).
      * exists None, None. cbn [engineOf startLoop eng potentialPunches optList app].
        split; [reflexivity|]. rewrite !HL. split; constructor.
      * pose proof (loopBody_spec c (now f) Left (startLoop e0)) as S1.
        rewrite E1 in S1. destruct S1 as (h1 & L1 & O1 & P1 & _).
        cbn [startLoop eng potentialPunches otherSide app] in *.
        rewrite (HL Left) in L1, P1. rewrite (HL Right) in O1.
        eexists. exists None. cbn [engineOf optList]. rewrite P1, L1, O1, app_nil_r.
        split; [reflexivity|]. split; [apply LimbTracked; exact Hn | apply LimbSkipped].
Qed.

Lemma LimbStep_proposal (s : WristSide) (tnow : R) (lp lp' : LimbPrev)
    (o : option Punch) :
  LimbStep s tnow lp lp' o ->
  match o with
  | Some p =>
    side p = s
    /\ flag (PunchDetected lp) = false
    /\ Rgtb (nullish (CooldownUntil lp) 0) tnow = false
    /\ CooldownUntil lp' = Some (tnow + 250)
    /\ PunchDetected lp' = Some true
  | None => CooldownUntil lp' = CooldownUntil lp
  end.
Proof.
  intros H. destruct H as [|n d stable sh hand Hn|n d stable sh hand reach Hn Hp].
  - reflexivity.
  - pose proof (trackLimb_proposal s tnow n d stable sh hand lp) as T.
    destruct (proposal _); [tauto | exact T].
  - pose proof (trackLimb_proposal s tnow n d stable sh hand lp) as T.
    destruct (proposal _); [|exact T].
    cbn [setMaxExtension CooldownUntil PunchDetected]. tauto.
Qed.

Lemma orZero_some (v : R) : orZero (Some v) = v.
Proof.
  unfold orZero, orElse, Reqb. destruct (Req_dec_T v 0); congruence.
Qed.

Lemma LimbStep_floor (s : WristSide) (tnow : R) (lp lp' : LimbPrev)
    (o : option Punch) :
  LimbStep s tnow lp lp' o -> extensionFloor lp -> extensionFloor lp'.
Proof.
  intros H F. destruct H as [|n d stable sh hand Hn|n d stable sh hand reach Hn Hp].
  - exact F.
  - destruct stable.
    + destruct (trackLimb_stable_extension s tnow n d true sh hand lp eq_refl)
        as (r & m & Hr & Hm & Hle).
      unfold extensionFloor. rewrite Hr, Hm. lra.
    + destruct (trackLimb_unstable s tnow n d false sh hand lp eq_refl)
        as (_ & _ & _ & Hm & Hr & _).
      unfold extensionFloor. rewrite Hr, Hm. exact F.
  - pose proof (trackLimb_proposal s tnow n d stable sh hand lp) as T.
    destruct (proposal _); [|congruence].
    destruct T as (_ & -> & _).
    destruct (trackLimb_stable_extension s tnow n d true sh hand lp eq_refl)
      as (r & m & Hr & Hm & Hle).
    unfold extensionFloor. cbn [setMaxExtension RestExtension MaxExtension].
    rewrite Hr, Hm, orZero_some.
    pose proof (Rmax_l m reach). lra.
Qed.

Lemma latched_transfer (e e' : Engine) :
  calibrated (prev e') = calibrated (prev e) ->
  calibrationStatus e' = calibrationStatus e ->
  (calibrationLatched e -> calibrationLatched e')
  /\ (calibrationStatus e = Complete -> calibrationStatus e' = Complete).
Proof.
  intros Hc Hs. unfold calibrationLatched. rewrite Hc, Hs. tauto.
Qed.

(** The ledger before the calibration block: what the loop leaves alone. *)
Lemma loop_ledger (f : Frame) (e : Engine) (c : Ctx) (e0 : Engine) :
  enterFrame f e = Enter c e0 ->
  match forSides c (now f) sides (startLoop e0) with
  | inl st => sameLedger e (eng st)
  | inr (_, st) => sameLedger e (eng st)
  end.
Proof.
  intros E. pose proof (enterFrame_spec f e) as HE. rewrite E in HE.
  destruct HE as (_ & _ & H0).
  pose proof (forSides_spec c (now f) (startLoop e0)) as HF.
  pose proof (loopBody_spec c (now f) Left (startLoop e0)) as S1.
  destruct (forSides c (now f) sides (startLoop e0)) as [st2|[err st]].
  - destruct HF as (st1 & E1 & E2). rewrite E1 in S1.
    destruct S1 as (h1 & _ & _ & _ & G1).
    pose proof (loopBody_spec c (now f) Right st1) as S2. rewrite E2 in S2.
    destruct S2 as (h2 & _ & _ & _ & G2).
    eapply sameLedger_trans; [exact H0|].
    eapply sameLedger_trans; [exact G1 | exact G2].
  - destruct HF as (_ & [(-> & _)|(E1 & _)]).
    + exact H0.
    + rewrite E1 in S1. destruct S1 as (h1 & _ & _ & _ & G1).
      eapply sameLedger_trans; [exact H0 | exact G1].
Qed.

Lemma frame_calibration (f : Frame) (e : Engine) :
  let e' := engineOf (computePunches f e) in
  (calibrationLatched e -> calibrationLatched e')
  /\ (calibrationLatched e ->
      calibrationStatus e = Complete -> calibrationStatus e' = Complete).
Proof.
  unfold computePunches.
  pose proof (enterFrame_spec f e) as HE.
  pose proof (loop_ledger f e) as HLoop.
  destruct (enterFrame f e) as [e1|c e0].
  - destruct HE as (_ & Hc & Hs & _). cbn [engineOf].
    destruct (latched_transfer e e1 Hc Hs). tauto.
  - specialize (HLoop c e0 eq_refl).
    destruct (forSides c (now f) sides (startLoop e0)) as [st|[err st]].
    + destruct HLoop as (Hc & Hs & _).
      destruct (latched_transfer e (eng st) Hc Hs) as (T1 & T2).
      destruct (updateCalibration_spec (eng st)) as (_ & _ & U1 & U2).
      destruct (finishFrame_spec c f st) as (F1 & F2 & _).
      destruct (latched_transfer _ _ F1 F2) as (T3 & T4).
      split; [tauto|]. intros L C. apply T4, U2; [apply T1, L | apply T2, C].
    + destruct HLoop as (Hc & Hs & _). cbn [engineOf].
      destruct (latched_transfer e (eng st) Hc Hs). tauto.
Qed.

(** What a frame does to the counters and the histories. *)
Lemma frame_scores (f : Frame) (e : Engine) :
  let o := computePunches f e in
  let e' := engineOf o in
  (sameScores e e'
   /\ (accepted f e = [] \/ exists err, o = Threw err e'))
  \/ exists p,
       accepted f e = [p]
       /\ o = Returned e'
       /\ total (statsOf (side p) e') = (total (statsOf (side p) e) + 1)%Z
       /\ total (statsOf (otherSide (side p)) e') =
          total (statsOf (otherSide (side p)) e)
       /\ historyOf (side p) e' =
          pushBounded HISTORY_SIZE (historyOf (side p) e) (power p)
       /\ historyOf (otherSide (side p)) e' =
          historyOf (otherSide (side p)) e.
Proof.
  unfold computePunches, accepted.
  pose proof (enterFrame_spec f e) as HE.
  pose proof (loop_ledger f e) as HLoop.
  destruct (enterFrame f e) as [e1|c e0].
  - destruct HE as (_ & HG). left. cbn [engineOf].
    split; [apply sameLedger_scores, HG | left; reflexivity].
  - specialize (HLoop c e0 eq_refl).
    destruct (forSides c (now f) sides (startLoop e0)) as [st|[err st]].
    + apply sameLedger_scores in HLoop. destruct HLoop as (HH & HT).
      destruct (finishFrame_spec c f st) as (_ & _ & [(_ & SS & HA)|HR]).
      * left. split; [eapply sameScores_trans; [split; eassumption | exact SS]|].
        exact HA.
      * right. destruct HR as (p & reach & HA & HO & _ & _ & T1 & T2 & H1 & H2).
        exists p. rewrite <- !HH, <- !HT. tauto.
    + left. cbn [engineOf].
      split; [apply sameLedger_scores, HLoop | right; eexists; reflexivity].
Qed.

(** ** Running the step on concrete frames *)

Lemma Qnz_neq (q : Q) : Qnz q = true -> ~ (q == 0)%Q.
Proof.
  unfold Qnz, Qeq. destruct q as [n d]; cbn [Qnum Qden]. intros H E.
  rewrite Z.mul_1_r in E. subst n. discriminate.
Qed.

Lemma Q2R_red (q : Q) : Q2R (Qred q) = Q2R q.
Proof. apply Qeq_eqR, Qred_correct. Qed.

Lemma liftQ2_sound (f : Q -> Q -> Q) (g : R -> R -> R) (x y : option Q)
    (a b : R) (q : Q) :
  (forall u v, x = Some u -> y = Some v -> Q2R (f u v) = g (Q2R u) (Q2R v)) ->
  (forall u, x = Some u -> a = Q2R u) ->
  (forall v, y = Some v -> b = Q2R v) ->
  liftQ2 f x y = Some q -> g a b = Q2R q.
Proof.
  intros Hf Ha Hb. unfold liftQ2. destruct x as [u|], y as [v|]; try discriminate.
  intros H. assert (q = Qred (f u v)) by congruence. subst q.
  rewrite Q2R_red, (Hf u v eq_refl eq_refl), (Ha u eq_refl), (Hb v eq_refl).
  reflexivity.
Qed.

Lemma evalQ_sound (e : RExp) : forall q, evalQ e = Some q -> denote e = Q2R q.
Proof.
  induction e; cbn [evalQ denote]; intros q0 H.
  - assert (q0 = inject_Z z) by congruence. subst q0.
    unfold Q2R, inject_Z; cbn [Qnum Qden]. field.
  - congruence.
  - eapply liftQ2_sound; [| | |exact H]; intros; auto using Q2R_plus.
  - eapply liftQ2_sound; [| | |exact H]; intros; auto using Q2R_minus.
  - eapply liftQ2_sound; [| | |exact H]; intros; auto using Q2R_mult.
  - destruct (evalQ e2) as [y|]; [|discriminate].
    destruct (Qnz y) eqn:Hy; [|discriminate].
    eapply liftQ2_sound; [| | |exact H]; intros; auto.
    apply Q2R_div. assert (v = y) by congruence. subst v. apply Qnz_neq, Hy.
  - replace (- denote e) with (Q2R 0 - denote e) by (unfold Q2R; cbn; lra).
    eapply (liftQ2_sound Qminus Rminus (Some 0%Q)); [| | |exact H]; intros; auto using Q2R_minus.
    congruence.
  - destruct (evalQ e) as [y|]; [|discriminate].
    destruct (Qnz y) eqn:Hy; [|discriminate].
    assert (q0 = Qred (/ y)) by congruence. subst q0.
    rewrite Q2R_red, Q2R_inv by (apply Qnz_neq, Hy).
    rewrite (IHe y eq_refl). reflexivity.
Qed.

Ltac reify e :=
  lazymatch e with
  | Rplus ?a ?b => let a' := reify a in let b' := reify b in constr:(RAdd a' b')
  | Rminus ?a ?b => let a' := reify a in let b' := reify b in constr:(RSub a' b')
  | Rmult ?a ?b => let a' := reify a in let b' := reify b in constr:(RMul a' b')
  | Rdiv ?a ?b => let a' := reify a in let b' := reify b in constr:(RDiv a' b')
  | Ropp ?a => let a' := reify a in constr:(ROpp a')
  | Rinv ?a => let a' := reify a in constr:(RInv a')
  | Q2R ?q => constr:(RLit q)
  | IZR ?z => constr:(RInt z)
  end.

Ltac compound e :=
  lazymatch e with
  | Rplus _ _ => idtac | Rminus _ _ => idtac | Rmult _ _ => idtac
  | Rdiv _ _ => idtac | Ropp _ => idtac | Rinv _ => idtac
  end.

Ltac value_of e k :=
  let r := reify e in
  let o := eval vm_compute in (evalQ r) in
  lazymatch o with
  | Some ?q =>
    k r constr:(evalQ_sound r q (@eq_refl (option Q) (Some q) <: evalQ r = Some q))
  end.

(** Replace a closed arithmetic subterm by its value. *)
Ltac Rcalc_in H :=
  match type of H with
  | context [?e] =>
    compound e;
    value_of e ltac:(fun r P => change e with (denote r) in H; rewrite P in H)
  end.

Ltac Rcalc :=
  match goal with
  | |- context [?e] =>
    compound e;
    value_of e ltac:(fun r P => change e with (denote r); rewrite P)
  end.

(** Decide a comparison, a maximum, a minimum or a norm between values. *)
Ltac Rstep_in H :=
  match type of H with
  | context [Rltb ?a ?b] =>
    first [rewrite (Rltb_true a b) in H by lra
          | rewrite (Rltb_false a b) in H by lra]
  | context [Rleb ?a ?b] =>
    first [rewrite (Rleb_true a b) in H by lra
          | rewrite (Rleb_false a b) in H by lra]
  | context [Reqb ?a ?b] =>
    first [rewrite (Reqb_true a b) in H by lra
          | rewrite (Reqb_false a b) in H by lra]
  | context [Rmax ?a ?b] =>
    first [rewrite (Rmax_left a b) in H by lra
          | rewrite (Rmax_right a b) in H by lra]
  | context [Rmin ?a ?b] =>
    first [rewrite (Rmin_left a b) in H by lra
          | rewrite (Rmin_right a b) in H by lra]
  | context [Rabs ?a] =>
    first [rewrite (Rabs_pos_eq a) in H by lra
          | rewrite (Rabs_left1 a) in H by lra]
  | context [Math_hypot ?a ?b] => rewrite (Math_hypot_axis a b) in H by lra
  end.

Ltac Rstep :=
  match goal with
  | |- context [Rltb ?a ?b] =>
    first [rewrite (Rltb_true a b) by lra | rewrite (Rltb_false a b) by lra]
  | |- context [Rleb ?a ?b] =>
    first [rewrite (Rleb_true a b) by lra | rewrite (Rleb_false a b) by lra]
  | |- context [Reqb ?a ?b] =>
    first [rewrite (Reqb_true a b) by lra | rewrite (Reqb_false a b) by lra]
  | |- context [Rmax ?a ?b] =>
    first [rewrite (Rmax_left a b) by lra | rewrite (Rmax_right a b) by lra]
  | |- context [Math_hypot ?a ?b] => rewrite (Math_hypot_axis a b) by lra
  | |- context [Rabs ?a] =>
    first [rewrite (Rabs_pos_eq a) by lra | rewrite (Rabs_left1 a) by lra]
  end.

Ltac unfold_data_in H :=
  cbv beta iota zeta delta
    [nullish flag truthy orElse orZero pointOf distance Rgtb Rgeb optList
     Pt.x Pt.y Kp.x Kp.y Kp.score Kp.name Kp.part
     wristPos DistToShoulder PunchDetected MaxExtension SpeedHistory
     RestExtension RangeNorm Filtered NoiseSpeed CooldownUntil
     Motion.cur Motion.distToShoulder Motion.rest Motion.maxExt
     Motion.speedHistory Motion.speed Motion.speedFwd Motion.movingForward
     Motion.movingBackward
     Ext.noise Ext.rest Ext.maxExt Ext.extensionRange
     Det.punchActive Det.rangeEnough Det.speedThreshold Det.triggerDist
     Det.resetDist Det.currentPower Det.inCooldown Det.fires
     pushBounded app List.length Nat.ltb Nat.leb tl
     getKeypoint find nameIs String.eqb Ascii.eqb Bool.eqb
     minShoulderScore minWristScore HISTORY_SIZE
     t leftLimb rightLimb calibrated prevLeftShoulder prevRightShoulder
     prev leftHistory rightHistory storage leftStats rightStats leftDebug
     rightDebug calibrationStatus limbOf setLimb setT setShoulders withPrev
     setCalibrated setDebug setStats historyOf statsOf debugOf pushHistory
     saveHistory setMaxExtension bothDebug staticDebug
     ls rs lw rw le re norm dt torsoStable eng potentialPunches
     limbAfter proposal debugAfter lastAfter side speed power
     now dateNow pose keypoints
     total lastSpeed lastPower lastPercent
     negb andb orb] in H.

Ltac simp_in H :=
  unfold_data_in H;
  repeat first
    [ Rcalc_in H
    | Rstep_in H; cbv beta iota delta [negb andb orb] in H ].

(** Evaluate the outermost [let] whose bound term has no [let] inside. *)
Ltac let_step :=
  match goal with
  | |- context C [let x := ?v in @?b x] =>
    lazymatch v with
    | context [let _ := _ in _] => fail
    | _ => idtac
    end;
    let x' := fresh "v" in
    let H := fresh "E" in
    pose (x' := v);
    let g := context C [b x'] in
    change g; cbv beta;
    assert (H : x' = v) by reflexivity;
    clearbody x'; simp_in H; subst x'
  end.

Ltac unfold_step :=
  cbv beta iota delta
    [computePunches startLoop finishFrame forSides sides loopBody trackLimb
     resolveHand updateCalibration setCalibrationStatusSafe flagAfter
     CalibrationStatus_eqb arbitrate better forPunches acceptPunch
     pushHistory saveHistory historyOf statsOf debugOf bothDebug staticDebug
     setDebug setStats withPrev setLimb setT setShoulders setCalibrated
     setMaxExtension limbOf engineOf fold_left proposals accepted optList
     getKeypoint find nameIs String.eqb Ascii.eqb Bool.eqb
     minShoulderScore minWristScore HISTORY_SIZE
     nullish flag truthy orElse orZero pointOf Rgtb Rgeb
     Pt.x Pt.y Kp.x Kp.y Kp.score Kp.name Kp.part
     wristPos DistToShoulder PunchDetected MaxExtension SpeedHistory
     RestExtension RangeNorm Filtered NoiseSpeed CooldownUntil
     Motion.cur Motion.distToShoulder Motion.rest Motion.maxExt
     Motion.speedHistory Motion.speed Motion.speedFwd Motion.movingForward
     Motion.movingBackward
     Ext.noise Ext.rest Ext.maxExt Ext.extensionRange
     Det.punchActive Det.rangeEnough Det.speedThreshold Det.triggerDist
     Det.resetDist Det.currentPower Det.inCooldown Det.fires
     t leftLimb rightLimb calibrated prevLeftShoulder prevRightShoulder
     prev leftHistory rightHistory storage leftStats rightStats leftDebug
     rightDebug calibrationStatus
     ls rs lw rw le re norm dt torsoStable eng potentialPunches
     limbAfter proposal debugAfter lastAfter side speed power
     now dateNow pose keypoints
     total lastSpeed lastPower lastPercent
     pushBounded app List.length Nat.ltb Nat.leb tl
     negb andb orb].

(** A stage is run on its own, and its value put in its place. *)
Ltac stage_call :=
  match goal with
  | |- context [enterFrame ?f ?e] => constr:(enterFrame f e)
  | |- context [motionOf ?a ?b ?c ?d ?e] => constr:(motionOf a b c d e)
  | |- context [extensionOf ?a ?b ?c] => constr:(extensionOf a b c)
  | |- context [detectorOf ?a ?b ?c ?d ?e] => constr:(detectorOf a b c d e)
  | |- context [stableDebug ?a ?b ?c ?d] => constr:(stableDebug a b c d)
  end.

Ltac run_stage :=
  cbv beta delta [enterFrame motionOf extensionOf detectorOf stableDebug];
  repeat first [ let_step | progress unfold_step | Rstep ];
  repeat Rcalc;
  reflexivity.

Ltac stage_step :=
  let c := stage_call in
  let H := fresh "Ev" in
  eassert (H : c = _) by run_stage;
  rewrite H; clear H.

Ltac evaluate :=
  repeat first [ stage_step | let_step | progress unfold_step | Rstep ];
  repeat Rcalc.

(** Equality of two values up to arithmetic on their numbers. *)
Ltac same_value :=
  repeat lazymatch goal with
  | |- @eq R _ _ => lra
  | |- _ => first [reflexivity | f_equal]
  end.


Ltac unfold_frames :=
  cbv beta delta
    [frameA1 frameA2 frameA3 frameB2 frameB3 frameC1 frameC2 frameD2 frameE1
     wristsAt elbowAt mkFrame shoulders keypoint app
     engine0 initialEngine noLimb zeroStats emptyDebug
     stateA1 stateB2 limbAtRest debugAtRest punchA2Left punchA2Right].

Ltac run_frame := unfold_frames; evaluate.

(** ** The example frames, step by step *)

Lemma stepA1 : computePunches frameA1 engine0 = Returned stateA1.
Proof. run_frame. same_value. Qed.

Lemma stepC1 : computePunches frameC1 engine0 = Returned stateA1.
Proof. run_frame. same_value. Qed.

Lemma stepB2 : computePunches frameB2 stateA1 = Returned stateB2.
Proof. run_frame. same_value. Qed.

Lemma stepB3 :
  exists e3, computePunches frameB3 stateB2 = Returned e3
             /\ calibrationStatus e3 = Waiting.
Proof. eexists. split; [run_frame; reflexivity | reflexivity]. Qed.

Lemma stepA2 :
  exists c e0 st e2,
    enterFrame frameA2 stateA1 = Enter c e0
    /\ forSides c (now frameA2) sides (startLoop e0) = inl st
    /\ potentialPunches st = [punchA2Left; punchA2Right]
    /\ finishFrame c frameA2 st = Returned e2
    /\ calibrationStatus e2 = Complete
    /\ total (rightStats e2) = 1%Z /\ total (leftStats e2) = 0%Z.
Proof.
  do 4 eexists.
  split; [run_frame; reflexivity|].
  split; [run_frame; reflexivity|].
  split; [unfold_frames; cbn [potentialPunches]; same_value|].
  split; [run_frame; reflexivity|].
  split; [reflexivity|]. split; reflexivity.
Qed.

Lemma stepC2 :
  exists e2,
    computePunches frameC2 stateA1 =
    Threw (TypeError "Cannot read properties of undefined (reading 'x')") e2.
Proof. eexists. run_frame. reflexivity. Qed.

Lemma stepD2 :
  exists c e0 e2,
    enterFrame frameD2 stateA1 = Enter c e0
    /\ torsoStable c = false
    /\ norm c = 1.2
    /\ computePunches frameD2 stateA1 = Returned e2
    /\ RestExtension (leftLimb (prev e2)) = Some 0.3
    /\ MaxExtension (leftLimb (prev e2)) = Some 0.34.
Proof.
  do 3 eexists.
  split; [run_frame; reflexivity|].
  split; [reflexivity|].
  split; [cbn [norm]; lra|].
  split; [run_frame; reflexivity|].
  split; cbn [prev leftLimb RestExtension MaxExtension]; same_value.
Qed.

Lemma stepE1 :
  exists e1,
    computePunches frameE1 engine0 = Threw (ReferenceError "rangeNormKey") e1
    /\ leftDebug e1 = emptyDebug
    /\ rightDebug e1 = emptyDebug.
Proof.
  eexists. split; [run_frame; reflexivity | split; reflexivity].
Qed.

Lemma proposalsE1 : proposals frameE1 engine0 = [].
Proof. run_frame. reflexivity. Qed.

(** ** Consequences for whole frames *)

Lemma stages (f : Frame) (e : Engine) (c : Ctx) (e0 : Engine) (st : LoopState) :
  enterFrame f e = Enter c e0 ->
  forSides c (now f) sides (startLoop e0) = inl st ->
  computePunches f e = finishFrame c f st
  /\ proposals f e = potentialPunches st
  /\ accepted f e = arbitrate (potentialPunches st).
Proof.
  intros E F. unfold computePunches, proposals, accepted. rewrite E, F.
  repeat split.
Qed.

Lemma accepted_when_returned (f : Frame) (e e' : Engine) :
  computePunches f e = Returned e' ->
  accepted f e = arbitrate (proposals f e).
Proof.
  unfold computePunches, accepted, proposals.
  destruct (enterFrame f e) as [e1|c e0]; [reflexivity|].
  destruct (forSides c (now f) sides (startLoop e0)) as [st|[err st]];
    [reflexivity | discriminate].
Qed.

Lemma run_app (l1 l2 : list Frame) (e : Engine) :
  run (l1 ++ l2) e = run l2 (run l1 e).
Proof. unfold run. apply fold_left_app. Qed.

Lemma run_cons (f : Frame) (l : list Frame) (e : Engine) :
  run (f :: l) e = run l (engineOf (computePunches f e)).
Proof. reflexivity. Qed.

(** The side of each proposal of a frame, and the limb states around it. *)
Lemma proposal_facts (f : Frame) (e : Engine) (p : Punch) :
  In p (proposals f e) ->
  let e' := engineOf (computePunches f e) in
  flag (PunchDetected (limbOf (side p) (prev e))) = false
  /\ ~ now f < nullish (CooldownUntil (limbOf (side p) (prev e))) 0
  /\ CooldownUntil (limbOf (side p) (prev e')) = Some (now f + 250)
  /\ PunchDetected (limbOf (side p) (prev e')) = Some true.
Proof.
  intros Hin e'. unfold e'.
  destruct (frame_steps f e) as (oL & oR & HP & SL & SR).
  rewrite HP in Hin. apply in_app_or in Hin.
  apply LimbStep_proposal in SL. apply LimbStep_proposal in SR.
  destruct Hin as [Hin|Hin]; apply optList_In in Hin; subst.
  - destruct SL as (-> & A & B & C & D). repeat split; try assumption.
    intros H. apply Rltb_ge in B. lra.
  - destruct SR as (-> & A & B & C & D). repeat split; try assumption.
    intros H. apply Rltb_ge in B. lra.
Qed.

Lemma quiet_limb (f : Frame) (e : Engine) (s : WristSide) :
  (forall p, In p (proposals f e) -> side p <> s) ->
  CooldownUntil (limbOf s (prev (engineOf (computePunches f e)))) =
  CooldownUntil (limbOf s (prev e)).
Proof.
  intros Hq.
  destruct (frame_steps f e) as (oL & oR & HP & SL & SR).
  apply LimbStep_proposal in SL. apply LimbStep_proposal in SR.
  destruct s.
  - destruct oL as [p|]; [|exact SL].
    exfalso. apply (Hq p); [rewrite HP; left; reflexivity | tauto].
  - destruct oR as [p|]; [|exact SR].
    exfalso. apply (Hq p); [|tauto].
    rewrite HP. apply in_or_app. right. left. reflexivity.
Qed.

Lemma proposals_two (f : Frame) (e : Engine) (pl pr : Punch) :
  proposals f e = [pl; pr] -> side pl = Left /\ side pr = Right.
Proof.
  intros H.
  destruct (frame_steps f e) as (oL & oR & HP & SL & SR).
  apply LimbStep_proposal in SL. apply LimbStep_proposal in SR.
  rewrite H in HP.
  destruct oL as [a|], oR as [b|]; cbn [optList app] in HP; try discriminate.
  assert (pl = a) by congruence. assert (pr = b) by congruence. subst.
  tauto.
Qed.

Lemma no_proposal_in_cooldown (g : Frame) (e : Engine) (s : WristSide) (c : R) :
  CooldownUntil (limbOf s (prev e)) = Some c ->
  now g < c ->
  (forall p, In p (proposals g e) -> side p <> s)
  /\ CooldownUntil (limbOf s (prev (engineOf (computePunches g e)))) = Some c.
Proof.
  intros Hc Hlt.
  assert (Hq : forall p, In p (proposals g e) -> side p <> s).
  { intros p Hin Hs. destruct (proposal_facts g e p Hin) as (_ & B & _).
    rewrite Hs, Hc in B. cbn [nullish] in B. contradiction. }
  split; [exact Hq|]. rewrite quiet_limb; assumption.
Qed.

Lemma no_proposal_while_active (g : Frame) (e : Engine) (s : WristSide) :
  PunchDetected (limbOf s (prev e)) = Some true ->
  forall p, In p (proposals g e) -> side p <> s.
Proof.
  intros Ha p Hin Hs. destruct (proposal_facts g e p Hin) as (A & _).
  rewrite Hs, Ha in A. discriminate.
Qed.

Lemma cooldown_along (later : list Frame) : forall (e : Engine) (s : WristSide) (c : R),
  CooldownUntil (limbOf s (prev e)) = Some c ->
  (forall g, In g later -> now g < c) ->
  forall p, In p (proposalsAlong later e) -> side p <> s.
Proof.
  induction later as [|g tl IH]; intros e s c Hc Hl p Hin; [contradiction|].
  cbn [proposalsAlong] in Hin.
  destruct (no_proposal_in_cooldown g e s c Hc (Hl g (or_introl eq_refl)))
    as (Hq & Hc').
  apply in_app_or in Hin. destruct Hin as [Hin|Hin].
  - apply Hq, Hin.
  - apply (IH _ s c Hc'); [|exact Hin].
    intros g' Hg'. apply Hl. right. exact Hg'.
Qed.

(** C7: a limb that proposes a strike in a frame has its [cooldownUntil]
    set to [now + 250], and in the frames that follow with a timestamp below
    that value it proposes nothing; in general, a limb proposes nothing in
    a frame whose timestamp is below its current [cooldownUntil]. *)
Theorem cooldown_blocks_proposals (f : Frame) (e : Engine) (s : WristSide)
    (later : list Frame) :
  In s (map side (proposals f e)) ->
  (forall g, In g later -> now g < now f + 250) ->
  let e' := engineOf (computePunches f e) in
  CooldownUntil (limbOf s (prev e')) = Some (now f + 250)
  /\ (forall p, In p (proposalsAlong later e') -> side p <> s)
  /\ (forall g e1 c,
        CooldownUntil (limbOf s (prev e1)) = Some c -> now g < c ->
        forall p, In p (proposals g e1) -> side p <> s).
Proof.
  intros Hs Hl e'. apply in_map_iff in Hs. destruct Hs as (p & <- & Hin).
  destruct (proposal_facts f e p Hin) as (_ & _ & C & _).
  split; [exact C|]. split.
  - apply (cooldown_along later e' (side p) _ C Hl).
  - intros g e1 c Hc Hlt. apply (no_proposal_in_cooldown g e1 (side p) c Hc Hlt).
Qed.

Lemma returnedA2 :
  exists e2, computePunches frameA2 stateA1 = Returned e2
             /\ calibrationStatus e2 = Complete
             /\ total (rightStats e2) = 1%Z /\ total (leftStats e2) = 0%Z.
Proof.
  destruct stepA2 as (c & e0 & st & e2 & E & F & _ & R & S & T).
  exists e2. destruct (stages _ _ _ _ _ E F) as (H & _).
  rewrite H. split; [exact R|]. split; [exact S | exact T].
Qed.

Lemma proposalsA2 : proposals frameA2 stateA1 = [punchA2Left; punchA2Right].
Proof.
  destruct stepA2 as (c & e0 & st & e2 & E & F & P & _).
  destruct (stages _ _ _ _ _ E F) as (_ & H & _). rewrite H. exact P.
Qed.

Lemma cooldown_blocks_proposals_witness :
  In Left (map side (proposals frameA2 stateA1))
  /\ (forall g, In g [frameA3] -> now g < now frameA2 + 250)
  /\ CooldownUntil
       (limbOf Left (prev (engineOf (computePunches frameA2 stateA1)))) =
     Some (now frameA2 + 250)
  /\ forall p,
       In p (proposalsAlong [frameA3]
               (engineOf (computePunches frameA2 stateA1))) ->
       side p <> Left.
Proof.
  assert (H1 : In Left (map side (proposals frameA2 stateA1))).
  { rewrite proposalsA2. left. reflexivity. }
  assert (H2 : forall g, In g [frameA3] -> now g < now frameA2 + 250).
  { intros g [<-|[]]. cbn [frameA3 frameA2 wristsAt mkFrame now]. lra. }
  split; [exact H1|]. split; [exact H2|].
  destruct (cooldown_blocks_proposals frameA2 stateA1 Left [frameA3] H1 H2)
    as (A & B & _).
  split; [exact A | exact B].
Defined.

Lemma arbitrate_two (pl pr : Punch) : arbitrate [pl; pr] = [better pl pr].
Proof. reflexivity. Qed.

Lemma better_cases (pl pr : Punch) :
  side pl = Left -> side pr = Right ->
  let win := better pl pr in
  let lose := if Rgtb (power pr) (power pl) then pl else pr in
  side lose = otherSide (side win).
Proof.
  intros Hl Hr. unfold better. cbv zeta.
  destruct (Rgtb (power pr) (power pl)); rewrite Hl, Hr; reflexivity.
Qed.

Lemma accepted_length (f : Frame) (e : Engine) :
  (List.length (accepted f e) <= 1)%nat.
Proof.
  unfold accepted. destruct (enterFrame f e) as [e1|c e0]; [cbn; lia|].
  destruct (forSides c (now f) sides (startLoop e0)) as [st|[err st]];
    [apply arbitrate_length | cbn; lia].
Qed.

Lemma counted_once (f : Frame) (e : Engine) :
  let e' := engineOf (computePunches f e) in
  (total (leftStats e') + total (rightStats e')
   <= total (leftStats e) + total (rightStats e) + 1)%Z.
Proof.
  cbv zeta. pose proof (frame_scores f e) as HS. cbv zeta in HS.
  destruct HS as [((_ & HT) & _)|(q & _ & _ & T1 & T2 & _)].
  - pose proof (HT Left) as A. pose proof (HT Right) as B.
    cbn [statsOf] in A, B. lia.
  - destruct (side q); cbn [statsOf otherSide] in T1, T2; lia.
Qed.


(** C10: when both limbs propose in one frame, each of them, the dropped
    one included, has [cooldownUntil = now + 250] and its flag set when the
    frame ends; the dropped proposal changes neither the counter nor the
    history of its side; and that limb proposes nothing in the next frame,
    whatever its timestamp, nor in any later frame before [now + 250]. *)
Theorem dropped_proposal_still_arms (f : Frame) (e : Engine) (pl pr : Punch)
    (later : list Frame) :
  proposals f e = [pl; pr] ->
  (forall g, In g later -> now g < now f + 250) ->
  let e' := engineOf (computePunches f e) in
  let lose := if Rgtb (power pr) (power pl) then pl else pr in
  (forall s, CooldownUntil (limbOf s (prev e')) = Some (now f + 250)
             /\ PunchDetected (limbOf s (prev e')) = Some true)
  /\ total (statsOf (side lose) e') = total (statsOf (side lose) e)
  /\ historyOf (side lose) e' = historyOf (side lose) e
  /\ (forall g p, In p (proposals g e') -> side p <> side lose)
  /\ (forall p, In p (proposalsAlong later e') -> side p <> side lose).
Proof.
  intros Hp Hl e' lose.
  destruct (proposals_two f e pl pr Hp) as (Hsl & Hsr).
  assert (Hboth : forall s, CooldownUntil (limbOf s (prev e')) = Some (now f + 250)
                            /\ PunchDetected (limbOf s (prev e')) = Some true).
  { intros s.
    assert (Hin : exists p, In p (proposals f e) /\ side p = s).
    { rewrite Hp. destruct s; [exists pl | exists pr]; split; auto.
      - left; reflexivity.
      - right; left; reflexivity. }
    destruct Hin as (p & Hin & <-).
    destruct (proposal_facts f e p Hin) as (_ & _ & C & D). split; assumption. }
  split; [exact Hboth|].
  pose proof (better_cases pl pr Hsl Hsr) as Hlose. cbv zeta in Hlose.
  fold lose in Hlose.
  assert (Hscore : total (statsOf (side lose) e') = total (statsOf (side lose) e)
                   /\ historyOf (side lose) e' = historyOf (side lose) e).
  { pose proof (frame_scores f e) as HS. cbv zeta in HS. fold e' in HS.
    destruct HS as [((HH & HT) & _)|(q & HA & HR & _ & T2 & _ & H4)].
    - split; [apply HT | apply HH].
    - rewrite (accepted_when_returned f e e' HR), Hp, arbitrate_two in HA.
      assert (q = better pl pr) by congruence. subst q.
      rewrite Hlose. split; assumption. }
  split; [apply Hscore|]. split; [apply Hscore|]. split.
  - intros g. apply no_proposal_while_active. apply Hboth.
  - apply (cooldown_along later e' (side lose) (now f + 250));
      [apply Hboth | exact Hl].
Qed.

Lemma dropped_proposal_still_arms_witness :
  proposals frameA2 stateA1 = [punchA2Left; punchA2Right]
  /\ (forall g, In g [frameA3] -> now g < now frameA2 + 250)
  /\ CooldownUntil
       (limbOf Left (prev (engineOf (computePunches frameA2 stateA1)))) =
     Some (now frameA2 + 250)
  /\ total (statsOf Left (engineOf (computePunches frameA2 stateA1))) =
     total (statsOf Left stateA1).
Proof.
  assert (H2 : forall g, In g [frameA3] -> now g < now frameA2 + 250).
  { intros g [<-|[]]. cbn [frameA3 frameA2 wristsAt mkFrame now]. lra. }
  split; [exact proposalsA2|]. split; [exact H2|].
  destruct (dropped_proposal_still_arms frameA2 stateA1 punchA2Left
              punchA2Right [frameA3] proposalsA2 H2) as (A & B & _).
  assert (Hg : Rgtb (power punchA2Right) (power punchA2Left) = true).
  { unfold Rgtb. apply Rltb_true. cbn [power punchA2Left punchA2Right]. lra. }
  rewrite Hg in B. split; [apply (A Left) | exact B].
Defined.

Lemma runA1 : run [frameA1] engine0 = stateA1.
Proof. unfold run. cbn [fold_left]. rewrite stepA1. reflexivity. Qed.

Lemma runC1 : run [frameC1] engine0 = stateA1.
Proof. unfold run. cbn [fold_left]. rewrite stepC1. reflexivity. Qed.

(** C6, as amended.  Once the two extensions of a limb exist they stay 0.04
    apart at least, whatever the frame does: early return, throw, unstable
    frame, tracked frame, raise after an accepted strike.  The update of a
    stable frame clamps the maximum to [rest + norm * 0.04] for the norm of
    that frame; the update of an unstable frame and a frame that returns at
    the shoulder checks leave both as they were; the raise after an accepted
    strike only increases the maximum and leaves the rest alone. *)
Theorem extension_floor_preserved (f : Frame) (e : Engine) :
  (forall s, extensionFloor (limbOf s (prev e))) ->
  (forall s, extensionFloor (limbOf s (prev (engineOf (computePunches f e)))))
  /\ (forall s tnow n d sh hand lp,
        exists rest maxExt,
          RestExtension (limbAfter (trackLimb s tnow n d true sh hand lp)) =
            Some rest
          /\ MaxExtension (limbAfter (trackLimb s tnow n d true sh hand lp)) =
             Some maxExt
          /\ rest + n * 0.04 <= maxExt)
  /\ (forall s tnow n d sh hand lp,
        RestExtension (limbAfter (trackLimb s tnow n d false sh hand lp)) =
          RestExtension lp
        /\ MaxExtension (limbAfter (trackLimb s tnow n d false sh hand lp)) =
           MaxExtension lp)
  /\ (forall e1, enterFrame f e = EarlyReturn e1 ->
        computePunches f e = Returned e1
        /\ forall s, limbOf s (prev e1) = limbOf s (prev e))
  /\ (forall c p e0 e1 maxExt,
        acceptPunch c f p e0 = Returned e1 ->
        MaxExtension (limbOf (side p) (prev e0)) = Some maxExt ->
        (exists raised,
           MaxExtension (limbOf (side p) (prev e1)) = Some raised
           /\ maxExt <= raised)
        /\ RestExtension (limbOf (side p) (prev e1)) =
           RestExtension (limbOf (side p) (prev e0))
        /\ limbOf (otherSide (side p)) (prev e1) =
           limbOf (otherSide (side p)) (prev e0)).
Proof.
  intros H. split; [|split; [|split; [|split]]].
  - destruct (frame_steps f e) as (oL & oR & _ & SL & SR).
    intros [|]; eapply LimbStep_floor; eauto.
  - intros. apply trackLimb_stable_extension. reflexivity.
  - intros.
    destruct (trackLimb_unstable s tnow n d false sh hand lp eq_refl)
      as (_ & _ & _ & A & B & _).
    split; assumption.
  - intros e1 E. unfold computePunches. rewrite E. split; [reflexivity|].
    pose proof (enterFrame_spec f e) as HS. rewrite E in HS.
    destruct HS as (HL & _). exact HL.
  - intros c p e0 e1 maxExt HA HM.
    pose proof (acceptPunch_spec c f p e0) as HS. rewrite HA in HS.
    destruct HS as ((reach & A1) & A2 & _).
    rewrite A1, HM. cbn [setMaxExtension MaxExtension RestExtension].
    rewrite orZero_some.
    split; [eexists; split; [reflexivity | apply Rmax_l]|].
    split; [reflexivity | exact A2].
Qed.

Lemma extension_floor_preserved_witness :
  (forall s, extensionFloor (limbOf s (prev stateA1)))
  /\ (forall s, extensionFloor
                  (limbOf s (prev (engineOf (computePunches frameD2 stateA1))))).
Proof.
  assert (H : forall s, extensionFloor (limbOf s (prev stateA1))).
  { intros [|]; unfold extensionFloor;
      cbn [stateA1 prev limbOf leftLimb rightLimb limbAtRest RestExtension
           MaxExtension]; lra. }
  split; [exact H|].
  exact (proj1 (extension_floor_preserved frameD2 stateA1 H)).
Defined.

(** C6, counterexample: after the stable [frameA1] (norm 1) the left limb
    has rest 0.3 and maximum 0.34; [frameD2] is unstable with norm 1.2 and
    leaves them there, below [rest + norm * 0.04 = 0.348]. *)
Lemma extension_clamp_not_rescaled :
  exists c e0 rest maxExt,
    enterFrame frameD2 (run [frameA1] engine0) = Enter c e0
    /\ torsoStable c = false
    /\ RestExtension
         (leftLimb (prev (run [frameA1; frameD2] engine0))) = Some rest
    /\ MaxExtension
         (leftLimb (prev (run [frameA1; frameD2] engine0))) = Some maxExt
    /\ maxExt < rest + norm c * 0.04.
Proof.
  destruct stepD2 as (c & e0 & e2 & E & S & N & R & Hr & Hm).
  exists c, e0, 0.3, 0.34.
  change (run [frameA1; frameD2] engine0)
    with (run [frameD2] (run [frameA1] engine0)).
  rewrite runA1. unfold run. cbn [fold_left]. rewrite R. cbn [engineOf].
  split; [exact E|]. split; [exact S|]. split; [exact Hr|]. split; [exact Hm|].
  rewrite N. lra.
Qed.

Lemma calibrationLatched_initial (stored : option Stored.rec) :
  calibrationLatched (initialEngine stored).
Proof.
  unfold calibrationLatched. cbn. split; discriminate.
Qed.

Lemma run_calibration (frames : list Frame) : forall e,
  calibrationLatched e ->
  calibrationLatched (run frames e)
  /\ (calibrationStatus e = Complete ->
      calibrationStatus (run frames e) = Complete).
Proof.
  induction frames as [|f tl IH]; intros e L; [split; [exact L | tauto]|].
  rewrite run_cons.
  destruct (frame_calibration f e) as (F1 & F2).
  destruct (IH _ (F1 L)) as (I1 & I2).
  split; [exact I1|]. intros C. apply I2, F2; assumption.
Qed.

(** C1, as amended: [Complete] is terminal.  On every run from the initial
    state, once the status is [Complete] it is [Complete] after every
    further frame. *)
Theorem complete_is_terminal (stored : option Stored.rec)
    (before after : list Frame) :
  calibrationStatus (run before (initialEngine stored)) = Complete ->
  calibrationStatus (run (before ++ after) (initialEngine stored)) = Complete.
Proof.
  intros C. rewrite run_app.
  destruct (run_calibration before _ (calibrationLatched_initial stored))
    as (L & _).
  destruct (run_calibration after _ L) as (_ & H). apply H, C.
Qed.

Lemma complete_is_terminal_witness :
  calibrationStatus (run [frameA1; frameA2] engine0) = Complete
  /\ calibrationStatus (run ([frameA1; frameA2] ++ [frameA3]) engine0) =
     Complete.
Proof.
  assert (H : calibrationStatus (run [frameA1; frameA2] engine0) = Complete).
  { change (run [frameA1; frameA2] engine0)
      with (run [frameA2] (run [frameA1] engine0)).
    rewrite runA1. unfold run. cbn [fold_left].
    destruct returnedA2 as (e2 & R & S & _). rewrite R. exact S. }
  split; [exact H|].
  exact (complete_is_terminal None [frameA1; frameA2] [frameA3] H).
Defined.

(** C1, counterexample: the left hand drifts out slowly ([frameB2]), which
    takes the status to [Collecting], then holds ([frameB3]): the learnt
    range shrinks to 0.07748 and the status is [Waiting] again. *)
Lemma collecting_returns_to_waiting :
  calibrationStatus (run [frameA1; frameB2] engine0) = Collecting
  /\ calibrationStatus (run [frameA1; frameB2; frameB3] engine0) = Waiting.
Proof.
  change (run [frameA1; frameB2] engine0)
    with (run [frameB2] (run [frameA1] engine0)).
  change (run [frameA1; frameB2; frameB3] engine0)
    with (run [frameB2; frameB3] (run [frameA1] engine0)).
  rewrite runA1. unfold run. cbn [fold_left]. rewrite stepB2. cbn [engineOf].
  split; [reflexivity|].
  destruct stepB3 as (e3 & R & S). rewrite R. exact S.
Qed.

(** C2, the failing input: with no left wrist keypoint the left limb is
    tracked by its elbow; when the elbow is thrown forward the limb's strike
    is accepted, and the acceptance loop reads [lw.x] on [undefined]. *)
Theorem elbow_strike_throws :
  getKeypoint (keypoints (pose frameC2)) "left_wrist" = None
  /\ exists e2,
       computePunches frameC2 (run [frameC1] engine0) =
       Threw (TypeError "Cannot read properties of undefined (reading 'x')") e2.
Proof.
  split; [reflexivity|]. rewrite runC1. exact stepC2.
Qed.

Lemma proposalsC2 : proposals frameC2 stateA1 = [punchA2Left].
Proof. run_frame. same_value. Qed.

(** C3, the failing input: in [frameC2] after [frameC1] exactly one limb,
    the left one, proposes a strike; its wrist keypoint is absent, the
    acceptance loop throws on [lw.x], and the strike is neither counted nor
    pushed on a history. *)
Theorem single_proposal_not_counted :
  exists e2,
    proposals frameC2 (run [frameC1] engine0) = [punchA2Left]
    /\ side punchA2Left = Left
    /\ getKeypoint (keypoints (pose frameC2)) "left_wrist" = None
    /\ computePunches frameC2 (run [frameC1] engine0) =
       Threw (TypeError "Cannot read properties of undefined (reading 'x')") e2
    /\ total (leftStats e2) = 0%Z /\ total (rightStats e2) = 0%Z
    /\ leftHistory e2 = [] /\ rightHistory e2 = [].
Proof.
  rewrite runC1. destruct stepC2 as (e2 & R). exists e2.
  split; [exact proposalsC2|]. split; [reflexivity|]. split; [reflexivity|].
  split; [exact R|].
  pose proof (frame_scores frameC2 stateA1) as HS. cbv zeta in HS.
  rewrite R in HS. cbn [engineOf] in HS.
  destruct HS as [((HH & HT) & _)|(q & _ & C & _)]; [|discriminate].
  pose proof (HT Left) as TL. pose proof (HT Right) as TR.
  pose proof (HH Left) as HL. pose proof (HH Right) as HR.
  cbn [statsOf historyOf] in TL, TR, HL, HR.
  rewrite TL, TR, HL, HR. repeat split.
Qed.

(** C5, the failing input: a first frame without left wrist and left elbow.
    The branch that should report "hand keypoint missing" throws: the left
    diagnostics keep their initial reason, the right limb is not reached,
    and nothing is proposed. *)
Theorem missing_hand_throws :
  resolveHand (getKeypoint (keypoints (pose frameE1)) "left_wrist")
    (getKeypoint (keypoints (pose frameE1)) "left_elbow")
    (wristPos (leftLimb (prev engine0))) = None
  /\ proposals frameE1 engine0 = []
  /\ exists e1,
       computePunches frameE1 engine0 =
       Threw (ReferenceError "rangeNormKey") e1
       /\ Dbg.reasons (leftDebug e1) = [Text "waiting"]
       /\ Dbg.reasons (rightDebug e1) = [Text "waiting"].
Proof.
  split; [reflexivity|]. split; [exact proposalsE1|].
  destruct stepE1 as (e1 & R & D & D'). exists e1. split; [exact R|].
  rewrite D, D'. split; reflexivity.
Qed.

(** * More of the tracker *)

(** ** The bounded history *)

Lemma pushBounded_length_eq (cap : nat) (l : list R) (v : R) :
  (List.length l <= cap)%nat ->
  List.length (pushBounded cap l v) = Nat.min cap (S (List.length l)).
Proof.
  intros H. unfold pushBounded. cbv zeta. rewrite length_app. cbn [List.length].
  destruct (Nat.ltb cap (List.length l + 1)) eqn:E.
  - apply Nat.ltb_lt in E. destruct l; cbn [app tl List.length] in *; [lia|].
    rewrite length_app. cbn [List.length]. lia.
  - apply Nat.ltb_ge in E. rewrite length_app. cbn [List.length]. lia.
Qed.

Lemma pushBounded_length (cap : nat) (l : list R) (v : R) :
  (List.length l <= cap)%nat -> (List.length (pushBounded cap l v) <= cap)%nat.
Proof. intros H. rewrite pushBounded_length_eq by exact H. lia. Qed.

Lemma pushBounded_In (cap : nat) (l : list R) (v w : R) :
  In w (pushBounded cap l v) -> In w l \/ w = v.
Proof.
  unfold pushBounded. cbv zeta.
  destruct (Nat.ltb cap _).
  - destruct l as [|h rest]; cbn [app tl]; [intros []|].
    intros H. apply in_app_or in H. destruct H as [H|[H|[]]]; [|right; auto].
    left. right. exact H.
  - intros H. apply in_app_or in H. destruct H as [H|[H|[]]]; auto.
Qed.

(** X1: pushing onto a history of at most [cap] values keeps the last [cap]
    values of the extended list: the value is appended while there is room,
    and on a full history the oldest value is dropped first. *)
Theorem pushBounded_fifo (cap : nat) (l : list R) (v : R) :
  (List.length l <= cap)%nat ->
  pushBounded cap l v = sliceLast cap (l ++ [v])
  /\ (List.length (pushBounded cap l v) <= cap)%nat
  /\ ((List.length l < cap)%nat -> pushBounded cap l v = l ++ [v])
  /\ ((List.length l = cap)%nat -> (0 < cap)%nat ->
      pushBounded cap l v = tl l ++ [v]).
Proof.
  intros H. split; [|split; [apply pushBounded_length, H|]].
  - unfold pushBounded, sliceLast. cbv zeta.
    rewrite length_app. cbn [List.length].
    destruct (Nat.ltb cap (List.length l + 1)) eqn:E.
    + apply Nat.ltb_lt in E.
      replace (List.length l + 1 - cap)%nat with 1%nat by lia. reflexivity.
    + apply Nat.ltb_ge in E.
      replace (List.length l + 1 - cap)%nat with 0%nat by lia. reflexivity.
  - unfold pushBounded. cbv zeta. rewrite length_app. cbn [List.length].
    split.
    + intros Hl. destruct (Nat.ltb cap (List.length l + 1)) eqn:E;
        [apply Nat.ltb_lt in E; lia | reflexivity].
    + intros Hl Hp. destruct (Nat.ltb cap (List.length l + 1)) eqn:E;
        [|apply Nat.ltb_ge in E; lia].
      destruct l; cbn [List.length] in *; [lia | reflexivity].
Qed.

Lemma pushBounded_fifo_witness :
  (List.length [1; 2; 3] <= 3)%nat
  /\ pushBounded 3 [1; 2; 3] 4 = [2; 3; 4].
Proof.
  assert (H : (List.length [1; 2; 3] <= 3)%nat) by (cbn; lia).
  split; [exact H|].
  destruct (pushBounded_fifo 3 [1; 2; 3] 4 H) as (_ & _ & _ & E).
  rewrite E by (cbn; lia). reflexivity.
Defined.

(** ** The percentile and the percent *)

Lemma percentile_nth (v : R) (arr : list R) (p : R) :
  exists i, (i < List.length (v :: arr))%nat
            /\ percentile (v :: arr) p = nth i (sort (v :: arr)) 0.
Proof.
  unfold percentile. cbv zeta.
  set (a := sort (v :: arr)).
  assert (Hl : List.length a = S (List.length arr)).
  { unfold a. rewrite sort_length. reflexivity. }
  set (len := Z.of_nat (List.length a)).
  set (i := Z.min (len - 1) (Z.max 0 (Math_floor (p * IZR (len - 1))))).
  exists (Z.to_nat i). split; [|reflexivity].
  cbn [List.length]. unfold i, len. rewrite Hl. lia.
Qed.

Lemma percentile_In (v : R) (arr : list R) (p : R) :
  In (percentile (v :: arr) p) (v :: arr).
Proof.
  destruct (percentile_nth v arr p) as (i & Hi & ->).
  apply (Permutation_in _ (Permutation_sym (sort_perm (v :: arr)))).
  apply nth_In. rewrite sort_length. exact Hi.
Qed.

Lemma sorted_nth_le (l : list R) :
  Sorted Rle l ->
  forall i j, (i <= j < List.length l)%nat -> nth i l 0 <= nth j l 0.
Proof.
  intros Hs. apply Sorted_StronglySorted in Hs; [|intros x y z; apply Rle_trans].
  induction Hs as [|h tl Hs IH Hf]; intros i j Hij; [cbn in Hij; lia|].
  destruct i as [|i], j as [|j]; cbn [nth List.length] in *; try lia.
  - lra.
  - rewrite Forall_forall in Hf. apply Hf, nth_In. lia.
  - apply IH. lia.
Qed.

(** X2: whatever [p] is, the percentile of a non-empty array is one of its
    elements; [p = 0] gives a smallest one and [p = 1] a largest one. *)
Theorem percentile_member (v : R) (arr : list R) (p : R) :
  In (percentile (v :: arr) p) (v :: arr)
  /\ (forall w, In w (v :: arr) ->
        percentile (v :: arr) 0 <= w <= percentile (v :: arr) 1).
Proof.
  split; [apply percentile_In|].
  intros w Hw.
  apply (Permutation_in _ (sort_perm (v :: arr))) in Hw.
  apply (In_nth _ _ 0) in Hw. destruct Hw as (k & Hk & <-).
  pose proof (sort_sorted (v :: arr)) as Hs.
  assert (Hl : List.length (sort (v :: arr)) = S (List.length arr))
    by (rewrite sort_length; reflexivity).
  unfold percentile. cbv zeta. rewrite Hl.
  replace (Math_floor (0 * _)) with 0%Z
    by (symmetry; apply Math_floor_unique; simpl; lra).
  replace (Math_floor (1 * IZR (Z.of_nat (S (List.length arr)) - 1)))
    with (Z.of_nat (S (List.length arr)) - 1)%Z
    by (symmetry; apply Math_floor_unique; lra).
  split; apply sorted_nth_le; try exact Hs; rewrite Hl in *; lia.
Qed.

Lemma percentile_singleton (v p : R) : percentile [v] p = v.
Proof.
  destruct (percentile_In v [] p) as [H|[]]. symmetry. exact H.
Qed.

Lemma Math_round_IZR (z : Z) : Math_round (IZR z) = z.
Proof. apply Math_round_unique. lra. Qed.

Lemma Math_round_mono (a b : R) : a <= b -> (Math_round a <= Math_round b)%Z.
Proof.
  intros H. pose proof (Math_round_spec a). pose proof (Math_round_spec b).
  apply Z.lt_succ_r. apply lt_IZR. rewrite succ_IZR. lra.
Qed.

(** X3: the marks of the percent score. With [b] the baseline after its 0.001
    floor, a power equal to [b] scores 100, a power of one and a half times
    [b] or more scores the cap of 150, and a power of 0 or less scores 0. *)
Theorem computePercent_marks (pw : R) (hist : list R) :
  let b := Rmax (1 / 1000) (baseline pw hist) in
  (pw = b -> computePercent pw hist = 100%Z)
  /\ (3 / 2 * b <= pw -> computePercent pw hist = 150%Z)
  /\ (pw <= 0 -> computePercent pw hist = 0%Z).
Proof.
  intros b. assert (Hb : 0 < b).
  { unfold b. pose proof (Rmax_l (1 / 1000) (baseline pw hist)). lra. }
  unfold computePercent. cbv zeta. fold b. clearbody b.
  split; [|split]; intros H.
  - subst pw. replace (b / b * 100) with (IZR 100) by (field; lra).
    rewrite Math_round_IZR. reflexivity.
  - assert (Hr : (150 <= Math_round (pw / b * 100))%Z).
    { rewrite <- (Math_round_IZR 150). apply Math_round_mono.
      apply Rmult_le_reg_r with b; [exact Hb|].
      replace (pw / b * 100 * b) with (pw * 100) by (field; lra). lra. }
    lia.
  - assert (Hr : (Math_round (pw / b * 100) <= 0)%Z).
    { rewrite <- (Math_round_IZR 0). apply Math_round_mono.
      apply Rmult_le_reg_r with b; [exact Hb|].
      replace (pw / b * 100 * b) with (pw * 100) by (field; lra). lra. }
    lia.
Qed.

Lemma maxOf_le (hist : list R) (pw : R) :
  (forall w, In w hist -> w <= pw) -> maxOf hist pw = pw.
Proof.
  unfold maxOf. induction hist as [|h tl IH]; intros H; cbn [fold_right];
    [reflexivity|].
  rewrite IH by (intros w Hw; apply H; right; exact Hw).
  apply Rmax_right. apply H. left. reflexivity.
Qed.

Lemma computePercent_best (pw : R) (hist : list R) :
  1 / 1000 <= pw ->
  (forall w, In w hist -> w <= pw) ->
  (100 <= computePercent pw hist <= 150)%Z.
Proof.
  intros Hp Hall.
  assert (Hb : baseline pw hist <= pw).
  { unfold baseline, orElse.
    destruct (Reqb (percentile hist PERCENTILE) 0) eqn:E.
    - rewrite maxOf_le by exact Hall. lra.
    - destruct hist as [|v arr]; [cbn [percentile]; lra|].
      apply Hall. apply percentile_In. }
  unfold computePercent. cbv zeta.
  set (b := Rmax (1 / 1000) (baseline pw hist)).
  assert (Hb0 : 0 < b)
    by (unfold b; pose proof (Rmax_l (1 / 1000) (baseline pw hist)); lra).
  assert (Hb1 : b <= pw) by (unfold b; apply Rmax_lub; lra).
  assert (Hr : (100 <= Math_round (pw / b * 100))%Z).
  { rewrite <- (Math_round_IZR 100) at 1. apply Math_round_mono.
    apply Rmult_le_reg_r with b; [exact Hb0|].
    replace (pw / b * 100 * b) with (pw * 100) by (field; lra). lra. }
  lia.
Qed.

Lemma computePercent_first (pw : R) :
  1 / 1000 <= pw -> computePercent pw [pw] = 100%Z.
Proof.
  intros Hp. unfold computePercent, baseline, orElse. cbv zeta.
  rewrite percentile_singleton. rewrite Reqb_false by lra.
  rewrite Rmax_right by lra.
  replace (pw / pw * 100) with (IZR 100) by (field; lra).
  rewrite Math_round_IZR. reflexivity.
Qed.

(** ** The average percent *)

Lemma fold_left_Rplus (l : list R) : forall a,
  fold_left Rplus l a = a + fold_left Rplus l 0.
Proof.
  induction l as [|h tl IH]; intros a; cbn [fold_left]; [lra|].
  rewrite (IH (a + h)), (IH (0 + h)). lra.
Qed.

Lemma sum_bounds (lo hi : R) (l : list R) :
  Forall (fun w => lo <= w <= hi) l ->
  lo * INR (List.length l) <= fold_left Rplus l 0 <= hi * INR (List.length l).
Proof.
  induction 1 as [|h tl Hh Ht IH].
  - cbn. lra.
  - cbn [fold_left]. rewrite fold_left_Rplus.
    change (List.length (h :: tl)) with (S (List.length tl)).
    rewrite S_INR. lra.
Qed.

Lemma sliceLast_incl {A : Type} (n : nat) (l : list A) : incl (sliceLast n l) l.
Proof.
  intros a Ha. destruct (sliceLast_suffix n l) as (d & Hd).
  rewrite Hd. apply in_or_app. right. exact Ha.
Qed.

Lemma averageOf_between (lo hi : R) (v : R) (arr : list R) :
  Forall (fun w => lo <= w <= hi) (v :: arr) ->
  lo <= averageOf (v :: arr) <= hi.
Proof.
  intros H. unfold averageOf. cbv zeta.
  assert (Hs : Forall (fun w => lo <= w <= hi) (sliceLast AVG_WINDOW (v :: arr))).
  { rewrite Forall_forall in *. intros w Hw. apply H.
    apply (sliceLast_incl AVG_WINDOW). exact Hw. }
  assert (Hn : sliceLast AVG_WINDOW (v :: arr) <> []).
  { unfold sliceLast. intros E. apply (f_equal (@List.length R)) in E.
    rewrite length_skipn in E. cbn [List.length] in E. unfold AVG_WINDOW in E. lia. }
  destruct (sliceLast AVG_WINDOW (v :: arr)) as [|h tl] eqn:E; [contradiction|].
  pose proof (sum_bounds lo hi (h :: tl) Hs) as (A & B).
  assert (Hp : 0 < INR (List.length (h :: tl))).
  { apply lt_0_INR. cbn. lia. }
  split.
  - apply Rmult_le_reg_r with (INR (List.length (h :: tl))); [exact Hp|].
    unfold Rdiv. rewrite Rmult_assoc, Rinv_l by lra. lra.
  - apply Rmult_le_reg_r with (INR (List.length (h :: tl))); [exact Hp|].
    unfold Rdiv. rewrite Rmult_assoc, Rinv_l by lra. lra.
Qed.

Lemma sliceLast_app_exact {A : Type} (n : nat) (older recent : list A) :
  List.length recent = n -> sliceLast n (older ++ recent) = recent.
Proof.
  intros H. unfold sliceLast. rewrite length_app.
  replace (List.length older + List.length recent - n)%nat
    with (List.length older) by lia.
  rewrite skipn_app, skipn_all, Nat.sub_diag. reflexivity.
Qed.

(** X4: whenever the average of a side is computed (a memo that runs again
    when the side's total changes), it is computed from the last ten powers
    of the history as it is then: older values in front of ten change
    nothing; an empty history averages 0 and a single power averages
    itself. *)
Theorem averageOf_window (older recent : list R) (v : R) :
  averageOf [] = 0
  /\ averageOf [v] = v
  /\ (List.length recent = AVG_WINDOW ->
      averageOf (older ++ recent) = averageOf recent).
Proof.
  split; [reflexivity|]. split.
  - cbv [averageOf sliceLast AVG_WINDOW skipn List.length Nat.sub fold_left INR].
    lra.
  - intros H. unfold averageOf. cbv zeta.
    rewrite (sliceLast_app_exact _ older recent H).
    rewrite sliceLast_short by lia. reflexivity.
Qed.

Lemma averageOf_window_witness :
  averageOf ([100; 90] ++ [1; 2; 3; 1; 2; 3; 1; 2; 3; 2]) =
  averageOf [1; 2; 3; 1; 2; 3; 1; 2; 3; 2].
Proof.
  exact (proj2 (proj2 (averageOf_window [100; 90]
                         [1; 2; 3; 1; 2; 3; 1; 2; 3; 2] 0)) eq_refl).
Defined.

(** X5: the average percent is within 0 and 150; it is 0 for an empty history
    and 100 for a history of equal powers of 0.001 at least. *)
Theorem averagePercent_range (hist : list R) :
  (0 <= averagePercent hist <= 150)%Z
  /\ averagePercent [] = 0%Z
  /\ (forall v arr, 1 / 1000 <= v -> Forall (fun w => w = v) arr ->
        averagePercent (v :: arr) = 100%Z).
Proof.
  split; [|split].
  - unfold averagePercent. cbv zeta. destruct (Reqb _ 0); lia.
  - unfold averagePercent. cbn [percentile]. rewrite Reqb_true by reflexivity.
    reflexivity.
  - intros v arr Hv Ha.
    assert (Hall : Forall (fun w => v <= w <= v) (v :: arr)).
    { constructor; [lra|]. rewrite Forall_forall in *. intros w Hw.
      rewrite (Ha w Hw). lra. }
    pose proof (averageOf_between v v v arr Hall) as Hav.
    pose proof (percentile_In v arr PERCENTILE) as Hin.
    rewrite Forall_forall in Hall. pose proof (Hall _ Hin) as Hp.
    assert (Ep : percentile (v :: arr) PERCENTILE = v) by lra.
    assert (Ea : averageOf (v :: arr) = v) by lra.
    unfold averagePercent. cbv zeta. rewrite Ep, Ea.
    rewrite Reqb_false by lra. rewrite Rmax_right by lra.
    replace (v / v * 100) with (IZR 100) by (field; lra).
    rewrite Math_round_IZR. reflexivity.
Qed.

(** ** The motion estimate *)

Lemma motion_nonneg (vnorm vdt : R) (sh hand : Kp.t) (lp : LimbPrev) :
  0 < vnorm -> 0 < vdt ->
  let m := motionOf vnorm vdt sh hand lp in
  0 <= Motion.speedFwd m /\ 0 <= Motion.speed m.
Proof.
  intros Hn Hd. unfold motionOf. cbv zeta. cbn [Motion.speedFwd Motion.speed].
  assert (Hi : 0 < / vnorm) by (apply Rinv_0_lt_compat; exact Hn).
  assert (Hj : 0 < / vdt) by (apply Rinv_0_lt_compat; exact Hd).
  unfold distance. cbv zeta. unfold Rdiv. split.
  - apply Rmult_le_pos; [apply Rmult_le_pos|]; try lra. apply Rmax_l.
  - apply Rmult_le_pos; [apply Rmult_le_pos|]; try lra.
    apply Math_hypot_nonneg.
Qed.

Lemma enterFrame_scale (f : Frame) (e : Engine) (c : Ctx) (e0 : Engine) :
  enterFrame f e = Enter c e0 -> 1 <= norm c /\ 1 / 120 <= dt c.
Proof.
  unfold enterFrame. cbv zeta.
  destruct (getKeypoint _ "left_shoulder") as [kls|]; [|discriminate].
  destruct (getKeypoint _ "right_shoulder") as [krs|]; [|discriminate].
  destruct (_ || _); [discriminate|].
  intros H. injection H as <- _. cbn [norm dt]. split; apply Rmax_r.
Qed.

(** X6: past the shoulder checks the body scale is 1 at least and the time
    step 1/120 s at least, so no speed divides by zero; and for any hand
    neither the raw speed nor the forward speed is negative. *)
Theorem speeds_never_negative (f : Frame) (e : Engine) (c : Ctx) (e0 : Engine)
    (sh hand : Kp.t) (lp : LimbPrev) :
  enterFrame f e = Enter c e0 ->
  let m := motionOf (norm c) (dt c) sh hand lp in
  1 <= norm c /\ 1 / 120 <= dt c
  /\ 0 <= Motion.speedFwd m /\ 0 <= Motion.speed m.
Proof.
  intros E m. destruct (enterFrame_scale f e c e0 E) as (Hn & Hd).
  split; [exact Hn|]. split; [exact Hd|].
  apply motion_nonneg; lra.
Qed.

Lemma speeds_never_negative_witness :
  exists c e0,
    enterFrame frameA1 engine0 = Enter c e0
    /\ 1 <= norm c /\ 1 / 120 <= dt c.
Proof.
  destruct (enterFrame frameA1 engine0) as [e1|c e0] eqn:E.
  - exfalso. revert E. unfold_frames. unfold enterFrame. cbv zeta.
    unfold_step. repeat Rstep. cbn [orb]. discriminate.
  - exists c, e0. split; [reflexivity|].
    destruct (speeds_never_negative frameA1 engine0 c e0 (ls c) (ls c) noLimb E)
      as (A & B & _).
    split; assumption.
Defined.

(** ** A limb seen for the first time *)

(** X7: a limb with no previous distance to the shoulder (one seen for the
    first time) counts as moving neither forward nor backward, so it
    proposes nothing and keeps its cooldown; on a stable frame with no
    extensions yet, the rest extension becomes the current distance to the
    shoulder and the maximum [norm * 0.04] above it. *)
Theorem first_sight_seeds (s : WristSide) (tnow vnorm vdt : R) (stable : bool)
    (sh hand : Kp.t) (lp : LimbPrev) :
  DistToShoulder lp = None -> 0 <= vnorm ->
  let m := motionOf vnorm vdt sh hand lp in
  let r := trackLimb s tnow vnorm vdt stable sh hand lp in
  Motion.movingForward m = false
  /\ Motion.movingBackward m = false
  /\ proposal r = None
  /\ CooldownUntil (limbAfter r) = CooldownUntil lp
  /\ DistToShoulder (limbAfter r) = Some (Motion.distToShoulder m)
  /\ (stable = true -> RestExtension lp = None -> MaxExtension lp = None ->
      RestExtension (limbAfter r) = Some (Motion.distToShoulder m)
      /\ MaxExtension (limbAfter r) =
         Some (Motion.distToShoulder m + vnorm * 0.04)).
Proof.
  intros HD Hn m r.
  set (gate := Rmax (vnorm * 0.003)
                 ((Motion.maxExt m - Motion.rest m) * 0.03)).
  assert (Hg : 0 <= gate).
  { unfold gate. eapply Rle_trans; [|apply Rmax_l]. lra. }
  assert (Hmf : Motion.movingForward m = false).
  { assert (H : Motion.movingForward m =
                Rgtb (Motion.speedFwd m)
                  (if truthy (RangeNorm lp) then 0.3 else 0.15)
                && Rgtb (match DistToShoulder lp with
                         | Some d => Motion.distToShoulder m - d
                         | None => 0
                         end) gate)
      by reflexivity.
    rewrite H, HD. unfold Rgtb at 2. rewrite (Rltb_false gate 0) by exact Hg.
    apply andb_false_r. }
  assert (Hmb : Motion.movingBackward m = false).
  { assert (H : Motion.movingBackward m =
                Rltb (match DistToShoulder lp with
                      | Some d => Motion.distToShoulder m - d
                      | None => 0
                      end) (- gate)
                && Rltb (Motion.speedFwd m) 0.2)
      by reflexivity.
    rewrite H, HD. rewrite (Rltb_false 0 (- gate)) by lra. reflexivity. }
  assert (Hfire : Det.fires (detectorOf tnow vnorm m (extensionOf vnorm m lp) lp)
                  = false).
  { unfold detectorOf. cbv zeta. cbn [Det.fires]. rewrite Hmf.
    rewrite !andb_false_r. reflexivity. }
  split; [exact Hmf|]. split; [exact Hmb|].
  unfold r, trackLimb. cbv zeta. fold m.
  destruct stable; cbn [negb limbAfter proposal CooldownUntil DistToShoulder
                        RestExtension MaxExtension].
  - rewrite Hfire.
    split; [reflexivity|]. split; [reflexivity|]. split; [reflexivity|].
    intros _ HR HM.
    assert (Hr : Motion.rest m = Motion.distToShoulder m).
    { assert (H : Motion.rest m =
                  nullish (RestExtension lp) (Motion.distToShoulder m))
        by reflexivity.
      rewrite H, HR. reflexivity. }
    assert (Hx : Motion.maxExt m = Motion.distToShoulder m).
    { assert (H : Motion.maxExt m =
                  nullish (MaxExtension lp) (Motion.distToShoulder m))
        by reflexivity.
      rewrite H, HM. reflexivity. }
    assert (Hrest : Ext.rest (extensionOf vnorm m lp) = Motion.distToShoulder m).
    { unfold extensionOf. cbv zeta. cbn [Ext.rest]. rewrite Hmf. cbn [negb orb].
      rewrite Hr. rewrite Rltb_false by lra. lra. }
    split; [rewrite Hrest; reflexivity|].
    unfold extensionOf. cbv zeta. cbn [Ext.maxExt]. rewrite Hmf.
    cbn [negb orb andb]. rewrite Hr, Hx. rewrite Rltb_false by lra.
    f_equal. rewrite Rmax_right by lra. lra.
  - split; [reflexivity|]. split; [reflexivity|]. split; [reflexivity|].
    discriminate.
Qed.

Lemma first_sight_seeds_witness :
  DistToShoulder noLimb = None /\ 0 <= 1
  /\ proposal (trackLimb Left 1000 1 (1 / 120) true
                 (keypoint "left_shoulder" 0 0)
                 (keypoint "left_wrist" (-0.3) 0) noLimb) = None.
Proof.
  assert (H : 0 <= 1) by lra.
  split; [reflexivity|]. split; [exact H|].
  exact (proj1 (proj2 (proj2
           (first_sight_seeds Left 1000 1 (1 / 120) true
              (keypoint "left_shoulder" 0 0)
              (keypoint "left_wrist" (-0.3) 0) noLimb eq_refl H)))).
Defined.
(** ** The detector as a two-state machine *)

(** X8: on a stable frame, a limb whose strike flag is set proposes nothing,
    keeps its cooldown, and clears the flag exactly when it moves backward or
    is within the reset distance; a limb whose flag is clear sets it exactly
    when the detector fires, and then proposes. *)
Theorem detector_transitions (s : WristSide) (tnow vnorm vdt : R)
    (sh hand : Kp.t) (lp : LimbPrev) :
  let m := motionOf vnorm vdt sh hand lp in
  let x := extensionOf vnorm m lp in
  let d := detectorOf tnow vnorm m x lp in
  let r := trackLimb s tnow vnorm vdt true sh hand lp in
  let leaves := Motion.movingBackward m
                || Rleb (Motion.distToShoulder m)
                     (Ext.rest x + Ext.extensionRange x * 0.25) in
  (flag (PunchDetected lp) = true ->
     proposal r = None
     /\ CooldownUntil (limbAfter r) = CooldownUntil lp
     /\ PunchDetected (limbAfter r) =
        (if leaves then Some false else PunchDetected lp))
  /\ (flag (PunchDetected lp) = false ->
        PunchDetected (limbAfter r) =
          (if Det.fires d then Some true else PunchDetected lp)
        /\ proposal r =
           (if Det.fires d
            then Some {| side := s; speed := Motion.speedFwd m;
                         power := Det.currentPower d |}
            else None)).
Proof.
  intros m x d r leaves.
  assert (Hpa : Det.punchActive d = flag (PunchDetected lp)) by reflexivity.
  assert (Hrd : Det.resetDist d = Ext.rest x + Ext.extensionRange x * 0.25)
    by reflexivity.
  unfold r, trackLimb. cbv zeta. cbn [negb limbAfter proposal PunchDetected CooldownUntil].
  fold m. fold x. fold d. unfold flagAfter. rewrite Hpa, Hrd. fold leaves.
  split; intros Hf; rewrite Hf.
  - assert (Hfire : Det.fires d = false).
    { unfold d, detectorOf. cbv zeta. cbn [Det.fires]. rewrite Hf. reflexivity. }
    rewrite Hfire. cbn [andb]. repeat split.
  - cbn [andb]. split; reflexivity.
Qed.

(** ** What a proposal carries *)

Lemma trackLimb_proposal_strength (s : WristSide) (tnow n d : R) (stable : bool)
    (sh hand : Kp.t) (lp : LimbPrev) (p : Punch) :
  proposal (trackLimb s tnow n d stable sh hand lp) = Some p ->
  0.6 <= speed p
  /\ 0.4 * speed p <= power p <= 1.6 * speed p.
Proof.
  unfold trackLimb. cbv zeta. destruct stable; cbn [negb proposal]; [|discriminate].
  set (m := motionOf n d sh hand lp). set (x := extensionOf n m lp).
  destruct (Det.fires (detectorOf tnow n m x lp)) eqn:F; [|discriminate].
  intros H. assert (Hp : p = {| side := s; speed := Motion.speedFwd m;
                                power := Det.currentPower (detectorOf tnow n m x lp) |})
    by congruence.
  subst p. cbn [speed power].
  apply (proj1 (detector_fires tnow n m x lp)) in F.
  destruct F as (_ & _ & _ & _ & Hs & _).
  unfold detectorOf in *. cbv zeta in *. cbn [Det.speedThreshold Det.currentPower] in *.
  assert (H6 : 0.6 <= Motion.speedFwd m).
  { eapply Rle_trans; [apply Rmax_l | exact Hs]. }
  split; [exact H6|].
  set (k := Rmax 0.4 (Rmin 1.6 (Motion.distToShoulder m / n))).
  assert (Hk : 0.4 <= k <= 1.6).
  { unfold k. split; [apply Rmax_l|]. apply Rmax_lub; [lra | apply Rmin_l]. }
  nra.
Qed.

Lemma proposals_strong (f : Frame) (e : Engine) (p : Punch) :
  In p (proposals f e) ->
  0.6 <= speed p /\ 0.4 * speed p <= power p <= 1.6 * speed p.
Proof.
  intros Hin.
  destruct (frame_steps f e) as (oL & oR & HP & SL & SR).
  rewrite HP in Hin. apply in_app_or in Hin.
  assert (Hgen : forall s lp lp' o, LimbStep s (now f) lp lp' o -> o = Some p ->
                 0.6 <= speed p /\ 0.4 * speed p <= power p <= 1.6 * speed p).
  { intros s lp lp' o HS Ho. destruct HS; subst.
    - discriminate.
    - eapply trackLimb_proposal_strength; eassumption.
    - eapply trackLimb_proposal_strength; eassumption. }
  assert (H : 0.6 <= speed p /\ 0.4 * speed p <= power p <= 1.6 * speed p).
  { destruct Hin as [Hin|Hin]; apply optList_In in Hin.
    - exact (Hgen _ _ _ _ SL Hin).
    - exact (Hgen _ _ _ _ SR Hin). }
  exact H.
Qed.

(** X9: every proposal of every frame has a forward speed of 0.6 at least and
    a power between 0.4 and 1.6 times that speed, hence of 0.24 at least. *)
Theorem proposal_strength (f : Frame) (e : Engine) (p : Punch) :
  In p (proposals f e) ->
  0.6 <= speed p
  /\ 0.4 * speed p <= power p <= 1.6 * speed p
  /\ 0.24 <= power p.
Proof.
  intros Hin. destruct (proposals_strong f e p Hin) as (A & B & C).
  repeat split; try assumption. lra.
Qed.

Lemma proposal_strength_witness :
  In punchA2Left (proposals frameA2 stateA1)
  /\ 0.24 <= power punchA2Left.
Proof.
  assert (H : In punchA2Left (proposals frameA2 stateA1)).
  { rewrite proposalsA2. left. reflexivity. }
  split; [exact H|].
  exact (proj2 (proj2 (proposal_strength frameA2 stateA1 punchA2Left H))).
Defined.

(** ** Limb invariants *)

Lemma LimbStep_invariant (I : LimbPrev -> Prop) :
  (forall s tnow n d stable sh hand lp,
     1 <= n -> I lp -> I (limbAfter (trackLimb s tnow n d stable sh hand lp))) ->
  (forall v lp, I lp -> I (setMaxExtension v lp)) ->
  forall s tnow lp lp' o, LimbStep s tnow lp lp' o -> I lp -> I lp'.
Proof.
  intros Ht Hm s tnow lp lp' o HS Hi. destruct HS; auto.
Qed.

Lemma frame_limb_invariant (I : LimbPrev -> Prop) :
  (forall s tnow n d stable sh hand lp,
     1 <= n -> I lp -> I (limbAfter (trackLimb s tnow n d stable sh hand lp))) ->
  (forall v lp, I lp -> I (setMaxExtension v lp)) ->
  forall frames e,
    (forall s, I (limbOf s (prev e))) ->
    forall s, I (limbOf s (prev (run frames e))).
Proof.
  intros Ht Hm. induction frames as [|f tl IH]; intros e He; [exact He|].
  rewrite run_cons. apply IH.
  destruct (frame_steps f e) as (oL & oR & _ & SL & SR).
  intros [|]; eapply LimbStep_invariant; eauto.
Qed.

Lemma extension_range_pos (n : R) (m : Motion.t) (lp : LimbPrev) :
  1 <= n -> 0 < Ext.extensionRange (extensionOf n m lp) / n.
Proof.
  intros Hn. unfold extensionOf. cbv zeta. cbn [Ext.extensionRange].
  apply Rdiv_lt_0_compat; [|lra].
  eapply Rlt_le_trans; [|apply Rmax_r]. lra.
Qed.

Lemma motion_speedHistory (n d : R) (sh hand : Kp.t) (lp : LimbPrev) :
  match SpeedHistory lp with
  | Some h => (List.length h <= 5)%nat
  | None => True
  end ->
  (List.length (Motion.speedHistory (motionOf n d sh hand lp)) <= 5)%nat.
Proof.
  intros H. unfold motionOf. cbv zeta. cbn [Motion.speedHistory].
  apply pushBounded_length. destruct (SpeedHistory lp); cbn [nullish]; [exact H|].
  cbn. lia.
Qed.

(** X10: along any run, the learnt range of a limb, once set, stays
    positive (so [prev[rangeNormKey]] stays truthy), and its speed history
    never holds more than five values. *)
Theorem limb_bounds_kept (frames : list Frame) (e : Engine) :
  (forall s, limbBounded (limbOf s (prev e))) ->
  forall s, limbBounded (limbOf s (prev (run frames e))).
Proof.
  apply (frame_limb_invariant limbBounded).
  - intros s tnow n d stable sh hand lp Hn (HR & HS).
    unfold limbBounded, trackLimb. cbv zeta.
    destruct stable; cbn [negb limbAfter RangeNorm SpeedHistory].
    + split; [apply extension_range_pos, Hn | apply motion_speedHistory, HS].
    + split; [exact HR | apply motion_speedHistory, HS].
  - intros v lp H. exact H.
Qed.

Lemma limb_bounds_kept_witness :
  (forall s, limbBounded (limbOf s (prev engine0)))
  /\ forall s, limbBounded (limbOf s (prev (run [frameA1; frameA2] engine0))).
Proof.
  assert (H : forall s, limbBounded (limbOf s (prev engine0))).
  { intros [|]; split; exact I. }
  split; [exact H | exact (limb_bounds_kept [frameA1; frameA2] engine0 H)].
Defined.

(** ** Arbitration *)

Lemma better_power (a q : Punch) :
  power a <= power (better a q) /\ power q <= power (better a q).
Proof.
  unfold better, Rgtb, Rltb. destruct (Rlt_dec _ _); lra.
Qed.

Lemma fold_better_max (l : list Punch) : forall a,
  power a <= power (fold_left better l a)
  /\ forall q, In q l -> power q <= power (fold_left better l a).
Proof.
  induction l as [|h tl IH]; intros a; cbn [fold_left].
  - split; [lra | intros q []].
  - destruct (IH (better a h)) as (A & B).
    destruct (better_power a h) as (C & D).
    split; [lra|]. intros q [<-|Hq]; [lra | apply B, Hq].
Qed.

Lemma fold_better_first (l : list Punch) : forall a,
  fold_left better l a = a
  \/ exists l1 w l2, l = l1 ++ w :: l2 /\ fold_left better l a = w
                     /\ power a < power w
                     /\ forall q, In q l1 -> power q < power w.
Proof.
  induction l as [|h tl IH]; intros a; cbn [fold_left]; [left; reflexivity|].
  destruct (IH (better a h)) as [E|(l1 & w & l2 & E1 & E2 & E3 & E4)].
  - rewrite E. unfold better, Rgtb, Rltb.
    destruct (Rlt_dec (power a) (power h)) as [L|L]; [|left; reflexivity].
    right. exists [], h, tl. repeat split; try assumption. intros q [].
  - right. exists (h :: l1), w, l2. subst tl. split; [reflexivity|].
    split; [exact E2|].
    destruct (better_power a h) as (C & D).
    split; [lra|]. intros q [<-|Hq]; [lra | apply E4, Hq].
Qed.

(** X11: the strike accepted in a frame is one of the frame's proposals; no
    proposal of the frame has more power, and every proposal before it has
    strictly less, so the first one wins a tie. *)
Theorem accepted_is_strongest (f : Frame) (e : Engine) (p : Punch) :
  In p (accepted f e) ->
  accepted f e = [p]
  /\ exists before after,
       proposals f e = before ++ p :: after
       /\ (forall q, In q before -> power q < power p)
       /\ (forall q, In q after -> power q <= power p).
Proof.
  unfold accepted, proposals.
  destruct (enterFrame f e) as [e1|c e0]; [intros []|].
  destruct (forSides c (now f) sides (startLoop e0)) as [st|[err st]]; [|intros []].
  destruct (potentialPunches st) as [|a [|h tl]]; cbn [arbitrate].
  - intros [].
  - intros [<-|[]]. split; [reflexivity|]. exists [], [].
    repeat split; intros q [].
  - intros [<-|[]]. split; [reflexivity|].
    destruct (fold_better_max (h :: tl) a) as (A & B).
    destruct (fold_better_first (h :: tl) a) as [E|(l1 & w & l2 & E1 & E2 & E3 & E4)].
    + rewrite E in *. exists [], (h :: tl). split; [reflexivity|].
      split; [intros q []|exact B].
    + rewrite E2 in *. exists (a :: l1), l2. rewrite E1. split; [reflexivity|].
      split.
      * intros q [<-|Hq]; [exact E3 | apply E4, Hq].
      * intros q Hq. apply B. rewrite E1. apply in_or_app. right. right. exact Hq.
Qed.

Lemma accepted_is_strongest_witness :
  In punchA2Right (accepted frameA2 stateA1)
  /\ accepted frameA2 stateA1 = [punchA2Right].
Proof.
  assert (H : In punchA2Right (accepted frameA2 stateA1)).
  { destruct returnedA2 as (e2 & R & _).
    rewrite (accepted_when_returned _ _ _ R), proposalsA2, arbitrate_two.
    left. unfold better, punchA2Left, punchA2Right, Rgtb. cbn [power].
    rewrite Rltb_true by lra. reflexivity. }
  split; [exact H|].
  exact (proj1 (accepted_is_strongest frameA2 stateA1 punchA2Right H)).
Defined.
(** ** Keypoint lookup *)

Lemma nameIs_true (o : option string) (n : string) :
  nameIs o n = true <-> o = Some n.
Proof.
  unfold nameIs. destruct o as [s|].
  - rewrite String.eqb_eq. split; congruence.
  - split; discriminate.
Qed.

(** X12: [getKeypoint] answers with the first keypoint whose [name] or [part]
    is the name asked for, and with nothing exactly when no keypoint has it
    (or when there is no keypoint list). *)
Theorem getKeypoint_first_match (kps : list Kp.t) (n : string) :
  getKeypoint None n = None
  /\ match getKeypoint (Some kps) n with
     | Some k =>
       (Kp.name k = Some n \/ Kp.part k = Some n)
       /\ exists before after,
            kps = before ++ k :: after
            /\ forall k', In k' before ->
                 Kp.name k' <> Some n /\ Kp.part k' <> Some n
     | None =>
       forall k', In k' kps -> Kp.name k' <> Some n /\ Kp.part k' <> Some n
     end.
Proof.
  split; [reflexivity|]. cbn [getKeypoint].
  induction kps as [|h tl IH]; cbn [find].
  - intros k' [].
  - destruct (nameIs (Kp.name h) n || nameIs (Kp.part h) n) eqn:E.
    + apply orb_true_iff in E. rewrite !nameIs_true in E.
      split; [exact E|]. exists [], tl. split; [reflexivity | intros k' []].
    + apply orb_false_iff in E. destruct E as (E1 & E2).
      assert (Hh : Kp.name h <> Some n /\ Kp.part h <> Some n).
      { split; intros C; apply nameIs_true in C; congruence. }
      destruct (find _ tl) as [k|].
      * destruct IH as (A & before & after & -> & B). split; [exact A|].
        exists (h :: before), after. split; [reflexivity|].
        intros k' [<-|Hk]; [exact Hh | apply B, Hk].
      * intros k' [<-|Hk]; [exact Hh | apply IH, Hk].
Qed.

(** ** The stored record and the percent *)

Lemma sameRecord_refl e : sameRecord e e.
Proof. split; reflexivity. Qed.

Lemma sameRecord_trans a b c : sameRecord a b -> sameRecord b c -> sameRecord a c.
Proof.
  intros (A1 & A2) (B1 & B2). split; [congruence|].
  intros s. rewrite B2. apply A2.
Qed.

Lemma enterFrame_record (f : Frame) (e : Engine) :
  match enterFrame f e with
  | EarlyReturn e1 => sameRecord e e1
  | Enter c e0 => sameRecord e e0
  end.
Proof.
  unfold enterFrame. cbv zeta.
  destruct (getKeypoint _ "left_shoulder") as [kls|];
    [destruct (getKeypoint _ "right_shoulder") as [krs|]|].
  - destruct (_ || _); split; proj_simpl; try reflexivity; intros [|]; reflexivity.
  - split; proj_simpl; try reflexivity; intros [|]; reflexivity.
  - split; proj_simpl; try reflexivity; intros [|]; reflexivity.
Qed.

Lemma loopBody_record (c : Ctx) (tnow : R) (s : WristSide) (st st' : LoopState) :
  loopBody c tnow s st = inl st' -> sameRecord (eng st) (eng st').
Proof.
  unfold loopBody. cbv zeta.
  destruct (resolveHand _ _ _) as [hand|]; [|discriminate].
  set (r := trackLimb s tnow (norm c) (dt c) (torsoStable c) _ hand _).
  clearbody r. intros H. assert (E : st' = _) by (symmetry; injection H; intros E; exact E).
  subst st'.
  destruct (lastAfter r) as [[a b]|], (proposal r) as [p|], s;
    proj_simpl; split; try reflexivity; intros [|]; reflexivity.
Qed.

Lemma forSides_record (c : Ctx) (tnow : R) (st0 : LoopState) :
  match forSides c tnow sides st0 with
  | inl st => sameRecord (eng st0) (eng st)
  | inr (_, st) => sameRecord (eng st0) (eng st)
  end.
Proof.
  pose proof (forSides_spec c tnow st0) as H.
  destruct (forSides c tnow sides st0) as [st2|[err st]].
  - destruct H as (st1 & H1 & H2).
    eapply sameRecord_trans; eapply loopBody_record; eassumption.
  - destruct H as (_ & [(-> & _)|(H1 & _)]).
    + apply sameRecord_refl.
    + eapply loopBody_record; eassumption.
Qed.

Lemma updateCalibration_record (e : Engine) : sameRecord e (updateCalibration e).
Proof.
  unfold updateCalibration. cbv zeta.
  destruct (flag (calibrated (prev e))); [apply sameRecord_refl|].
  unfold setCalibrationStatusSafe.
  destruct (_ || _).
  - destruct (CalibrationStatus_eqb _ _); split; proj_simpl; try reflexivity;
      intros [|]; reflexivity.
  - destruct (CalibrationStatus_eqb _ _); split; proj_simpl; try reflexivity;
      intros [|]; reflexivity.
Qed.

Lemma acceptPunch_record (c : Ctx) (f : Frame) (p : Punch) (e e' : Engine) :
  acceptPunch c f p e = Returned e' ->
  storage e' = Some (saveHistory (dateNow f) (leftHistory e') (rightHistory e'))
  /\ lastPercent (statsOf (side p) e') =
     computePercent (power p) (historyOf (side p) e')
  /\ lastSpeed (statsOf (side p) e') = speed p
  /\ lastPower (statsOf (side p) e') = power p
  /\ lastPercent (statsOf (otherSide (side p)) e') =
     lastPercent (statsOf (otherSide (side p)) e).
Proof.
  unfold acceptPunch. cbv zeta.
  destruct (side p); [destruct (lw c)|destruct (rw c)]; try discriminate;
    intros H; assert (E : e' = _) by (symmetry; injection H; intros E; exact E);
    subst e'; proj_simpl; repeat split.
Qed.

(** What a frame leaves in storage and in the percent of each side. *)
Lemma frame_record (f : Frame) (e : Engine) :
  let o := computePunches f e in
  let e' := engineOf o in
  (sameRecord e e'
   /\ (accepted f e = [] \/ exists err, o = Threw err e'))
  \/ exists p,
       accepted f e = [p]
       /\ o = Returned e'
       /\ storage e' =
          Some (saveHistory (dateNow f) (leftHistory e') (rightHistory e'))
       /\ lastPercent (statsOf (side p) e') =
          computePercent (power p) (historyOf (side p) e')
       /\ lastSpeed (statsOf (side p) e') = speed p
       /\ lastPower (statsOf (side p) e') = power p
       /\ lastPercent (statsOf (otherSide (side p)) e') =
          lastPercent (statsOf (otherSide (side p)) e).
Proof.
  unfold computePunches, accepted.
  pose proof (enterFrame_record f e) as HE.
  destruct (enterFrame f e) as [e1|c e0].
  - left. split; [exact HE | left; reflexivity].
  - pose proof (forSides_record c (now f) (startLoop e0)) as HL.
    destruct (forSides c (now f) sides (startLoop e0)) as [st|[err st]].
    + cbn [startLoop eng] in HL.
      assert (H0 : sameRecord e (updateCalibration (eng st))).
      { eapply sameRecord_trans; [exact HE|].
        eapply sameRecord_trans; [exact HL|]. apply updateCalibration_record. }
      unfold finishFrame. cbv zeta.
      pose proof (arbitrate_length (potentialPunches st)) as Hlen.
      destruct (arbitrate (potentialPunches st)) as [|p [|q tl]];
        [| |cbn [List.length] in Hlen; lia].
      * cbn [forPunches engineOf]. left. split; [|left; reflexivity].
        destruct H0 as (A & B). split; [exact A|].
        intros s. rewrite <- B. destruct s; reflexivity.
      * cbn [forPunches].
        destruct (acceptPunch c f p (updateCalibration (eng st))) as [e2|err e2] eqn:EA.
        -- right. exists p. cbn [engineOf].
           destruct (acceptPunch_record _ _ _ _ _ EA) as (A1 & A2 & A3 & A4 & A5).
           split; [reflexivity|]. split; [reflexivity|].
           destruct H0 as (_ & B).
           rewrite <- B.
           repeat split; destruct (side p); proj_simpl; assumption.
        -- pose proof (acceptPunch_spec c f p (updateCalibration (eng st))) as HA.
           rewrite EA in HA. subst e2. cbn [engineOf].
           left. split; [exact H0|]. right. exists err. reflexivity.
    + cbn [startLoop eng engineOf] in *. left.
      split; [eapply sameRecord_trans; eassumption|]. left. reflexivity.
Qed.

(** ** Histories and totals along a run *)

Lemma frame_bounded (f : Frame) (e : Engine) :
  historiesBounded e -> historiesBounded (engineOf (computePunches f e)).
Proof.
  intros H. destruct (frame_scores f e) as [((Hh & _) & _)|(p & _ & _ & _ & _ & Hp & Ho)].
  - intros s. rewrite Hh. apply H.
  - intros s. destruct (side p) eqn:Es, s; cbn [otherSide] in *;
      first [ rewrite Hp; apply pushBounded_length; apply (H (side p)) || (rewrite <- Es; apply H)
            | rewrite Ho; apply H ].
Qed.

Lemma run_invariant (I : Engine -> Prop) :
  (forall f e, I e -> I (engineOf (computePunches f e))) ->
  forall frames e, I e -> I (run frames e).
Proof.
  intros Hstep. induction frames as [|f tl IH]; intros e He; [exact He|].
  rewrite run_cons. apply IH, Hstep, He.
Qed.

(** X13: along any run, a history that starts with at most 50 values never
    holds more than 50. *)
Theorem histories_stay_bounded (frames : list Frame) (e : Engine) :
  historiesBounded e -> historiesBounded (run frames e).
Proof. apply run_invariant. intros f e0. apply frame_bounded. Qed.

Lemma histories_stay_bounded_witness :
  historiesBounded engine0
  /\ historiesBounded (run [frameA1; frameA2; frameA3] engine0).
Proof.
  assert (H : historiesBounded engine0).
  { intros [|]; cbn; lia. }
  split; [exact H | exact (histories_stay_bounded _ _ H)].
Defined.


(** ** Counters *)

Lemma frame_totals (f : Frame) (e : Engine) (s : WristSide) :
  let e' := engineOf (computePunches f e) in
  (total (statsOf s e) <= total (statsOf s e') <= total (statsOf s e) + 1)%Z.
Proof.
  intros e'. destruct (frame_scores f e) as [((_ & Ht) & _)|(p & _ & _ & Hp & Ho & _)].
  - fold e' in Ht. rewrite Ht. lia.
  - fold e' in Hp, Ho. destruct (side p), s; cbn [otherSide] in *; lia.
Qed.

(** X15: a side's total never goes down, and a run of [n] frames adds at most
    [n] to the two totals together. *)
Theorem totals_along_run (frames : list Frame) (e : Engine) :
  let e' := run frames e in
  (forall s, (total (statsOf s e) <= total (statsOf s e'))%Z)
  /\ (total (leftStats e') + total (rightStats e')
      <= total (leftStats e) + total (rightStats e)
         + Z.of_nat (List.length frames))%Z.
Proof.
  revert e. induction frames as [|f tl IH]; intros e; cbn zeta.
  - cbn [run fold_left List.length]. split; [intros; lia | lia].
  - rewrite run_cons. destruct (IH (engineOf (computePunches f e))) as (A & B).
    split.
    + intros s. pose proof (frame_totals f e s). specialize (A s). cbv zeta in *. lia.
    + pose proof (counted_once f e) as C. cbv zeta in C.
      cbn [List.length]. lia.
Qed.

Lemma frame_historyCounts (f : Frame) (e : Engine) :
  historyCounts e -> historyCounts (engineOf (computePunches f e)).
Proof.
  intros H.
  assert (Hb : historiesBounded e).
  { intros s. specialize (H s). unfold HISTORY_SIZE in *. lia. }
  destruct (frame_scores f e) as [((Hh & Ht) & _)|(p & _ & _ & Hp & Ho & Hhp & Hho)].
  - intros s. rewrite Hh, Ht. apply H.
  - intros s. destruct (side p) eqn:Es, s; cbn [otherSide] in *;
      try (rewrite Hho, Ho; apply H);
      rewrite Hhp, Hp, pushBounded_length_eq by apply Hb;
      match goal with |- context [historyOf ?s0 e] => specialize (H s0) end;
      unfold HISTORY_SIZE in *; lia.
Qed.

(** X16: from a state in which each history holds one value per strike
    counted, up to 50 (as on mount with nothing stored), every run leads to
    such a state: the length of a history is the smaller of 50 and the side's
    total. *)
Theorem history_counts_strikes (frames : list Frame) (e : Engine) :
  historyCounts e -> historyCounts (run frames e).
Proof. apply run_invariant. intros f e0. apply frame_historyCounts. Qed.

Lemma history_counts_strikes_witness :
  historyCounts engine0
  /\ historyCounts (run [frameA1; frameA2] engine0).
Proof.
  assert (H : historyCounts engine0) by (intros [|]; reflexivity).
  split; [exact H | exact (history_counts_strikes _ _ H)].
Defined.

(** ** The shoulder gate *)

(** X17: a frame in which a shoulder is missing, or scored below 0.15 (a
    missing score counts as 0), returns without throwing; it proposes and
    counts nothing and touches neither limb record, history, stored record nor
    remembered shoulders: only [prev.t] and the two diagnostics change. *)
Theorem shoulder_gate (f : Frame) (e : Engine) :
  shoulderSeen f "left_shoulder" && shoulderSeen f "right_shoulder" = false ->
  exists reason,
    In reason ["shoulders missing"; "low shoulder confidence"]%string
    /\ computePunches f e =
       Returned (withPrev (setT (now f) (prev e))
                   (bothDebug (staticDebug reason) e))
    /\ proposals f e = [] /\ accepted f e = []
    /\ let e' := engineOf (computePunches f e) in
       t (prev e') = now f
       /\ sameLimbs e e' /\ sameLedger e e' /\ sameRecord e e'
       /\ prevLeftShoulder (prev e') = prevLeftShoulder (prev e)
       /\ prevRightShoulder (prev e') = prevRightShoulder (prev e)
       /\ leftStats e' = leftStats e /\ rightStats e' = rightStats e.
Proof.
  unfold shoulderSeen, computePunches, proposals, accepted, enterFrame. cbv zeta.
  intros H.
  destruct (getKeypoint _ "left_shoulder") as [kls|];
    [destruct (getKeypoint _ "right_shoulder") as [krs|]|].
  - assert (G : Rltb (nullish (Kp.score kls) 0) minShoulderScore
                || Rltb (nullish (Kp.score krs) 0) minShoulderScore = true).
    { apply andb_false_iff in H. apply orb_true_iff.
      unfold Rgeb in H.
      destruct H as [H|H]; [left|right]; apply Rleb_gt in H;
        apply Rltb_true; exact H. }
    rewrite G. eexists. split; [right; left; reflexivity|].
    split; [reflexivity|]. cbn [engineOf].
    repeat split; try reflexivity; intros [|]; reflexivity.
  - eexists. split; [left; reflexivity|]. split; [reflexivity|].
    cbn [engineOf]. repeat split; try reflexivity; intros [|]; reflexivity.
  - eexists. split; [left; reflexivity|]. split; [reflexivity|].
    cbn [engineOf]. repeat split; try reflexivity; intros [|]; reflexivity.
Qed.

Lemma shoulder_gate_witness :
  exists reason,
    computePunches (mkFrame 1000 []) stateA1 =
      Returned (withPrev (setT 1000 (prev stateA1))
                  (bothDebug (staticDebug reason) stateA1)).
Proof.
  destruct (shoulder_gate (mkFrame 1000 []) stateA1 eq_refl)
    as (reason & _ & H & _).
  exists reason. exact H.
Defined.

(** ** The torso gate *)

Lemma enterFrame_torso (f : Frame) (e : Engine) (c : Ctx) (e0 : Engine) :
  enterFrame f e = Enter c e0 ->
  let lsPt := pointOf (ls c) in
  let rsPt := pointOf (rs c) in
  norm c = Rmax (distance lsPt rsPt) 1
  /\ torsoStable c =
     Rltb ((distance lsPt (nullish (prevLeftShoulder (prev e)) lsPt)
            + distance rsPt (nullish (prevRightShoulder (prev e)) rsPt))
           / (2 * norm c)) 0.08
  /\ prevLeftShoulder (prev e0) = Some lsPt
  /\ prevRightShoulder (prev e0) = Some rsPt.
Proof.
  unfold enterFrame. cbv zeta.
  destruct (getKeypoint _ "left_shoulder") as [kls|]; [|discriminate].
  destruct (getKeypoint _ "right_shoulder") as [krs|]; [|discriminate].
  destruct (_ || _); [discriminate|].
  intros H. assert (Ec : c = _) by (symmetry; injection H; intros _ E; exact E).
  assert (Ee : e0 = _) by (symmetry; injection H; intros E _; exact E).
  subst c e0. cbn [ls rs norm torsoStable]. proj_simpl. repeat split.
Qed.

Lemma loopBody_shoulders (c : Ctx) (tnow : R) (s : WristSide)
    (st st' : LoopState) :
  loopBody c tnow s st = inl st' ->
  prevLeftShoulder (prev (eng st')) = prevLeftShoulder (prev (eng st))
  /\ prevRightShoulder (prev (eng st')) = prevRightShoulder (prev (eng st)).
Proof.
  unfold loopBody. cbv zeta.
  destruct (resolveHand _ _ _) as [hand|]; [|discriminate].
  set (r := trackLimb s tnow (norm c) (dt c) (torsoStable c) _ hand _).
  clearbody r. intros H.
  match type of H with inl ?x = _ => assert (E : st' = x) by congruence end.
  subst st'.
  destruct (lastAfter r) as [[a b]|], (proposal r) as [p|], s;
    proj_simpl; split; reflexivity.
Qed.

Lemma forSides_shoulders (c : Ctx) (tnow : R) (st0 : LoopState) :
  match forSides c tnow sides st0 with
  | inl st | inr (_, st) =>
    prevLeftShoulder (prev (eng st)) = prevLeftShoulder (prev (eng st0))
    /\ prevRightShoulder (prev (eng st)) = prevRightShoulder (prev (eng st0))
  end.
Proof.
  pose proof (forSides_spec c tnow st0) as H.
  destruct (forSides c tnow sides st0) as [st2|[err st]].
  - destruct H as (st1 & H1 & H2).
    destruct (loopBody_shoulders _ _ _ _ _ H1) as (A1 & B1).
    destruct (loopBody_shoulders _ _ _ _ _ H2) as (A2 & B2).
    split; congruence.
  - destruct H as (_ & [(-> & _)|(H1 & _)]).
    + split; reflexivity.
    + apply (loopBody_shoulders _ _ _ _ _ H1).
Qed.

Lemma updateCalibration_shoulders (e : Engine) :
  prevLeftShoulder (prev (updateCalibration e)) = prevLeftShoulder (prev e)
  /\ prevRightShoulder (prev (updateCalibration e)) = prevRightShoulder (prev e).
Proof.
  unfold updateCalibration. cbv zeta.
  destruct (flag (calibrated (prev e))); [split; reflexivity|].
  unfold setCalibrationStatusSafe.
  destruct (_ || _); destruct (CalibrationStatus_eqb _ _); split; reflexivity.
Qed.

Lemma acceptPunch_shoulders (c : Ctx) (f : Frame) (p : Punch) (e : Engine) :
  let e' := engineOf (acceptPunch c f p e) in
  prevLeftShoulder (prev e') = prevLeftShoulder (prev e)
  /\ prevRightShoulder (prev e') = prevRightShoulder (prev e).
Proof.
  unfold acceptPunch. cbv zeta.
  destruct (side p); [destruct (lw c)|destruct (rw c)]; split; reflexivity.
Qed.

Lemma frame_shoulders (f : Frame) (e : Engine) (c : Ctx) (e0 : Engine) :
  enterFrame f e = Enter c e0 ->
  let e' := engineOf (computePunches f e) in
  prevLeftShoulder (prev e') = prevLeftShoulder (prev e0)
  /\ prevRightShoulder (prev e') = prevRightShoulder (prev e0).
Proof.
  intros E. unfold computePunches. rewrite E. cbv zeta.
  pose proof (forSides_shoulders c (now f) (startLoop e0)) as HL.
  destruct (forSides c (now f) sides (startLoop e0)) as [st|[err st]].
  - cbn [startLoop eng] in HL. destruct HL as (L1 & L2).
    destruct (updateCalibration_shoulders (eng st)) as (U1 & U2).
    unfold finishFrame. cbv zeta.
    pose proof (arbitrate_length (potentialPunches st)) as Hlen.
    destruct (arbitrate (potentialPunches st)) as [|p [|q tl]];
      [| |cbn [List.length] in Hlen; lia].
    + cbn [forPunches engineOf]. proj_simpl. split; congruence.
    + cbn [forPunches].
      pose proof (acceptPunch_shoulders c f p (updateCalibration (eng st)))
        as HA. cbv zeta in HA.
      destruct (acceptPunch c f p (updateCalibration (eng st))) as [e2|err e2];
        cbn [engineOf] in *; proj_simpl; destruct HA as (A1 & A2);
        split; congruence.
  - cbn [startLoop eng engineOf] in *. exact HL.
Qed.

(** X18: a frame with no remembered shoulders, or whose shoulders are where
    they were remembered, always counts as stable; and whatever the frame
    does afterwards, it leaves its own two shoulders as the remembered
    ones, so a torso that stops is stable again on the next frame. *)
Theorem still_shoulders_are_stable (f : Frame) (e : Engine) (c : Ctx)
    (e0 : Engine) :
  enterFrame f e = Enter c e0 ->
  let lsPt := pointOf (ls c) in
  let rsPt := pointOf (rs c) in
  let e' := engineOf (computePunches f e) in
  ((prevLeftShoulder (prev e) = None \/ prevLeftShoulder (prev e) = Some lsPt) ->
   (prevRightShoulder (prev e) = None
    \/ prevRightShoulder (prev e) = Some rsPt) ->
   torsoStable c = true)
  /\ prevLeftShoulder (prev e') = Some lsPt
  /\ prevRightShoulder (prev e') = Some rsPt.
Proof.
  intros H lsPt rsPt e'.
  destruct (enterFrame_torso f e c e0 H) as (Hn & Hs & P1 & P2).
  fold lsPt rsPt in Hn, Hs, P1, P2.
  destruct (frame_shoulders f e c e0 H) as (F1 & F2). fold e' in F1, F2.
  split; [|split; congruence].
  intros HL HR.
  assert (Hpos : 1 <= norm c) by (rewrite Hn; apply Rmax_r).
  assert (Z1 : distance lsPt (nullish (prevLeftShoulder (prev e)) lsPt) = 0).
  { destruct HL as [-> | ->]; cbn [nullish]; unfold distance, Math_hypot;
      cbv zeta; rewrite !Rminus_diag;
      replace (0 * 0 + 0 * 0) with 0 by lra; apply sqrt_0. }
  assert (Z2 : distance rsPt (nullish (prevRightShoulder (prev e)) rsPt) = 0).
  { destruct HR as [-> | ->]; cbn [nullish]; unfold distance, Math_hypot;
      cbv zeta; rewrite !Rminus_diag;
      replace (0 * 0 + 0 * 0) with 0 by lra; apply sqrt_0. }
  rewrite Hs, Z1, Z2. apply Rltb_true.
  unfold Rdiv. rewrite Rplus_0_l, Rmult_0_l. lra.
Qed.

Lemma still_shoulders_are_stable_witness :
  exists c e0, enterFrame frameA1 engine0 = Enter c e0 /\ torsoStable c = true.
Proof.
  destruct (enterFrame frameA1 engine0) as [e1|c e0] eqn:E.
  - exfalso. revert E. unfold_frames. unfold enterFrame. cbv zeta.
    unfold_step. repeat Rstep. cbn [orb]. discriminate.
  - exists c, e0. split; [reflexivity|].
    exact (proj1 (still_shoulders_are_stable frameA1 engine0 c e0 E)
             (or_introl eq_refl) (or_introl eq_refl)).
Defined.

(** X19: while the torso moves, a frame proposes and counts nothing, and keeps
    what each limb has learnt: rest, maximum, range, the strike flag and the
    cooldown. *)
Theorem torso_gate (f : Frame) (e : Engine) (c : Ctx) (e0 : Engine) :
  enterFrame f e = Enter c e0 ->
  torsoStable c = false ->
  let e' := engineOf (computePunches f e) in
  proposals f e = [] /\ accepted f e = []
  /\ sameScores e e' /\ sameRecord e e'
  /\ forall s,
       let lp := limbOf s (prev e) in
       let lp' := limbOf s (prev e') in
       RestExtension lp' = RestExtension lp
       /\ MaxExtension lp' = MaxExtension lp
       /\ RangeNorm lp' = RangeNorm lp
       /\ PunchDetected lp' = PunchDetected lp
       /\ CooldownUntil lp' = CooldownUntil lp.
Proof.
  intros E U e'.
  assert (Hquiet : forall st s st', loopBody c (now f) s st = inl st' ->
            potentialPunches st' = potentialPunches st
            /\ forall s0,
                 let lp := limbOf s0 (prev (eng st)) in
                 let lp' := limbOf s0 (prev (eng st')) in
                 RestExtension lp' = RestExtension lp
                 /\ MaxExtension lp' = MaxExtension lp
                 /\ RangeNorm lp' = RangeNorm lp
                 /\ PunchDetected lp' = PunchDetected lp
                 /\ CooldownUntil lp' = CooldownUntil lp).
  { intros st s st' HB. pose proof (loopBody_spec c (now f) s st) as HS.
    rewrite HB in HS. destruct HS as (hand & L1 & L2 & L3 & _).
    rewrite U in L1, L3.
    destruct (trackLimb_unstable s (now f) (norm c) (dt c) false
                (shoulderOf c s) hand (limbOf s (prev (eng st))) eq_refl)
      as (P & _ & A1 & A2 & A3 & A4 & A5).
    rewrite P in L3. cbn [optList] in L3. rewrite app_nil_r in L3.
    split; [exact L3|]. intros s0 lp lp'. unfold lp, lp'.
    destruct s, s0; cbn [otherSide] in *;
      first [ rewrite L1; repeat split; assumption
            | rewrite L2; repeat split; reflexivity ]. }
  assert (Hloop : match forSides c (now f) sides (startLoop e0) with
                  | inl st | inr (_, st) =>
                    potentialPunches st = []
                    /\ forall s0,
                         let lp := limbOf s0 (prev e0) in
                         let lp' := limbOf s0 (prev (eng st)) in
                         RestExtension lp' = RestExtension lp
                         /\ MaxExtension lp' = MaxExtension lp
                         /\ RangeNorm lp' = RangeNorm lp
                         /\ PunchDetected lp' = PunchDetected lp
                         /\ CooldownUntil lp' = CooldownUntil lp
                  end).
  { pose proof (forSides_spec c (now f) (startLoop e0)) as HF.
    destruct (forSides c (now f) sides (startLoop e0)) as [st2|[err st]].
    - destruct HF as (st1 & H1 & H2).
      destruct (Hquiet _ _ _ H1) as (P1 & Q1).
      destruct (Hquiet _ _ _ H2) as (P2 & Q2).
      split; [rewrite P2, P1; reflexivity|].
      intros s0. specialize (Q1 s0). specialize (Q2 s0). cbv zeta in *.
      cbn [startLoop eng] in Q1.
      destruct Q1 as (a1 & a2 & a3 & a4 & a5), Q2 as (b1 & b2 & b3 & b4 & b5).
      repeat split; congruence.
    - destruct HF as (_ & [(-> & _)|(H1 & _)]).
      + split; [reflexivity|]. intros s0. cbn [startLoop eng]. repeat split.
      + destruct (Hquiet _ _ _ H1) as (P1 & Q1). split; [exact P1|exact Q1]. }
  assert (HP : proposals f e = []).
  { unfold proposals. rewrite E.
    destruct (forSides c (now f) sides (startLoop e0)) as [st|[err st]];
      apply Hloop. }
  assert (HA : accepted f e = []).
  { unfold accepted. rewrite E.
    destruct (forSides c (now f) sides (startLoop e0)) as [st|[err st]];
      [|reflexivity].
    rewrite (proj1 Hloop). reflexivity. }
  split; [exact HP|]. split; [exact HA|].
  split.
  { destruct (frame_scores f e) as [(H & _)|(p & Hp & _)]; [exact H|].
    rewrite HA in Hp. discriminate. }
  split.
  { destruct (frame_record f e) as [(H & _)|(p & Hp & _)]; [exact H|].
    rewrite HA in Hp. discriminate. }
  pose proof (enterFrame_spec f e) as HE. rewrite E in HE.
  destruct HE as (_ & HL0 & _).
  intros s lp lp'. unfold lp, lp', e', computePunches. rewrite E.
  rewrite <- (HL0 s).
  destruct (forSides c (now f) sides (startLoop e0)) as [st|[err st]].
  - destruct Hloop as (P & Q). unfold finishFrame. cbv zeta. rewrite P.
    cbn [arbitrate forPunches engineOf].
    destruct (updateCalibration_spec (eng st)) as (UL & _).
    cbv zeta in UL. specialize (UL s). specialize (Q s). cbv zeta in Q.
    replace (limbOf s (prev (withPrev (setT (now f) (prev (updateCalibration (eng st))))
                                (updateCalibration (eng st)))))
      with (limbOf s (prev (updateCalibration (eng st))))
      by (destruct s; reflexivity).
    rewrite UL. exact Q.
  - cbn [engineOf]. apply Hloop.
Qed.

Lemma torso_gate_witness :
  exists c e0,
    enterFrame frameD2 stateA1 = Enter c e0
    /\ torsoStable c = false
    /\ proposals frameD2 stateA1 = [].
Proof.
  destruct stepD2 as (c & e0 & e2 & E & U & _).
  exists c, e0. split; [exact E|]. split; [exact U|].
  exact (proj1 (torso_gate frameD2 stateA1 c e0 E U)).
Defined.

(** ** Calibration *)

Lemma updateCalibration_status (e : Engine) :
  flag (calibrated (prev e)) = false ->
  let leftRange := nullish (RangeNorm (leftLimb (prev e))) 0 in
  let rightRange := nullish (RangeNorm (rightLimb (prev e))) 0 in
  calibrationStatus (updateCalibration e) =
    (if Rgtb leftRange 0.18 || Rgtb rightRange 0.18 then Complete
     else if Rgtb leftRange 0.08 || Rgtb rightRange 0.08 then Collecting
     else Waiting)
  /\ flag (calibrated (prev (updateCalibration e))) =
     (Rgtb leftRange 0.18 || Rgtb rightRange 0.18).
Proof.
  intros Hc. unfold updateCalibration. cbv zeta. rewrite Hc.
  destruct (Rgtb _ 0.18 || Rgtb _ 0.18).
  - destruct (setCalibrationStatusSafe_spec Complete
                (withPrev (setCalibrated (prev e)) e)) as (Hs & Hp & _).
    rewrite Hs, Hp. split; reflexivity.
  - match goal with
    | |- context [setCalibrationStatusSafe ?n e] => set (next := n)
    end.
    destruct (setCalibrationStatusSafe_spec next e) as (Hs & Hp & _).
    rewrite Hs, Hp, Hc. split; reflexivity.
Qed.

(** X20: until calibration has completed, the status after a frame that went
    through the loop over both sides depends on the two ranges only, as the
    frame leaves them: Complete above 0.18, Collecting above 0.08, Waiting
    otherwise; so the status can also go back from Collecting to Waiting. *)
Theorem calibration_follows_ranges (f : Frame) (e : Engine) (c : Ctx)
    (e0 : Engine) (st : LoopState) :
  enterFrame f e = Enter c e0 ->
  forSides c (now f) sides (startLoop e0) = inl st ->
  flag (calibrated (prev e)) = false ->
  let e' := engineOf (computePunches f e) in
  let leftRange := nullish (RangeNorm (leftLimb (prev e'))) 0 in
  let rightRange := nullish (RangeNorm (rightLimb (prev e'))) 0 in
  calibrationStatus e' =
    (if Rgtb leftRange 0.18 || Rgtb rightRange 0.18 then Complete
     else if Rgtb leftRange 0.08 || Rgtb rightRange 0.08 then Collecting
     else Waiting)
  /\ flag (calibrated (prev e')) = (Rgtb leftRange 0.18 || Rgtb rightRange 0.18).
Proof.
  intros E L Hc e'.
  pose proof (loop_ledger f e c e0 E) as HL. rewrite L in HL.
  destruct HL as (Hcal & _).
  assert (Hc1 : flag (calibrated (prev (eng st))) = false) by (rewrite Hcal; exact Hc).
  destruct (updateCalibration_status (eng st) Hc1) as (U1 & U2).
  destruct (updateCalibration_spec (eng st)) as (UL & _).
  destruct (stages f e c e0 st E L) as (S1 & _).
  pose proof (finishFrame_spec c f st) as HF. cbv zeta in HF.
  rewrite <- S1 in HF. fold e' in HF.
  destruct HF as (F1 & F2 & F3).
  assert (HR : forall s, RangeNorm (limbOf s (prev e')) =
                         RangeNorm (limbOf s (prev (eng st)))).
  { intros s. destruct F3 as [(SL & _)|(p & reach & _ & _ & A1 & A2 & _)].
    - rewrite (SL s). reflexivity.
    - destruct (side p), s; cbn [otherSide] in *;
        first [rewrite A1; reflexivity | rewrite A2; reflexivity]. }
  pose proof (HR Left) as HRl. pose proof (HR Right) as HRr.
  cbn [limbOf] in HRl, HRr.
  cbv zeta. rewrite HRl, HRr, F1, F2. split; [exact U1 | exact U2].
Qed.

Lemma calibration_follows_ranges_witness :
  flag (calibrated (prev stateA1)) = false
  /\ calibrationStatus (engineOf (computePunches frameB2 stateA1)) = Collecting.
Proof.
  split; [reflexivity|].
  destruct (enterFrame frameB2 stateA1) as [e1|c e0] eqn:E.
  { exfalso. pose proof stepB2 as S. unfold computePunches in S.
    rewrite E in S. assert (e1 = stateB2) by congruence. subst e1.
    revert E. unfold_frames. unfold enterFrame. cbv zeta.
    unfold_step. repeat Rstep. cbn [orb]. discriminate. }
  destruct (forSides c (now frameB2) sides (startLoop e0)) as [st|[err st]] eqn:L.
  2:{ exfalso. pose proof stepB2 as S. unfold computePunches in S.
      rewrite E, L in S. discriminate. }
  destruct (calibration_follows_ranges frameB2 stateA1 c e0 st E L eq_refl)
    as (H & _).
  rewrite H. rewrite stepB2. cbn [engineOf]. unfold stateB2.
  cbn [prev leftLimb rightLimb RangeNorm nullish].
  unfold Rgtb. repeat Rstep. reflexivity.
Defined.

(** ** The percent of a counted strike *)

Lemma accepted_strength (f : Frame) (e : Engine) (p : Punch) :
  accepted f e = [p] -> In p (proposals f e).
Proof.
  unfold accepted, proposals.
  destruct (enterFrame f e) as [e1|c e0]; [discriminate|].
  destruct (forSides c (now f) sides (startLoop e0)) as [st|[err st]];
    [|discriminate].
  apply arbitrate_In.
Qed.

(** X21: after a frame that returns with an accepted strike, the side of the
    strike shows its speed and power, and its percent is the score of that
    power against the history that already holds it. The first strike on an
    empty history scores 100, and a strike no weaker than any value kept in
    the history scores 100 at least. *)
Theorem counted_strike_percent (f : Frame) (e e' : Engine) (p : Punch) :
  computePunches f e = Returned e' ->
  accepted f e = [p] ->
  let st := statsOf (side p) e' in
  lastSpeed st = speed p /\ lastPower st = power p
  /\ historyOf (side p) e' =
     pushBounded HISTORY_SIZE (historyOf (side p) e) (power p)
  /\ lastPercent st = computePercent (power p) (historyOf (side p) e')
  /\ (historyOf (side p) e = [] -> lastPercent st = 100%Z)
  /\ ((forall w, In w (historyOf (side p) e) -> w <= power p) ->
      (100 <= lastPercent st <= 150)%Z)
  /\ lastPercent (statsOf (otherSide (side p)) e') =
     lastPercent (statsOf (otherSide (side p)) e).
Proof.
  intros R A st.
  assert (Hpow : 1 / 1000 <= power p).
  { pose proof (proposals_strong f e p (accepted_strength f e p A)). lra. }
  assert (He : e' = engineOf (computePunches f e)) by (rewrite R; reflexivity).
  destruct (frame_record f e) as [(_ & [Hq|(err & Hq)])|(q & Hacc & _ & _ & B1 & B2 & B3 & B4)];
    [congruence | congruence |].
  destruct (frame_scores f e) as [(_ & [Hq|(err & Hq)])|(q' & Hacc' & _ & _ & _ & C1 & _)];
    [congruence | congruence |].
  assert (q = p) by congruence. assert (q' = p) by congruence. subst q q'.
  rewrite <- He in *. unfold st.
  split; [exact B2|]. split; [exact B3|]. split; [exact C1|]. split; [exact B1|].
  split; [|split; [|exact B4]].
  - intros Hh. rewrite B1, C1, Hh. cbn. apply computePercent_first, Hpow.
  - intros Hall. rewrite B1, C1. apply computePercent_best; [exact Hpow|].
    intros w Hw. apply pushBounded_In in Hw. destruct Hw as [Hw| ->]; [auto|lra].
Qed.

Lemma counted_strike_percent_witness :
  exists e2,
    computePunches frameA2 stateA1 = Returned e2
    /\ accepted frameA2 stateA1 = [punchA2Right]
    /\ lastPercent (rightStats e2) = 100%Z.
Proof.
  destruct returnedA2 as (e2 & R & _).
  assert (A : accepted frameA2 stateA1 = [punchA2Right]).
  { rewrite (accepted_when_returned _ _ _ R), proposalsA2, arbitrate_two.
    unfold better, punchA2Left, punchA2Right, Rgtb. cbn [power].
    rewrite Rltb_true by lra. reflexivity. }
  exists e2. split; [exact R|]. split; [exact A|].
  destruct (counted_strike_percent frameA2 stateA1 e2 punchA2Right R A)
    as (_ & _ & _ & _ & H & _).
  exact (H eq_refl).
Defined.

(** ** How a frame can end *)

Lemma enterFrame_joints (f : Frame) (e : Engine) (c : Ctx) (e0 : Engine) :
  enterFrame f e = Enter c e0 ->
  lw c = wristOf f Left /\ rw c = wristOf f Right
  /\ le c = elbowOf f Left /\ re c = elbowOf f Right.
Proof.
  unfold enterFrame, wristOf, elbowOf. cbv zeta.
  destruct (getKeypoint _ "left_shoulder") as [kls|]; [|discriminate].
  destruct (getKeypoint _ "right_shoulder") as [krs|]; [|discriminate].
  destruct (_ || _); [discriminate|].
  intros H. assert (Ec : c = _) by (symmetry; injection H; intros _ E; exact E).
  subst c. cbn [lw rw le re]. repeat split.
Qed.

Lemma resolveHand_none (wrist elbow : option Kp.t) (prevWrist : option Pt.t) :
  resolveHand wrist elbow prevWrist = None <->
  match wrist with
  | Some w => nullish (Kp.score w) 0 < minWristScore
  | None => True
  end
  /\ elbow = None /\ prevWrist = None.
Proof.
  unfold resolveHand, Rgeb. cbv zeta.
  destruct wrist as [w|].
  - destruct (Rleb minWristScore (nullish (Kp.score w) 0)) eqn:E.
    + apply Rleb_le in E. split; [discriminate|]. intros (C & _). lra.
    + apply Rleb_gt in E.
      destruct elbow as [k|]; [split; [discriminate | intros (_ & C & _); discriminate]|].
      destruct prevWrist; split; try discriminate; try tauto.
      intros (_ & _ & C). discriminate.
  - destruct elbow as [k|]; [split; [discriminate | intros (_ & C & _); discriminate]|].
    destruct prevWrist; split; try discriminate; try tauto.
    intros (_ & _ & C). discriminate.
Qed.

Lemma loopBody_throws (c : Ctx) (tnow : R) (s : WristSide) (st : LoopState)
    (err : JsError) :
  loopBody c tnow s st = inr err ->
  resolveHand (match s with Left => lw c | Right => rw c end)
    (match s with Left => le c | Right => re c end)
    (wristPos (limbOf s (prev (eng st)))) = None.
Proof.
  unfold loopBody. cbv zeta.
  destruct (resolveHand _ _ _); [discriminate | reflexivity].
Qed.

Lemma acceptPunch_outcome (c : Ctx) (f : Frame) (p : Punch) (e : Engine) :
  match acceptPunch c f p e with
  | Returned _ => (match side p with Left => lw c | Right => rw c end) <> None
  | Threw err _ =>
    err = TypeError "Cannot read properties of undefined (reading 'x')"
    /\ (match side p with Left => lw c | Right => rw c end) = None
  end.
Proof.
  unfold acceptPunch. cbv zeta.
  destruct (side p); [destruct (lw c)|destruct (rw c)];
    try discriminate; split; reflexivity.
Qed.

Lemma loop_throw_side (f : Frame) (e : Engine) (c : Ctx) (e0 : Engine)
    (err : JsError) (st : LoopState) :
  enterFrame f e = Enter c e0 ->
  forSides c (now f) sides (startLoop e0) = inr (err, st) ->
  exists binding s,
    err = ReferenceError binding
    /\ wristPos (limbOf s (prev e)) = None
    /\ elbowOf f s = None
    /\ match wristOf f s with
       | Some w => nullish (Kp.score w) 0 < minWristScore
       | None => True
       end.
Proof.
  intros E L.
  pose proof (enterFrame_spec f e) as HS. rewrite E in HS.
  destruct HS as (_ & HL0 & _).
  destruct (enterFrame_joints f e c e0 E) as (J1 & J2 & J3 & J4).
  pose proof (forSides_spec c (now f) (startLoop e0)) as HF. rewrite L in HF.
  destruct HF as (-> & HF). eexists.
  destruct HF as [(-> & HB)|(H1 & HB)].
  - exists Left. split; [reflexivity|].
    apply loopBody_throws, resolveHand_none in HB.
    cbn [startLoop eng] in HB. rewrite (HL0 Left) in HB.
    rewrite J1, J3 in HB. tauto.
  - exists Right. split; [reflexivity|].
    apply loopBody_throws, resolveHand_none in HB.
    pose proof (loopBody_spec c (now f) Left (startLoop e0)) as HS1.
    rewrite H1 in HS1. destruct HS1 as (hand & _ & HO & _).
    cbn [otherSide startLoop eng] in HO. rewrite HO, (HL0 Right) in HB.
    rewrite J2, J4 in HB. tauto.
Qed.

Lemma reference_error_side (f : Frame) (e : Engine) (binding : string)
    (e' : Engine) :
  computePunches f e = Threw (ReferenceError binding) e' ->
  exists s, wristPos (limbOf s (prev e)) = None.
Proof.
  unfold computePunches.
  destruct (enterFrame f e) as [e1|c e0] eqn:E; [discriminate|].
  destruct (forSides c (now f) sides (startLoop e0)) as [st|[err st]] eqn:L.
  - unfold finishFrame. cbv zeta.
    pose proof (arbitrate_length (potentialPunches st)) as Hlen.
    destruct (arbitrate (potentialPunches st)) as [|p [|q tl]];
      [| |cbn [List.length] in Hlen; lia].
    + cbn [forPunches]. discriminate.
    + cbn [forPunches].
      pose proof (acceptPunch_outcome c f p (updateCalibration (eng st))) as HA.
      destruct (acceptPunch c f p (updateCalibration (eng st))) as [e2|err e2];
        [discriminate|].
      destruct HA as (-> & _). discriminate.
  - intros _. destruct (loop_throw_side f e c e0 err st E L)
      as (b & s & _ & H & _).
    exists s. exact H.
Qed.

(** X22: how a frame can end. It throws a [TypeError] exactly when the
    accepted strike is on a side whose wrist keypoint is absent from the pose,
    and then nothing is counted; it throws a [ReferenceError] only when some
    side has no usable wrist, no elbow and no earlier hand position, and then
    nothing is accepted. *)
Theorem frame_outcome (f : Frame) (e : Engine) :
  match computePunches f e with
  | Returned _ =>
    forall p, accepted f e = [p] -> wristOf f (side p) <> None
  | Threw (TypeError _) e' =>
    sameScores e e'
    /\ exists p, accepted f e = [p] /\ wristOf f (side p) = None
  | Threw (ReferenceError _) _ =>
    accepted f e = []
    /\ exists s,
         wristPos (limbOf s (prev e)) = None
         /\ elbowOf f s = None
         /\ match wristOf f s with
            | Some w => nullish (Kp.score w) 0 < minWristScore
            | None => True
            end
  end.
Proof.
  pose proof (frame_scores f e) as HSc. cbv zeta in HSc.
  unfold computePunches, accepted in *.
  destruct (enterFrame f e) as [e1|c e0] eqn:E; [intros p; discriminate|].
  destruct (enterFrame_joints f e c e0 E) as (J1 & J2 & J3 & J4).
  destruct (forSides c (now f) sides (startLoop e0)) as [st|[err st]] eqn:L.
  - unfold finishFrame in *. cbv zeta in *.
    pose proof (arbitrate_length (potentialPunches st)) as Hlen.
    destruct (arbitrate (potentialPunches st)) as [|p [|q tl]];
      [| |cbn [List.length] in Hlen; lia].
    + cbn [forPunches]. intros p; discriminate.
    + cbn [forPunches] in *.
      pose proof (acceptPunch_outcome c f p (updateCalibration (eng st))) as HA.
      destruct (acceptPunch c f p (updateCalibration (eng st))) as [e2|err e2].
      * intros q Hq. assert (q = p) by congruence. subst q.
        destruct (side p); [rewrite <- J1 | rewrite <- J2]; exact HA.
      * destruct HA as (-> & HA). cbn [engineOf] in HSc. split.
        { destruct HSc as [(H & _)|(q & _ & C & _)]; [exact H | discriminate]. }
        exists p. split; [reflexivity|].
        destruct (side p); [rewrite <- J1 | rewrite <- J2]; exact HA.
  - destruct (loop_throw_side f e c e0 err st E L) as (b & s & -> & H).
    split; [reflexivity|]. exists s. exact H.
Qed.

(** X23: once both sides have a hand position, both keep one along any run,
    and no frame throws a [ReferenceError] any more. *)
Theorem tracked_sides_stay_tracked (frames : list Frame) (e : Engine) :
  (forall s, wristPos (limbOf s (prev e)) <> None) ->
  (forall s, wristPos (limbOf s (prev (run frames e))) <> None)
  /\ forall f binding e',
       computePunches f (run frames e) <> Threw (ReferenceError binding) e'.
Proof.
  intros H.
  assert (HI : forall s, wristPos (limbOf s (prev (run frames e))) <> None).
  { apply (frame_limb_invariant (fun lp => wristPos lp <> None)).
    - intros s tnow n d stable sh hand lp _ _. unfold trackLimb. cbv zeta.
      destruct stable; cbn; discriminate.
    - intros v lp Hlp. exact Hlp.
    - exact H. }
  split; [exact HI|].
  intros f binding e' C.
  destruct (reference_error_side f (run frames e) binding e' C) as (s & HO).
  exact (HI s HO).
Qed.

Lemma tracked_sides_stay_tracked_witness :
  (forall s, wristPos (limbOf s (prev stateA1)) <> None)
  /\ forall s, wristPos (limbOf s (prev (run [frameA2] stateA1))) <> None.
Proof.
  assert (H : forall s, wristPos (limbOf s (prev stateA1)) <> None).
  { intros [|]; discriminate. }
  split; [exact H | exact (proj1 (tracked_sides_stay_tracked [frameA2] stateA1 H))].
Defined.

(** ** One strike in every frame *)

Lemma accepted_outcome (f : Frame) (e : Engine) (p : Punch) :
  accepted f e = [p] ->
  match computePunches f e with
  | Returned _ => wristOf f (side p) <> None
  | Threw err _ =>
    err = TypeError "Cannot read properties of undefined (reading 'x')"
    /\ wristOf f (side p) = None
  end.
Proof.
  unfold computePunches, accepted.
  destruct (enterFrame f e) as [e1|c e0] eqn:E; [discriminate|].
  destruct (enterFrame_joints f e c e0 E) as (J1 & J2 & _).
  destruct (forSides c (now f) sides (startLoop e0)) as [st|[err st]];
    [|discriminate].
  intros HA. unfold finishFrame. cbv zeta. rewrite HA. cbn [forPunches].
  pose proof (acceptPunch_outcome c f p (updateCalibration (eng st))) as HO.
  destruct (acceptPunch c f p (updateCalibration (eng st))) as [e2|err e2].
  - destruct (side p); [rewrite <- J1 | rewrite <- J2]; exact HO.
  - destruct HO as (-> & HO). split; [reflexivity|].
    destruct (side p); [rewrite <- J1 | rewrite <- J2]; exact HO.
Qed.

Lemma proposals_of_loop (f : Frame) (e : Engine) :
  accepted f e = arbitrate (proposals f e)
  \/ (accepted f e = []
      /\ (List.length (proposals f e) <= 1)%nat
      /\ exists binding e',
           computePunches f e = Threw (ReferenceError binding) e').
Proof.
  unfold accepted, proposals, computePunches.
  destruct (enterFrame f e) as [e1|c e0]; [left; reflexivity|].
  pose proof (forSides_spec c (now f) (startLoop e0)) as HF.
  destruct (forSides c (now f) sides (startLoop e0)) as [st|[err st]];
    [left; reflexivity|].
  right. destruct HF as (-> & HF). split; [reflexivity|]. split.
  - destruct HF as [(-> & _)|(H1 & _)]; [cbn; lia|].
    pose proof (loopBody_spec c (now f) Left (startLoop e0)) as HS.
    rewrite H1 in HS. destruct HS as (hand & _ & _ & HP & _).
    rewrite HP. cbn [startLoop potentialPunches app].
    destruct (proposal _); cbn; lia.
  - eexists. eexists. reflexivity.
Qed.

(** X14: in every frame at most one strike reaches the acceptance loop and
    the two counters grow by one at most.  A single proposal reaches the
    loop unless the other side threw a [ReferenceError]; the strike that
    reaches it is counted and pushed exactly when its side's wrist keypoint
    is in the pose, and otherwise the frame throws a [TypeError] and counts
    nothing.  Of two proposals the one with the strictly higher power
    reaches the loop (the left one on a tie); the other is neither counted
    nor pushed, and its limb is nevertheless left Active. *)
Theorem one_strike_every_frame (f : Frame) (e : Engine) :
  let o := computePunches f e in
  let e' := engineOf o in
  (List.length (accepted f e) <= 1)%nat
  /\ (total (leftStats e') + total (rightStats e')
      <= total (leftStats e) + total (rightStats e) + 1)%Z
  /\ (forall p, proposals f e = [p] ->
        accepted f e = [p]
        \/ (accepted f e = []
            /\ exists binding, o = Threw (ReferenceError binding) e'))
  /\ (forall p, accepted f e = [p] ->
        In p (proposals f e)
        /\ (wristOf f (side p) <> None ->
            o = Returned e'
            /\ total (statsOf (side p) e') = (total (statsOf (side p) e) + 1)%Z
            /\ total (statsOf (otherSide (side p)) e') =
               total (statsOf (otherSide (side p)) e)
            /\ historyOf (side p) e' =
               pushBounded HISTORY_SIZE (historyOf (side p) e) (power p))
        /\ (wristOf f (side p) = None ->
            (exists msg, o = Threw (TypeError msg) e') /\ sameScores e e'))
  /\ (forall pl pr, proposals f e = [pl; pr] ->
        let win := if Rgtb (power pr) (power pl) then pr else pl in
        let lose := if Rgtb (power pr) (power pl) then pl else pr in
        accepted f e = [win]
        /\ total (statsOf (side lose) e') = total (statsOf (side lose) e)
        /\ historyOf (side lose) e' = historyOf (side lose) e
        /\ PunchDetected (limbOf (side lose) (prev e')) = Some true).
Proof.
  intros o e'.
  pose proof (frame_scores f e) as HS. cbv zeta in HS. fold o in HS. fold e' in HS.
  split; [apply accepted_length|].
  split; [apply counted_once|].
  split; [|split].
  - intros p Hp. destruct (proposals_of_loop f e) as [H|(H & _ & b & e2 & T)].
    + left. rewrite H, Hp. reflexivity.
    + right. split; [exact H|]. exists b. unfold e', o. rewrite T. reflexivity.
  - intros p HA. split; [apply accepted_strength, HA|].
    pose proof (accepted_outcome f e p HA) as HO. fold o in HO.
    split.
    + intros HW.
      destruct HS as [(_ & [H|(err & H)])|(q & H1 & HR & T1 & T2 & H3 & _)].
      * rewrite HA in H. discriminate.
      * rewrite H in HO. destruct HO as (_ & HO). contradiction.
      * assert (q = p) by congruence. subst q. repeat split; assumption.
    + intros HW. destruct o as [e2|err e2] eqn:Eo; [contradiction|].
      destruct HO as (-> & _). split; [eexists; reflexivity|].
      destruct HS as [(H & _)|(q & _ & HR & _)]; [exact H | discriminate].
  - intros pl pr Hp win lose.
    destruct (proposals_two f e pl pr Hp) as (Hl & Hr).
    pose proof (better_cases pl pr Hl Hr) as Hlose. cbv zeta in Hlose.
    fold lose in Hlose.
    assert (HA : accepted f e = [win]).
    { destruct (proposals_of_loop f e) as [H|(_ & H & _)].
      - rewrite H, Hp. reflexivity.
      - rewrite Hp in H. cbn in H. lia. }
    split; [exact HA|].
    assert (Hin : In lose (proposals f e)).
    { rewrite Hp. unfold lose.
      destruct (Rgtb _ _); [left | right; left]; reflexivity. }
    destruct (proposal_facts f e lose Hin) as (_ & _ & _ & D).
    assert (Hw : better pl pr = win) by reflexivity.
    destruct HS as [((HH & HT) & _)|(q & H1 & _ & _ & T2 & _ & H4)].
    + split; [apply HT|]. split; [apply HH | exact D].
    + assert (q = win) by congruence. subst q. rewrite Hw in Hlose.
      rewrite Hlose. split; [exact T2|]. split; [exact H4|].
      rewrite <- Hlose. exact D.
Qed.

(** * The workout timer *)

(** ** The segments of a workout *)

Section Segments.
Import WorkoutTimer.
Variable data : Workout.

Let sets := Z.to_nat (sets_per_round (workout_structure data)).
Let n := List.length (rounds (workout_structure data)).

Lemma flat_map_length_const {A B : Type} (f : A -> list B) (k : nat) (l : list A) :
  (forall a, List.length (f a) = k) ->
  List.length (flat_map f l) = (List.length l * k)%nat.
Proof.
  intros H. induction l as [|a tl IH]; cbn [flat_map List.length]; [reflexivity|].
  rewrite length_app, H, IH. lia.
Qed.

Lemma roundSegments_length (r : Round) (rIdx : Z) :
  List.length (roundSegments data r rIdx) =
  (2 * sets + (if (rIdx <? Z.of_nat n - 1)%Z then 1 else 0))%nat.
Proof.
  unfold roundSegments. cbv zeta. rewrite length_app.
  rewrite (flat_map_length_const _ 2) by reflexivity.
  rewrite length_map, length_seq. fold sets. fold n.
  destruct (_ <? _)%Z; cbn [List.length]; lia.
Qed.

Lemma forEachRound_length (rs : list Round) : forall k : nat,
  (k + List.length rs = n)%nat ->
  List.length (forEachRound data rs (Z.of_nat k)) =
  (List.length rs * (2 * sets) + (List.length rs - 1))%nat.
Proof.
  induction rs as [|r tl IH]; intros k Hk; cbn [forEachRound List.length] in *;
    [reflexivity|].
  rewrite length_app, roundSegments_length.
  replace (Z.of_nat k + 1)%Z with (Z.of_nat (S k)) by lia.
  rewrite (IH (S k)) by lia.
  destruct (Z.of_nat k <? Z.of_nat n - 1)%Z eqn:E;
    [apply Z.ltb_lt in E | apply Z.ltb_ge in E]; nia.
Qed.

Lemma totalSeconds_app (a b : list Segment) :
  totalSeconds (a ++ b) = totalSeconds a + totalSeconds b.
Proof.
  unfold totalSeconds. induction a as [|h tl IH]; cbn [app fold_right]; lra.
Qed.

Lemma sets_seconds (r : Round) (rIdx : Z) (l : list Z) :
  totalSeconds (flat_map (setSegments data r rIdx) l) =
  INR (List.length l)
  * (work_interval_sec (workout_structure data)
     + moderate_interval_sec (workout_structure data)).
Proof.
  induction l as [|s tl IH].
  - cbn. lra.
  - cbn [flat_map]. rewrite totalSeconds_app, IH.
    change (List.length (s :: tl)) with (S (List.length tl)). rewrite S_INR.
    unfold totalSeconds, setSegments. cbn [fold_right duration]. lra.
Qed.

Lemma forEachRound_seconds (rs : list Round) : forall k : nat,
  (k + List.length rs = n)%nat ->
  totalSeconds (forEachRound data rs (Z.of_nat k)) =
  INR (List.length rs) * INR sets
  * (work_interval_sec (workout_structure data)
     + moderate_interval_sec (workout_structure data))
  + INR (List.length rs - 1) * rest_between_rounds_sec data.
Proof.
  induction rs as [|r tl IH]; intros k Hk; cbn [forEachRound List.length] in *.
  - cbn. lra.
  - rewrite totalSeconds_app.
    replace (Z.of_nat k + 1)%Z with (Z.of_nat (S k)) by lia.
    rewrite (IH (S k)) by lia.
    unfold roundSegments. cbv zeta. rewrite totalSeconds_app, sets_seconds.
    rewrite length_map, length_seq. fold sets. fold n.
    rewrite S_INR.
    replace (S (List.length tl) - 1)%nat with (List.length tl) by lia.
    destruct (Z.of_nat k <? Z.of_nat n - 1)%Z eqn:E;
      [apply Z.ltb_lt in E | apply Z.ltb_ge in E].
    + destruct tl as [|r' tl']; cbn [List.length] in *; [lia|].
      replace (S (List.length tl') - 1)%nat with (List.length tl') by lia.
      rewrite S_INR. unfold totalSeconds. cbn [fold_right duration].
      clear. subst sets. ring.
    + assert (tl = []) by (destruct tl; cbn [List.length] in *; [reflexivity | lia]).
      subst tl. cbn [List.length INR Nat.sub forEachRound].
      unfold totalSeconds. cbn [fold_right]. clear. subst sets. ring.
Qed.

Lemma roundSegments_in (r : Round) (k : nat) (sg : Segment) :
  nth_error (rounds (workout_structure data)) k = Some r ->
  In sg (roundSegments data r (Z.of_nat k)) ->
  roundIndex sg = Z.of_nat k
  /\ match phase sg with
     | Work =>
       (0 <= setIndex sg < Z.of_nat sets)%Z
       /\ duration sg = work_interval_sec (workout_structure data)
       /\ label sg = Instruction (work r)
     | Moderate =>
       (0 <= setIndex sg < Z.of_nat sets)%Z
       /\ duration sg = moderate_interval_sec (workout_structure data)
       /\ label sg = Instruction (moderate r)
     | Rest =>
       (S k < n)%nat
       /\ setIndex sg = (sets_per_round (workout_structure data) - 1)%Z
       /\ duration sg = rest_between_rounds_sec data
       /\ label sg =
          RestThen (rest_between_rounds_sec data) (Z.of_nat k + 2)%Z
     | Prepare | Done => False
     end.
Proof.
  intros Hr Hin. unfold roundSegments in Hin. cbv zeta in Hin.
  apply in_app_or in Hin. destruct Hin as [Hin|Hin].
  - apply in_flat_map in Hin. destruct Hin as (s & Hs & Hin).
    apply in_map_iff in Hs. destruct Hs as (i & <- & Hi). apply in_seq in Hi.
    fold sets in Hi.
    destruct Hin as [<-|[<-|[]]]; cbn [roundIndex phase setIndex duration label];
      (split; [reflexivity|]); repeat split; lia.
  - fold n in Hin.
    destruct (Z.of_nat k <? Z.of_nat n - 1)%Z eqn:E; [|destruct Hin].
    apply Z.ltb_lt in E. destruct Hin as [<-|[]].
    cbn [roundIndex phase setIndex duration label].
    split; [reflexivity|]. repeat split. lia.
Qed.

Lemma forEachRound_in (sg : Segment) (rs : list Round) : forall k : nat,
  (forall i r, nth_error rs i = Some r ->
               nth_error (rounds (workout_structure data)) (k + i) = Some r) ->
  In sg (forEachRound data rs (Z.of_nat k)) ->
  exists i r, nth_error (rounds (workout_structure data)) i = Some r
              /\ In sg (roundSegments data r (Z.of_nat i)).
Proof.
  induction rs as [|r tl IH]; intros k Hk Hin; cbn [forEachRound] in Hin;
    [destruct Hin|].
  apply in_app_or in Hin. destruct Hin as [Hin|Hin].
  - exists k, r. split; [|exact Hin].
    specialize (Hk 0%nat r eq_refl). rewrite Nat.add_0_r in Hk. exact Hk.
  - replace (Z.of_nat k + 1)%Z with (Z.of_nat (S k)) in Hin by lia.
    apply (IH (S k)); [|exact Hin].
    intros i r' Hi. specialize (Hk (S i) r' Hi).
    replace (S k + i)%nat with (k + S i)%nat by lia. exact Hk.
Qed.

End Segments.

(** X24: [buildSegments] throws on a workout without rounds. Otherwise it
    starts with the 20 second prepare segment and gives, for [n] rounds of [s]
    sets, [1 + 2 n s + (n - 1)] segments: a work and a moderate segment per
    set, and a rest between consecutive rounds but not after the last. *)
Theorem buildSegments_shape (data : WorkoutTimer.Workout) :
  let rounds := WorkoutTimer.rounds (WorkoutTimer.workout_structure data) in
  let n := List.length rounds in
  let s := Z.to_nat (WorkoutTimer.sets_per_round
                       (WorkoutTimer.workout_structure data)) in
  match WorkoutTimer.buildSegments data with
  | inr err =>
    rounds = []
    /\ err = TypeError "Cannot read properties of undefined (reading 'work')"
  | inl segments =>
    (exists first others rest,
       rounds = first :: others
       /\ segments =
          {| WorkoutTimer.roundIndex := 0; WorkoutTimer.setIndex := 0;
             WorkoutTimer.phase := WorkoutTimer.Prepare;
             WorkoutTimer.duration := 20;
             WorkoutTimer.label :=
               WorkoutTimer.GetReady (WorkoutTimer.work first) |} :: rest)
    /\ List.length segments = (1 + 2 * n * s + (n - 1))%nat
  end.
Proof.
  intros rounds n s. unfold WorkoutTimer.buildSegments. fold rounds.
  destruct rounds as [|first others] eqn:E; [split; reflexivity|].
  split; [eexists; eexists; eexists; split; reflexivity|].
  cbn [List.length]. rewrite <- E.
  rewrite (forEachRound_length data _ 0%nat) by reflexivity.
  fold rounds. fold s. rewrite E. fold n. clearbody n s. nia.
Qed.

(** X25: the segments of a workout with [n >= 1] rounds of [s] sets last [20 +
    n s (work + moderate) + (n - 1) rest] seconds together. *)
Theorem buildSegments_total_time (data : WorkoutTimer.Workout)
    (segments : list WorkoutTimer.Segment) :
  WorkoutTimer.buildSegments data = inl segments ->
  let st := WorkoutTimer.workout_structure data in
  let n := List.length (WorkoutTimer.rounds st) in
  let s := Z.to_nat (WorkoutTimer.sets_per_round st) in
  totalSeconds segments =
  20 + INR n * INR s
       * (WorkoutTimer.work_interval_sec st
          + WorkoutTimer.moderate_interval_sec st)
  + INR (n - 1) * WorkoutTimer.rest_between_rounds_sec data.
Proof.
  intros H st n s. unfold WorkoutTimer.buildSegments in H.
  destruct (WorkoutTimer.rounds (WorkoutTimer.workout_structure data))
    as [|first others] eqn:E; [discriminate|].
  match type of H with
  | inl ?l = _ => assert (Hs : segments = l) by congruence
  end.
  subst segments. unfold totalSeconds at 1. cbn [fold_right WorkoutTimer.duration].
  fold (totalSeconds
          (WorkoutTimer.forEachRound data (first :: others) 0)).
  rewrite <- E.
  rewrite (forEachRound_seconds data _ 0%nat) by reflexivity.
  fold st. fold n. fold s. ring.
Qed.

Lemma buildSegments_total_time_witness :
  exists segments,
    WorkoutTimer.buildSegments WorkoutTimer.WORKOUT_DATA = inl segments
    /\ totalSeconds segments = 1715.
Proof.
  destruct (WorkoutTimer.buildSegments WorkoutTimer.WORKOUT_DATA)
    as [segments|err] eqn:E; [|discriminate].
  exists segments. split; [reflexivity|].
  rewrite (buildSegments_total_time _ _ E).
  cbn [WorkoutTimer.WORKOUT_DATA WorkoutTimer.workout_structure
       WorkoutTimer.rounds WorkoutTimer.sets_per_round
       WorkoutTimer.work_interval_sec WorkoutTimer.moderate_interval_sec
       WorkoutTimer.rest_between_rounds_sec List.length].
  change (Z.to_nat 3) with 3%nat. cbn [Nat.sub]. rewrite !S_INR. cbn [INR]. lra.
Defined.

(** X26: every segment names a round that exists, through an index within
    [rounds]; a work or moderate segment carries the instruction of its own
    round and a set index below the number of sets; a rest segment never
    belongs to the last round and announces the round after its own; no
    segment has phase [done], and [prepare] is the first segment only. *)
Theorem segments_belong_to_rounds (data : WorkoutTimer.Workout)
    (segments : list WorkoutTimer.Segment) (i : nat) (sg : WorkoutTimer.Segment) :
  WorkoutTimer.buildSegments data = inl segments ->
  nth_error segments i = Some sg ->
  let st := WorkoutTimer.workout_structure data in
  exists r,
    (0 <= WorkoutTimer.roundIndex sg)%Z
    /\ nth_error (WorkoutTimer.rounds st)
         (Z.to_nat (WorkoutTimer.roundIndex sg)) = Some r
    /\ match WorkoutTimer.phase sg with
       | WorkoutTimer.Prepare => i = 0%nat /\ WorkoutTimer.duration sg = 20
       | WorkoutTimer.Work =>
         i <> 0%nat
         /\ (0 <= WorkoutTimer.setIndex sg < WorkoutTimer.sets_per_round st)%Z
         /\ WorkoutTimer.duration sg = WorkoutTimer.work_interval_sec st
         /\ WorkoutTimer.label sg =
            WorkoutTimer.Instruction (WorkoutTimer.work r)
       | WorkoutTimer.Moderate =>
         i <> 0%nat
         /\ (0 <= WorkoutTimer.setIndex sg < WorkoutTimer.sets_per_round st)%Z
         /\ WorkoutTimer.duration sg = WorkoutTimer.moderate_interval_sec st
         /\ WorkoutTimer.label sg =
            WorkoutTimer.Instruction (WorkoutTimer.moderate r)
       | WorkoutTimer.Rest =>
         i <> 0%nat
         /\ (WorkoutTimer.roundIndex sg + 1
             < Z.of_nat (List.length (WorkoutTimer.rounds st)))%Z
         /\ WorkoutTimer.duration sg = WorkoutTimer.rest_between_rounds_sec data
         /\ WorkoutTimer.label sg =
            WorkoutTimer.RestThen (WorkoutTimer.rest_between_rounds_sec data)
              (WorkoutTimer.roundIndex sg + 2)%Z
       | WorkoutTimer.Done => False
       end.
Proof.
  intros H Hi st. unfold WorkoutTimer.buildSegments in H.
  destruct (WorkoutTimer.rounds (WorkoutTimer.workout_structure data))
    as [|first others] eqn:E; [discriminate|].
  match type of H with
  | inl ?l = _ => assert (Hs : segments = l) by congruence
  end.
  subst segments. destruct i as [|i]; cbn [nth_error] in Hi.
  - assert (sg = _) by (symmetry; injection Hi; intros Hs; exact Hs). subst sg.
    exists first. cbn [WorkoutTimer.roundIndex WorkoutTimer.phase WorkoutTimer.duration].
    split; [lia|]. unfold st. rewrite E. repeat split.
  - apply nth_error_In in Hi. rewrite <- E in Hi.
    apply (forEachRound_in data sg _ 0%nat) in Hi; [|intros j r Hj; exact Hj].
    destruct Hi as (k & r & Hr & Hin).
    pose proof (roundSegments_in data r k sg Hr Hin) as (HI & HP).
    exists r. rewrite HI. split; [lia|]. rewrite Nat2Z.id. unfold st.
    split; [exact Hr|].
    destruct (WorkoutTimer.phase sg); try contradiction.
    + destruct HP as (A & B & C). split; [discriminate|].
      split; [|split; assumption]. lia.
    + destruct HP as (A & B & C). split; [discriminate|].
      split; [|split; assumption]. lia.
    + destruct HP as (A & _ & B & C). split; [discriminate|].
      split; [lia|]. split; assumption.
Qed.

Lemma segments_belong_to_rounds_witness :
  exists segments sg,
    WorkoutTimer.buildSegments WorkoutTimer.WORKOUT_DATA = inl segments
    /\ nth_error segments 7 = Some sg
    /\ WorkoutTimer.phase sg = WorkoutTimer.Rest
    /\ WorkoutTimer.label sg = WorkoutTimer.RestThen 15 2.
Proof.
  destruct (WorkoutTimer.buildSegments WorkoutTimer.WORKOUT_DATA)
    as [segments|err] eqn:E; [|discriminate].
  destruct (nth_error segments 7) as [sg|] eqn:N;
    [|exfalso; revert E N; unfold WorkoutTimer.buildSegments;
      cbn; intros E; injection E as <-; discriminate].
  assert (P : WorkoutTimer.phase sg = WorkoutTimer.Rest).
  { revert E N. unfold WorkoutTimer.buildSegments. cbn. intros E.
    injection E as <-. cbn. intros N. injection N as <-. reflexivity. }
  exists segments, sg. split; [reflexivity|]. split; [exact N|]. split; [exact P|].
  destruct (segments_belong_to_rounds _ _ _ _ E N) as (r & _ & _ & H).
  rewrite P in H. destruct H as (_ & _ & _ & H). rewrite H.
  assert (RI : WorkoutTimer.roundIndex sg = 0%Z).
  { revert E N. unfold WorkoutTimer.buildSegments. cbn. intros E.
    injection E as <-. cbn. intros N. injection N as <-. reflexivity. }
  rewrite RI. reflexivity.
Defined.

(** ** The timer's states *)

Section Timer.
Import WorkoutTimer.
Variable segments : list Segment.

Lemma segmentAt_some (i : Z) :
  (0 <= i < len segments)%Z -> exists sg, segmentAt segments i = Some sg.
Proof.
  intros H. unfold segmentAt, len in *.
  destruct (i <? 0)%Z eqn:E; [apply Z.ltb_lt in E; lia|].
  destruct (nth_error segments (Z.to_nat i)) as [sg|] eqn:N; [eauto|].
  apply nth_error_None in N. lia.
Qed.

Lemma segmentAt_range (i : Z) (sg : Segment) :
  segmentAt segments i = Some sg -> (0 <= i < len segments)%Z /\ In sg segments.
Proof.
  unfold segmentAt, len. destruct (i <? 0)%Z eqn:E; [discriminate|].
  apply Z.ltb_ge in E. intros N. split; [|eapply nth_error_In; exact N].
  assert (Z.to_nat i < List.length segments)%nat
    by (apply nth_error_Some; congruence).
  lia.
Qed.

Hypothesis durations : Forall (fun sg => 0 <= duration sg) segments.

Lemma duration_nonneg (i : Z) (sg : Segment) :
  segmentAt segments i = Some sg -> 0 <= duration sg.
Proof.
  intros H. apply segmentAt_range in H. destruct H as (_ & H).
  rewrite Forall_forall in durations. apply durations, H.
Qed.

Ltac well_formed_goals :=
  unfold WorkoutTimer.wellFormed, WorkoutTimer.syncIdxRef;
  cbn [WorkoutTimer.idx WorkoutTimer.remaining WorkoutTimer.running
       WorkoutTimer.idxRef];
  split; [|split; [|split; [|split]]].

Ltac no_segment :=
  let sg := fresh "sg" in
  let Hs := fresh "Hs" in
  intros sg Hs; apply segmentAt_range in Hs; unfold WorkoutTimer.len in *; lia.

Lemma handle_wellFormed (st : State) (ev : Event) :
  wellFormed segments st ->
  enabled segments st ev ->
  exists st', handle segments ev st = inl st' /\ wellFormed segments st'.
Proof.
  intros (I1 & I2 & I3 & I4 & I5) En. unfold handle.
  destruct ev as [| | | |now]; cbn [enabled] in En.
  - (* Start *)
    destruct En as (Hr & Hi). eexists. split; [reflexivity|].
    assert (Hd0 : forall first tl, segments = first :: tl -> 0 <= duration first).
    { intros first tl Es. apply (duration_nonneg 0). rewrite Es. reflexivity. }
    unfold start. destruct segments as [|first tl] eqn:Es.
    { well_formed_goals;
        [lia | reflexivity | intros C; congruence | exact I4 | exact I5]. }
    cbv zeta. destruct (idx st =? -1)%Z eqn:E;
      [apply Z.eqb_eq in E | apply Z.eqb_neq in E].
    + assert (H0 : segmentAt (first :: tl) 0 = Some first) by reflexivity.
      assert (Hd : 0 <= duration first) by (eapply Hd0; reflexivity).
      well_formed_goals;
        [unfold len; cbn [List.length]; lia | reflexivity
        | intros _; unfold len; cbn [List.length]; lia | intros C; lia |].
      intros sg Hs. rewrite H0 in Hs. assert (sg = first) by congruence.
      subst sg. lra.
    + well_formed_goals;
        [lia | reflexivity | intros _; lia | exact I4 | exact I5].
  - (* Pause *)
    eexists. split; [reflexivity|]. unfold pause.
    well_formed_goals;
      [lia | reflexivity | discriminate | exact I4 | exact I5].
  - (* Reset *)
    eexists. split; [reflexivity|]. unfold reset.
    well_formed_goals;
      [unfold len; lia | reflexivity | discriminate | reflexivity | no_segment].
  - (* Skip *)
    destruct (segmentAt segments (idx st)) as [cur|] eqn:Ec; [|contradiction].
    apply segmentAt_range in Ec. destruct Ec as (Ec & _).
    unfold skip. cbv zeta.
    destruct (idx st <? len segments - 1)%Z eqn:E;
      [apply Z.ltb_lt in E | apply Z.ltb_ge in E].
    + destruct (segmentAt_some (idx st + 1)) as (sg & Hs); [lia|].
      rewrite Hs. eexists. split; [reflexivity|].
      pose proof (duration_nonneg _ _ Hs) as Hd.
      well_formed_goals;
        [lia | reflexivity | intros _; lia | intros C; lia |].
      intros sg' Hs'. assert (sg' = sg) by congruence. subst sg'. lra.
    + eexists. split; [reflexivity|].
      well_formed_goals;
        [lia | reflexivity | discriminate | intros C; lia | no_segment].
  - (* Animation frame *)
    destruct En as (Hr & Hclock). specialize (I3 Hr).
    destruct (segmentAt_some (idx st) I3) as (cur & Hcur).
    destruct (I5 cur Hcur) as (R0 & R1).
    unfold tick. rewrite Hr. cbn [negb]. cbv zeta.
    set (last := if Reqb (lastTickRef st) 0 then now else lastTickRef st).
    assert (Hl : last <= now).
    { unfold last. destruct (Reqb _ 0); lra. }
    set (dt := Rmin 1 ((now - last) / 1000)).
    assert (Hdt : 0 <= dt <= 1).
    { unfold dt. split; [|apply Rmin_l]. apply Rmin_glb; lra. }
    unfold Rgtb. destruct (Rltb 0 (remaining st - dt)) eqn:G;
      [apply Rltb_lt in G | apply Rltb_ge in G].
    + eexists. split; [reflexivity|].
      well_formed_goals;
        [lia | reflexivity | intros _; lia | intros C; lia |].
      intros sg Hs. assert (sg = cur) by congruence. subst sg. lra.
    + rewrite I2.
      destruct (idx st + 1 <? len segments)%Z eqn:E;
        [apply Z.ltb_lt in E | apply Z.ltb_ge in E].
      * destruct (segmentAt_some (idx st + 1)) as (sg & Hs); [lia|].
        rewrite Hs. eexists. split; [reflexivity|].
        pose proof (duration_nonneg _ _ Hs) as Hd.
        well_formed_goals;
          [lia | reflexivity | intros _; lia | intros C; lia |].
        intros sg' Hs'. assert (sg' = sg) by congruence. subst sg'. lra.
      * eexists. split; [reflexivity|].
        well_formed_goals;
          [lia | reflexivity | discriminate | intros C; lia | no_segment].
Qed.

Lemma initial_wellFormed : wellFormed segments initial.
Proof.
  unfold initial.
  well_formed_goals;
    [unfold len; lia | reflexivity | discriminate | reflexivity | no_segment].
Qed.

Lemma reachable_wellFormed (st : State) :
  Reachable segments st -> wellFormed segments st.
Proof.
  induction 1 as [|st st' ev _ IH En H]; [apply initial_wellFormed|].
  destruct (handle_wellFormed st ev IH En) as (st1 & H1 & W).
  assert (st1 = st') by congruence. subst st1. exact W.
Qed.

End Timer.

(** X27: whatever is pressed and however the frames fall, the timer stays well
    formed: [idx] is between -1 and the number of segments, it runs only
    inside a segment, the time left is between 0 and the duration of the
    current segment, and no handler that the buttons allow throws. *)
Theorem timer_stays_well_formed (segments : list WorkoutTimer.Segment)
    (st : WorkoutTimer.State) :
  Forall (fun sg => 0 <= WorkoutTimer.duration sg) segments ->
  WorkoutTimer.Reachable segments st ->
  WorkoutTimer.wellFormed segments st
  /\ forall ev, WorkoutTimer.enabled segments st ev ->
       exists st', WorkoutTimer.handle segments ev st = inl st'.
Proof.
  intros D HR. pose proof (reachable_wellFormed segments D st HR) as W.
  split; [exact W|]. intros ev En.
  destruct (handle_wellFormed segments D st ev W En) as (st' & H & _).
  exists st'. exact H.
Qed.

Lemma demoSegments_durations :
  Forall (fun sg => 0 <= WorkoutTimer.duration sg) demoSegments.
Proof. repeat constructor; cbn; lra. Qed.

Lemma demoStarted_reachable : WorkoutTimer.Reachable demoSegments demoStarted.
Proof.
  apply (WorkoutTimer.ReachStep demoSegments WorkoutTimer.initial demoStarted
           WorkoutTimer.PressStart).
  - constructor.
  - split; [reflexivity|]. cbn. lia.
  - reflexivity.
Qed.

Lemma timer_stays_well_formed_witness :
  WorkoutTimer.wellFormed demoSegments demoStarted.
Proof.
  exact (proj1 (timer_stays_well_formed demoSegments demoStarted
                  demoSegments_durations demoStarted_reachable)).
Defined.

(** X28: one animation frame takes at most one second off the time left,
    however long ago the last frame was, and moves on by at most one segment,
    which it does only when no more than that second was left; the new segment
    starts with its whole duration, and past the last segment the timer stops
    at 0. *)
Theorem tick_takes_at_most_a_second (segments : list WorkoutTimer.Segment)
    (st : WorkoutTimer.State) (now : R) :
  WorkoutTimer.wellFormed segments st ->
  WorkoutTimer.running st = true ->
  WorkoutTimer.lastTickRef st <= now ->
  exists st',
    WorkoutTimer.tick segments now st = inl st'
    /\ WorkoutTimer.lastTickRef st' = now
    /\ ((WorkoutTimer.idx st' = WorkoutTimer.idx st
         /\ WorkoutTimer.running st' = true
         /\ 0 < WorkoutTimer.remaining st'
         /\ WorkoutTimer.remaining st - 1 <= WorkoutTimer.remaining st'
            <= WorkoutTimer.remaining st)
        \/ (WorkoutTimer.idx st' = (WorkoutTimer.idx st + 1)%Z
            /\ WorkoutTimer.remaining st <= 1
            /\ match WorkoutTimer.segmentAt segments (WorkoutTimer.idx st + 1) with
               | Some sg =>
                 WorkoutTimer.running st' = true
                 /\ WorkoutTimer.remaining st' = WorkoutTimer.duration sg
               | None =>
                 WorkoutTimer.running st' = false
                 /\ WorkoutTimer.remaining st' = 0
                 /\ WorkoutTimer.idx st' = WorkoutTimer.len segments
               end)).
Proof.
  intros (I1 & I2 & I3 & I4 & I5) Hr Hclock. specialize (I3 Hr).
  unfold WorkoutTimer.tick. rewrite Hr. cbn [negb]. cbv zeta.
  set (last := if Reqb (WorkoutTimer.lastTickRef st) 0 then now
               else WorkoutTimer.lastTickRef st).
  assert (Hl : last <= now) by (unfold last; destruct (Reqb _ 0); lra).
  set (dt := Rmin 1 ((now - last) / 1000)).
  assert (Hdt : 0 <= dt <= 1).
  { unfold dt. split; [|apply Rmin_l]. apply Rmin_glb; lra. }
  unfold Rgtb. destruct (Rltb 0 (WorkoutTimer.remaining st - dt)) eqn:G;
    [apply Rltb_lt in G | apply Rltb_ge in G].
  - eexists. split; [reflexivity|]. cbn. split; [reflexivity|]. left.
    repeat split; try assumption; lra.
  - rewrite I2.
    destruct (WorkoutTimer.idx st + 1 <? WorkoutTimer.len segments)%Z eqn:E;
      [apply Z.ltb_lt in E | apply Z.ltb_ge in E].
    + destruct (segmentAt_some segments (WorkoutTimer.idx st + 1)) as (sg & Hs);
        [lia|].
      rewrite Hs. eexists. split; [reflexivity|]. cbn. split; [reflexivity|].
      right. split; [reflexivity|]. split; [lra|]. split; reflexivity.
    + eexists. split; [reflexivity|]. cbn. split; [reflexivity|]. right.
      split; [reflexivity|]. split; [lra|].
      destruct (WorkoutTimer.segmentAt segments (WorkoutTimer.idx st + 1))
        as [sg|] eqn:Hs.
      * apply segmentAt_range in Hs. lia.
      * repeat split. lia.
Qed.

Lemma tick_takes_at_most_a_second_witness :
  exists st',
    WorkoutTimer.tick demoSegments 5000 demoStarted = inl st'
    /\ WorkoutTimer.lastTickRef st' = 5000.
Proof.
  destruct (tick_takes_at_most_a_second demoSegments demoStarted 5000)
    as (st' & H & L & _).
  - exact (reachable_wellFormed demoSegments demoSegments_durations
             demoStarted demoStarted_reachable).
  - reflexivity.
  - cbn. lra.
  - exists st'. split; assumption.
Defined.

(** X29: pausing does not stop the clock that [tick] reads: for a running
    timer that has ticked before and has more than a second remaining, after
    Pause and Resume the first frame that comes a second or more after the
    last frame before the pause takes a whole second off, although the timer
    was not running in between; the segment does not change. *)
Theorem resume_takes_a_second (segments : list WorkoutTimer.Segment)
    (st : WorkoutTimer.State) (now : R) :
  WorkoutTimer.wellFormed segments st ->
  WorkoutTimer.running st = true ->
  WorkoutTimer.lastTickRef st <> 0 ->
  WorkoutTimer.lastTickRef st + 1000 <= now ->
  1 < WorkoutTimer.remaining st ->
  exists paused resumed st',
    WorkoutTimer.handle segments WorkoutTimer.PressPause st = inl paused
    /\ WorkoutTimer.enabled segments paused WorkoutTimer.PressStart
    /\ WorkoutTimer.handle segments WorkoutTimer.PressStart paused = inl resumed
    /\ WorkoutTimer.enabled segments resumed (WorkoutTimer.AnimationFrame now)
    /\ WorkoutTimer.handle segments (WorkoutTimer.AnimationFrame now) resumed
       = inl st'
    /\ WorkoutTimer.idx st' = WorkoutTimer.idx st
    /\ WorkoutTimer.running st' = true
    /\ WorkoutTimer.remaining st' = WorkoutTimer.remaining st - 1.
Proof.
  intros (I1 & I2 & I3 & I4 & I5) Hr H0 Hgap Hrem. specialize (I3 Hr).
  eexists. eexists. eexists.
  split; [reflexivity|].
  split; [cbn; split; [reflexivity | lia]|].
  assert (Hstart :
    WorkoutTimer.start segments
      (WorkoutTimer.syncIdxRef (WorkoutTimer.pause st)) =
    {| WorkoutTimer.idx := WorkoutTimer.idx st;
       WorkoutTimer.remaining := WorkoutTimer.remaining st;
       WorkoutTimer.running := true;
       WorkoutTimer.lastTickRef := WorkoutTimer.lastTickRef st;
       WorkoutTimer.idxRef := WorkoutTimer.idx st |}).
  { unfold WorkoutTimer.start.
    destruct segments as [|first tl]; [unfold WorkoutTimer.len in I3; cbn in I3; lia|].
    cbn. destruct (WorkoutTimer.idx st =? -1)%Z eqn:E;
      [apply Z.eqb_eq in E; lia | reflexivity]. }
  unfold WorkoutTimer.handle at 1. rewrite Hstart.
  split; [reflexivity|].
  split; [cbn; split; [reflexivity | lra]|].
  unfold WorkoutTimer.handle, WorkoutTimer.tick.
  cbn [WorkoutTimer.syncIdxRef WorkoutTimer.idx WorkoutTimer.remaining
       WorkoutTimer.running WorkoutTimer.lastTickRef WorkoutTimer.idxRef negb].
  cbv zeta. rewrite Reqb_false by exact H0.
  rewrite Rmin_left
    by (apply (Rmult_le_reg_r 1000); [lra|]; unfold Rdiv;
        rewrite Rmult_assoc, Rinv_l by lra; lra).
  unfold Rgtb. rewrite Rltb_true by lra.
  split; [reflexivity|]. cbn. repeat split.
Qed.

Lemma resume_takes_a_second_witness :
  exists paused resumed st',
    WorkoutTimer.handle demoSegments WorkoutTimer.PressPause demoTicking
      = inl paused
    /\ WorkoutTimer.handle demoSegments WorkoutTimer.PressStart paused
       = inl resumed
    /\ WorkoutTimer.handle demoSegments (WorkoutTimer.AnimationFrame 9000)
         resumed = inl st'
    /\ WorkoutTimer.remaining st' = 15 - 1.
Proof.
  assert (W : WorkoutTimer.wellFormed demoSegments demoTicking).
  { unfold WorkoutTimer.wellFormed, demoTicking. cbn.
    split; [lia|]. split; [reflexivity|]. split; [intros _; lia|].
    split; [intros C; discriminate|].
    intros sg Hs. assert (E : sg = nth 0 demoSegments sg) by (cbn; congruence).
    rewrite E. cbn. lra. }
  assert (H1 : WorkoutTimer.lastTickRef demoTicking <> 0) by (cbn; lra).
  assert (H2 : WorkoutTimer.lastTickRef demoTicking + 1000 <= 9000) by (cbn; lra).
  assert (H3 : 1 < WorkoutTimer.remaining demoTicking) by (cbn; lra).
  destruct (resume_takes_a_second demoSegments demoTicking 9000 W eq_refl H1 H2 H3)
    as (paused & resumed & st' & P & _ & S & _ & T & _ & _ & Rm).
  exists paused, resumed, st'. repeat split; assumption.
Defined.

(** ** [formatTime] *)

Lemma floor_sixtieth (s : R) :
  0 <= s ->
  Math_floor (s / 60) = (Math_floor s / 60)%Z
  /\ Math_floor (WorkoutTimer.jsRem s 60) = (Math_floor s mod 60)%Z.
Proof.
  intros Hs. pose proof (Math_floor_spec s) as Hz.
  set (z := Math_floor s) in *.
  pose proof (Z.div_mod z 60 ltac:(lia)) as Hd.
  pose proof (Z.mod_pos_bound z 60 ltac:(lia)) as Hm.
  set (q := (z / 60)%Z) in *. set (r := (z mod 60)%Z) in *.
  assert (Hzr : IZR z = 60 * IZR q + IZR r).
  { rewrite Hd. rewrite plus_IZR, mult_IZR. reflexivity. }
  assert (Hr0 : 0 <= IZR r) by (apply IZR_le; lia).
  assert (Hr1 : IZR r + 1 <= 60).
  { replace 60 with (IZR 60) by reflexivity. rewrite <- plus_IZR. apply IZR_le. lia. }
  assert (Hq : Math_floor (s / 60) = q).
  { apply Math_floor_unique. split.
    - apply (Rmult_le_reg_r 60); [lra|]. unfold Rdiv.
      rewrite Rmult_assoc, Rinv_l by lra. lra.
    - apply (Rmult_lt_reg_r 60); [lra|]. unfold Rdiv.
      rewrite Rmult_assoc, Rinv_l by lra. lra. }
  split; [exact Hq|].
  unfold WorkoutTimer.jsRem. cbv zeta.
  assert (Hpos : 0 <= s / 60).
  { apply (Rmult_le_reg_r 60); [lra|]. unfold Rdiv.
    rewrite Rmult_assoc, Rinv_l by lra. lra. }
  rewrite Rleb_true by exact Hpos. rewrite Hq.
  apply Math_floor_unique. lra.
Qed.

Lemma two_digits (k : Z) :
  (0 <= k < 100)%Z ->
  String.length (WorkoutTimer.padStart2 (WorkoutTimer.toString k)) = 2%nat.
Proof.
  intros H.
  assert (A : forallb (fun i => Nat.eqb
                (String.length (WorkoutTimer.padStart2
                                  (WorkoutTimer.toString (Z.of_nat i)))) 2)
                (seq 0 100) = true) by (vm_compute; reflexivity).
  rewrite forallb_forall in A.
  specialize (A (Z.to_nat k)). rewrite Z2Nat.id in A by lia.
  apply Nat.eqb_eq, A, in_seq. lia.
Qed.

Lemma length_append (a b : string) :
  String.length (String.append a b) = (String.length a + String.length b)%nat.
Proof.
  induction a as [|c a IH]; cbn [String.append String.length];
    [reflexivity | rewrite IH; reflexivity].
Qed.

(** X30: for a time of [0 <= s < 6000] seconds (below 100 minutes),
    [formatTime] shows the whole minutes and the whole seconds past them,
    each padded to two digits: five characters in all. *)
Theorem formatTime_minutes_seconds (s : R) :
  0 <= s < 6000 ->
  let z := Math_floor s in
  WorkoutTimer.formatTime s =
    String.append (WorkoutTimer.padStart2 (WorkoutTimer.toString (z / 60)))
      (String.append ":"
         (WorkoutTimer.padStart2 (WorkoutTimer.toString (z mod 60))))
  /\ (0 <= z / 60 < 100)%Z /\ (0 <= z mod 60 < 60)%Z
  /\ String.length (WorkoutTimer.formatTime s) = 5%nat.
Proof.
  intros (Hs & Hlt) z. destruct (floor_sixtieth s Hs) as (Hq & Hr).
  fold z in Hq, Hr.
  assert (E : WorkoutTimer.formatTime s =
    String.append (WorkoutTimer.padStart2 (WorkoutTimer.toString (z / 60)))
      (String.append ":"
         (WorkoutTimer.padStart2 (WorkoutTimer.toString (z mod 60))))).
  { unfold WorkoutTimer.formatTime. cbv zeta. rewrite Hq, Hr. reflexivity. }
  pose proof (Math_floor_spec s) as Hz. fold z in Hz.
  assert (Hz0 : (0 <= z)%Z).
  { apply Z.lt_succ_r. apply lt_IZR. rewrite succ_IZR. lra. }
  assert (Hz1 : (z < 6000)%Z) by (apply lt_IZR; lra).
  assert (Hm : (0 <= z / 60 < 100)%Z)
    by (split; [apply Z.div_pos; lia | apply Z.div_lt_upper_bound; lia]).
  assert (Hsec : (0 <= z mod 60 < 60)%Z) by (apply Z.mod_pos_bound; lia).
  split; [exact E|]. split; [exact Hm|]. split; [exact Hsec|].
  rewrite E, !length_append.
  rewrite two_digits by exact Hm.
  rewrite two_digits by lia.
  reflexivity.
Qed.

Lemma formatTime_minutes_seconds_witness :
  WorkoutTimer.formatTime 75.5 = "01:15"%string.
Proof.
  assert (H : 0 <= 75.5 < 6000) by lra.
  rewrite (proj1 (formatTime_minutes_seconds 75.5 H)).
  assert (F : Math_floor 75.5 = 75%Z) by (apply Math_floor_unique; lra).
  rewrite F. reflexivity.
Defined.
